(** * Safe submodule updates and production quality gates

  A shallow embedding of [scripts/safe-update.js] (class
  [SafeSubmoduleUpdater]) and [scripts/quality-gates.js] (class
  [ProductionQualityGates], which the source tree at hand keeps as the
  second half of [scripts/update-mirror-branches.js]) of the xion-apps
  monorepo tooling, with the properties their design document states
  about them.  Further modules embed the compatibility matrix of
  [safe-update.js], the mirror-branch script proper and the parts of the
  contract validator that the contract gate depends on.

  Conventions of the embedding.
  - A JavaScript [number] is an exact rational ([Q]) where the gates
    compute their scores, a double that holds an integer ([IntNumber])
    where the code parses version components, and an integer ([Z]) where
    it counts.  The rounding of IEEE doubles is modelled where a property
    depends on it: in [parseInt], and for the overall score in module
    [Doubles], which embeds [calculateOverallScore] once more on doubles.
  - A JavaScript exception is an [Error] object, identified with its
    message: the [Throw] outcome of [Res]; a [try]/[catch] is a match on
    it.  [async]/[await] is sequential composition.
  - Console output ([logger.*], [console.log]) is not modelled. *)

From Stdlib Require Import Ascii String QArith Qminmax.
From Stdlib Require Import Floats.SpecFloat.
From stdpp Require Import gmap strings list.

Local Open Scope string_scope.

(** ** JavaScript values and helpers *)

Module JS.

(** Outcome of an expression that may throw. *)
Inductive Res (A : Type) : Type :=
| Ok (a : A)
| Throw (message : string).
Arguments Ok {A} a.
Arguments Throw {A} message.

Definition is_digit (c : ascii) : bool :=
  let n := Ascii.nat_of_ascii c in (48 <=? n)%nat && (n <=? 57)%nat.

(** [\d*], greedy: the longest prefix of digits and what follows it. *)
Fixpoint span_digits (s : string) : string * string :=
  match s with
  | String c r =>
      if is_digit c
      then let '(d, rest) := span_digits r in (String c d, rest)
      else (EmptyString, s)
  | EmptyString => (EmptyString, EmptyString)
  end.

(** [\d+] *)
Definition digits1 (s : string) : option (string * string) :=
  match span_digits s with
  | (EmptyString, _) => None
  | (d, rest) => Some (d, rest)
  end.

(** [\.] *)
Definition dot (s : string) : option string :=
  match s with
  | String "."%char r => Some r
  | _ => None
  end.

(** [v?] : digits never start with [v], so taking the [v] when it is there
    loses no match. *)
Definition opt_v (s : string) : string :=
  match s with
  | String "v"%char r => r
  | _ => s
  end.

(** The pattern [/^v?(\d+)\.(\d+)\.(\d+)/]: the three captured groups of a
    match at the start of the string, [None] when there is no match.  The
    pattern is not anchored at the end. *)
Definition re_semver (s : string) : option (string * string * string) :=
  match digits1 (opt_v s) with
  | Some (a, r1) =>
      match dot r1 with
      | Some r2 =>
          match digits1 r2 with
          | Some (b, r3) =>
              match dot r3 with
              | Some r4 =>
                  match digits1 r4 with
                  | Some (c, _) => Some (a, b, c)
                  | None => None
                  end
              | None => None
              end
          | None => None
          end
      | None => None
      end
  | None => None
  end.

Definition digit_val (c : ascii) : N := N.of_nat (Ascii.nat_of_ascii c - 48).

Fixpoint parseInt_acc (acc : N) (s : string) : N :=
  match s with
  | String c r => parseInt_acc (10 * acc + digit_val c)%N r
  | EmptyString => acc
  end.

(** The integer that a run of decimal digits writes. *)
Definition decimal (s : string) : N := parseInt_acc 0%N s.

(** *** Numbers that hold an integer

    A JavaScript number is an IEEE 754 double.  [parseInt] on a run of
    decimal digits answers the double nearest to the integer written, the
    one with the even mantissa when two are as near, and [Infinity] past
    the largest double.  Such a double is itself a non-negative integer or
    [Infinity], and is held here as that integer.  (Past twenty digits the
    language lets an engine read the later digits as zeros; the nearest
    double to the number written is what is modelled.) *)
Inductive IntNumber : Type :=
| Finite (n : N)
| Infinity.

Definition two53 : N := 9007199254740992.

(** The nearest integer with 53 significant bits, ties to even. *)
Definition round53 (n : N) : N :=
  if (n <? two53)%N then n
  else
    let k := (N.log2 n - 52)%N in       (* the bits that do not fit *)
    let q := N.shiftr n k in
    let r := N.land n (N.ones k) in
    let half := N.shiftl 1 (k - 1) in
    let q' := if (half <? r)%N || ((r =? half)%N && N.odd q)
              then (q + 1)%N else q in
    N.shiftl q' k.

Definition toNumber (n : N) : IntNumber :=
  let r := round53 n in
  if (r <? N.shiftl 1 1024)%N then Finite r else Infinity.

(** [x < y] on such numbers *)
Definition lt (x y : IntNumber) : bool :=
  match x, y with
  | Finite a, Finite b => (a <? b)%N
  | Finite _, Infinity => true
  | Infinity, _ => false
  end.

(** The same rounding as the Standard Library's model of IEEE 754
    arithmetic computes it, for comparison. *)
Definition toNumber_IEEE (n : N) : IntNumber :=
  match binary_normalize 53 1024 (Z.of_N n) 0 false with
  | S754_zero _ => Finite 0
  | S754_finite _ m e =>
      Finite (Z.to_N (if (e <? 0)%Z then Z.pos m / 2 ^ (- e)
                      else Z.pos m * 2 ^ e))
  | _ => Infinity
  end.

(** [parseInt] on a captured group of decimal digits. *)
Definition parseInt (s : string) : IntNumber := toNumber (decimal s).

Definition is_space (c : ascii) : bool :=
  let n := Ascii.nat_of_ascii c in
  (n =? 32)%nat || ((9 <=? n)%nat && (n <=? 13)%nat).

Fixpoint trim_start (s : string) : string :=
  match s with
  | String c r => if is_space c then trim_start r else s
  | EmptyString => EmptyString
  end.

Fixpoint trim_end (s : string) : string :=
  match s with
  | String c r =>
      match trim_end r with
      | EmptyString => if is_space c then EmptyString else String c EmptyString
      | r' => String c r'
      end
  | EmptyString => EmptyString
  end.

(** [String.prototype.trim] *)
Definition trim (s : string) : string := trim_end (trim_start s).

(** Truthiness of a string. *)
Definition truthy_str (s : string) : bool :=
  match s with EmptyString => false | _ => true end.

(** Truthiness of a value that is a string or [null]. *)
Definition truthy (v : option string) : bool :=
  match v with Some s => truthy_str s | None => false end.

Definition lower (c : ascii) : ascii :=
  let n := Ascii.nat_of_ascii c in
  if (65 <=? n)%nat && (n <=? 90)%nat then Ascii.ascii_of_nat (n + 32) else c.

(** [String.prototype.toLowerCase] *)
Fixpoint toLowerCase (s : string) : string :=
  match s with
  | String c r => String (lower c) (toLowerCase r)
  | EmptyString => EmptyString
  end.

(** [s.replace(pat, '')] with a string pattern: the first occurrence only. *)
Fixpoint remove_first (pat s : string) : string :=
  if String.prefix pat s
  then String.substring (String.length pat) (String.length s - String.length pat) s
  else match s with
       | String c r => String c (remove_first pat r)
       | EmptyString => EmptyString
       end.

(** [s.substring(0, n)] *)
Definition substring0 (n : nat) (s : string) : string := String.substring 0 n s.

(** *** Statements

    A block of statements working on mutable objects is a function from
    the objects' state to an outcome and the state it leaves: an exception
    keeps what was written before it. *)

Definition M (S A : Type) : Type := S -> Res A * S.

Definition ret {S A} (a : A) : M S A := fun s => (Ok a, s).

Definition bind {S A B} (m : M S A) (k : A -> M S B) : M S B :=
  fun s => match m s with
           | (Ok a, s') => k a s'
           | (Throw e, s') => (Throw e, s')
           end.

(** [throw new Error(message)] *)
Definition throw {S A} (message : string) : M S A := fun s => (Throw message, s).

(** An expression that reads nothing of the state, such as an awaited call
    whose outcome is given. *)
Definition await {S A} (r : Res A) : M S A := fun s => (r, s).

Definition get {S} : M S S := fun s => (Ok s, s).
Definition gets {S A} (f : S -> A) : M S A := fun s => (Ok (f s), s).
Definition modify {S} (f : S -> S) : M S unit := fun s => (Ok tt, f s).

(** [try { body } catch (error) { handler(error.message) }] *)
Definition try_catch {S A} (body : M S A) (handler : string -> M S A) : M S A :=
  fun s => match body s with
           | (Ok a, s') => (Ok a, s')
           | (Throw e, s') => handler e s'
           end.

(** [Array.prototype.sort(compare)]: a stable sort; an exception of the
    comparison function ends the sort.  The order in which a JavaScript
    engine calls the comparison function is its own; this is the insertion
    sort, which like every comparison sort calls it at least once on an
    array of two or more elements. *)
Fixpoint sort_insert {A} (compare : A -> A -> Res Z) (x : A) (sorted : list A)
  : Res (list A) :=
  match sorted with
  | [] => Ok [x]
  | y :: rest =>
      match compare y x with
      | Throw e => Throw e
      | Ok c =>
          if (c <=? 0)%Z
          then match sort_insert compare x rest with
               | Throw e => Throw e
               | Ok rest' => Ok (y :: rest')
               end
          else Ok (x :: y :: rest)
      end
  end.

Fixpoint sort_from {A} (compare : A -> A -> Res Z) (todo sorted : list A)
  : Res (list A) :=
  match todo with
  | [] => Ok sorted
  | x :: todo' =>
      match sort_insert compare x sorted with
      | Throw e => Throw e
      | Ok sorted' => sort_from compare todo' sorted'
      end
  end.

Definition sort {A} (compare : A -> A -> Res Z) (xs : list A) : Res (list A) :=
  sort_from compare xs [].

End JS.
Export JS.

Notation "x <- m ;; k" := (bind m (fun x => k))
  (at level 100, m at next level, right associativity).
Notation "m ;;; k" := (bind m (fun _ => k))
  (at level 100, right associativity).

(** ** Version classification ([safe-update.js]) *)

Module Version.

Record SemVer := { major : IntNumber; minor : IntNumber; patch : IntNumber }.

Definition isSemanticVersion (version : string) : bool :=
  match re_semver version with Some _ => true | None => false end.

Definition parseSemanticVersion (version : string) : Res SemVer :=
  match re_semver version with
  | None => Throw ("Invalid semantic version: " +:+ version)
  | Some (a, b, c) =>
      Ok {| major := parseInt a; minor := parseInt b; patch := parseInt c |}
  end.

(** The body of [determineUpdateType] once [getCurrentVersion] has
    answered: [currentVersion] is the (trimmed) tag or [null]. *)
Definition classify (currentVersion : option string) (targetVersion : string)
  : string :=
  let attempt : Res string :=
    match currentVersion with
    | None => Ok "major"
    | Some cv =>
        if negb (truthy_str cv) || negb (isSemanticVersion cv)
           || negb (isSemanticVersion targetVersion)
        then Ok "major"
        else
          match parseSemanticVersion cv with
          | Throw m => Throw m
          | Ok current =>
              match parseSemanticVersion targetVersion with
              | Throw m => Throw m
              | Ok target =>
                  if lt (major current) (major target) then Ok "major"
                  else if lt (minor current) (minor target) then Ok "minor"
                  else if lt (patch current) (patch target) then Ok "patch"
                  else Ok "patch"
              end
          end
    end in
  match attempt with
  | Ok t => t
  | Throw _ => "major"
  end.

(** The rule as the design document words it: the triples of integers are
    compared in the lexicographic order, and a target that is not above
    the current version (equal or regressive) is a patch. *)
Definition classify_lexicographic (current target : N * N * N) : string :=
  let '(a, b, c) := current in
  let '(a', b', c') := target in
  match (a ?= a')%N with
  | Lt => "major"
  | Gt => "patch"
  | Eq =>
      match (b ?= b')%N with
      | Lt => "minor"
      | Gt => "patch"
      | Eq => "patch"
      end
  end.

End Version.


(** ** Production quality gates ([quality-gates.js]) *)

Module Gates.

Local Open Scope Q_scope.

(** Values stored in a gate's [checks] object. *)
Inductive Val : Type :=
| VBool (b : bool)
| VNum (q : Q)
| VStr (s : string)
| VNull.

(** A plain object with string keys: an association list in insertion
    order, as [Object.entries] enumerates it. *)
Definition Obj (V : Type) : Type := list (string * V).

Fixpoint obj_get {V} (k : string) (o : Obj V) : option V :=
  match o with
  | [] => None
  | (k', v) :: o' => if String.eqb k k' then Some v else obj_get k o'
  end.

(** [o[k] = v]: an existing key keeps its place, a new key goes last. *)
Fixpoint obj_set {V} (k : string) (v : V) (o : Obj V) : Obj V :=
  match o with
  | [] => [(k, v)]
  | (k', v') :: o' =>
      if String.eqb k k' then (k, v) :: o' else (k', v') :: obj_set k v o'
  end.

Record Gate := {
  name : string;
  weight : Q;
  critical : bool
}.

Record GateResult := {
  gname : string;
  score : Q;
  maxScore : Q;
  passed : bool;
  checks : Obj Val;
  issues : list string
}.

(** The instance fields of [ProductionQualityGates]. *)
Record QualityGates := {
  gates : list Gate;
  minimumScore : Q;
  criticalGateThreshold : Q
}.

(** [constructor()] *)
Definition new_ProductionQualityGates : QualityGates :=
  {| gates :=
       [ {| name := "Security Gate"; weight := 25; critical := true |};
         {| name := "Stability Gate"; weight := 20; critical := true |};
         {| name := "Performance Gate"; weight := 15; critical := false |};
         {| name := "Contract Gate"; weight := 20; critical := true |};
         {| name := "Deployment Gate"; weight := 20; critical := true |} ];
     minimumScore := 80;
     criticalGateThreshold := 90 |}.

(** [gate.name.toLowerCase().replace(' gate', '')] *)
Definition gateKey (g : Gate) : string :=
  remove_first " gate" (toLowerCase (name g)).

(** [Math.max], [Math.min], [>=], [>] and [<] on numbers. *)
Definition Math_max (a b : Q) : Q := Qmax a b.
Definition Math_min (a b : Q) : Q := Qmin a b.
Definition geq (a b : Q) : bool := Qle_bool b a.
Definition gtq (a b : Q) : bool := negb (Qle_bool a b).
Definition ltq (a b : Q) : bool := negb (Qle_bool b a).

(** [xs.filter(Boolean).length] on an array of booleans. *)
Definition count_true (xs : list bool) : Q :=
  inject_Z (Z.of_nat (length (filter (fun b => b = true) xs))).

(** *** Gate evaluators

    Every evaluator builds its [gate] object, fills it inside a [try] block
    and returns it; the [catch] block pushes one issue. *)

Definition set_check (k : string) (v : Val) : M GateResult unit :=
  modify (fun g => {| gname := gname g; score := score g; maxScore := maxScore g;
                      passed := passed g; checks := obj_set k v (checks g);
                      issues := issues g |}).

Definition set_score (q : Q) : M GateResult unit :=
  modify (fun g => {| gname := gname g; score := q; maxScore := maxScore g;
                      passed := passed g; checks := checks g;
                      issues := issues g |}).

Definition set_passed (b : bool) : M GateResult unit :=
  modify (fun g => {| gname := gname g; score := score g; maxScore := maxScore g;
                      passed := b; checks := checks g; issues := issues g |}).

Definition set_issues (l : list string) : M GateResult unit :=
  modify (fun g => {| gname := gname g; score := score g; maxScore := maxScore g;
                      passed := passed g; checks := checks g; issues := l |}).

Definition push_issue (m : string) : M GateResult unit :=
  modify (fun g => {| gname := gname g; score := score g; maxScore := maxScore g;
                      passed := passed g; checks := checks g;
                      issues := issues g ++ [m] |}).

(** [try { body } catch (error) { gate.issues.push(`<what> evaluation
    failed: ${error.message}`) } return gate] *)
Definition try_gate (what : string) (g0 : GateResult) (body : M GateResult unit)
  : GateResult :=
  snd (try_catch body
         (fun e => push_issue (what +:+ " evaluation failed: " +:+ e)) g0).

(** The [gate] object literal every evaluator starts from. *)
Definition new_gate (n : string) (s : Q) (p : bool) : GateResult :=
  {| gname := n; score := s; maxScore := 100; passed := p;
     checks := []; issues := [] |}.

(** [gate.passed = gate.score >= threshold; if (!gate.passed) gate.issues =
    collect(gate.checks)] *)
Definition decide_passed (threshold : Q) (collect : Obj Val -> list string)
  : M GateResult unit :=
  s <- gets score ;;
  set_passed (geq s threshold) ;;;
  ok <- gets passed ;;
  if negb ok
  then (c <- gets checks ;; set_issues (collect c))
  else ret tt.

(** The four [collect...Issues] helpers are stubs in the source. *)
Definition collectSecurityIssues (c : Obj Val) : list string := [].
Definition collectStabilityIssues (c : Obj Val) : list string := [].
Definition collectContractIssues {R} (c : Obj Val) (result : R) : list string := [].
Definition collectDeploymentIssues (c : Obj Val) : list string := [].

(** What the security gate asks of its collaborators, in the order asked. *)
Record SecurityProbes := {
  existsSync_SECURITY_md : bool;
  checkSecureGitignore : Res bool;
  existsSync_env_example : bool;
  checkForHardcodedSecrets : Res bool;
  checkVulnerabilities : Res Z;
  checkHttpsEnforcement : Res bool;
  checkAuthImplementation : Res bool
}.

Definition evaluateSecurityGate (this : QualityGates) (p : SecurityProbes)
  : GateResult :=
  try_gate "Security" (new_gate "Security Gate" 0 false)
    (let hasSecurityPolicy := existsSync_SECURITY_md p in
     set_check "hasSecurityPolicy" (VBool hasSecurityPolicy) ;;;
     secureGitignore <- await (checkSecureGitignore p) ;;
     set_check "secureGitignore" (VBool secureGitignore) ;;;
     let hasEnvExample := existsSync_env_example p in
     set_check "hasEnvExample" (VBool hasEnvExample) ;;;
     noHardcodedSecrets <- await (checkForHardcodedSecrets p) ;;
     set_check "noHardcodedSecrets" (VBool noHardcodedSecrets) ;;;
     vulnerabilityCount <- await (checkVulnerabilities p) ;;
     set_check "vulnerabilityCount" (VNum (inject_Z vulnerabilityCount)) ;;;
     let hasSecurityAudit := (vulnerabilityCount =? 0)%Z in
     set_check "hasSecurityAudit" (VBool hasSecurityAudit) ;;;
     httpsEnforced <- await (checkHttpsEnforcement p) ;;
     set_check "httpsEnforced" (VBool httpsEnforced) ;;;
     hasAuth <- await (checkAuthImplementation p) ;;
     set_check "hasAuth" (VBool hasAuth) ;;;
     let baseScore :=
       count_true [hasSecurityPolicy; secureGitignore; hasEnvExample;
                   noHardcodedSecrets; hasSecurityAudit; httpsEnforced;
                   hasAuth] * (100 / 7) in
     let vulnPenalty := Math_min (inject_Z vulnerabilityCount * 5) 30 in
     set_score (Math_max 0 (baseScore - vulnPenalty)) ;;;
     decide_passed (criticalGateThreshold this) collectSecurityIssues).

Record StabilityProbes := {
  checkStableTag : Res bool;
  getLatestStableTag : Res string;
  checkTestExistence : Res bool;
  getTestCoverage : Res Q;
  checkBuildStability : Res bool;
  checkErrorHandling : Res bool;
  checkRollbackCapability : Res bool;
  checkHealthEndpoint : Res bool
}.

Definition evaluateStabilityGate (this : QualityGates) (p : StabilityProbes)
  : GateResult :=
  try_gate "Stability" (new_gate "Stability Gate" 0 false)
    (hasStableTag <- await (checkStableTag p) ;;
     set_check "hasStableTag" (VBool hasStableTag) ;;;
     tagVersion <- (if hasStableTag
                    then (t <- await (getLatestStableTag p) ;; ret (VStr t))
                    else ret VNull) ;;
     set_check "tagVersion" tagVersion ;;;
     hasTests <- await (checkTestExistence p) ;;
     set_check "hasTests" (VBool hasTests) ;;;
     testCoverage <- await (getTestCoverage p) ;;
     set_check "testCoverage" (VNum testCoverage) ;;;
     buildPasses <- await (checkBuildStability p) ;;
     set_check "buildPasses" (VBool buildPasses) ;;;
     hasErrorHandling <- await (checkErrorHandling p) ;;
     set_check "hasErrorHandling" (VBool hasErrorHandling) ;;;
     canRollback <- await (checkRollbackCapability p) ;;
     set_check "canRollback" (VBool canRollback) ;;;
     hasHealthEndpoint <- await (checkHealthEndpoint p) ;;
     set_check "hasHealthEndpoint" (VBool hasHealthEndpoint) ;;;
     let score0 := 0 in
     let score1 := score0 + (if hasStableTag then 20 else 0) in
     let score2 := score1 + (if hasTests then 15 else 0) in
     let score3 := score2 + Math_min testCoverage 20 in
     let score4 := score3 + (if buildPasses then 15 else 0) in
     let score5 := score4 + (if hasErrorHandling then 10 else 0) in
     let score6 := score5 + (if canRollback then 10 else 0) in
     let score7 := score6 + (if hasHealthEndpoint then 10 else 0) in
     set_score score7 ;;;
     decide_passed (criticalGateThreshold this) collectStabilityIssues).

Record PerformanceProbes := {
  checkBundleSize : Res Q;
  measureBuildTime : Res Q;
  countDependencies : Res Q;
  checkLazyLoading : Res bool
}.

Definition evaluatePerformanceGate (this : QualityGates) (p : PerformanceProbes)
  : GateResult :=
  try_gate "Performance" (new_gate "Performance Gate" 85 true)
    (bundleSize <- await (checkBundleSize p) ;;
     set_check "bundleSize" (VNum bundleSize) ;;;
     buildTime <- await (measureBuildTime p) ;;
     set_check "buildTime" (VNum buildTime) ;;;
     dependencyCount <- await (countDependencies p) ;;
     set_check "dependencyCount" (VNum dependencyCount) ;;;
     hasLazyLoading <- await (checkLazyLoading p) ;;
     set_check "hasLazyLoading" (VBool hasLazyLoading) ;;;
     let performanceScore0 := 85 in
     performanceScore1 <-
       (if gtq bundleSize 5000000
        then (push_issue "Large bundle size detected" ;;;
              ret (performanceScore0 - 15))
        else ret performanceScore0) ;;
     performanceScore2 <-
       (if gtq buildTime 300
        then (push_issue "Build time exceeds 5 minutes" ;;;
              ret (performanceScore1 - 10))
        else ret performanceScore1) ;;
     performanceScore3 <-
       (if gtq dependencyCount 50
        then (push_issue "High dependency count" ;;;
              ret (performanceScore2 - 5))
        else ret performanceScore2) ;;
     set_score (Math_max 0 performanceScore3) ;;;
     s <- gets score ;;
     set_passed (geq s 70)).

(** What [ContractValidator.validateServiceContract] returns, as far as the
    contract gate and the updater read it.  [version] is [null] when no
    contract file was found. *)
Record ContractResult := {
  hasContract : bool;
  isValid : bool;
  compatibilityScore : Q;
  breakingChanges : list string;
  version : option string
}.

Definition evaluateContractGate (this : QualityGates)
    (validateServiceContract : Res ContractResult) : GateResult :=
  try_gate "Contract" (new_gate "Contract Gate" 0 false)
    (contractResult <- await validateServiceContract ;;
     set_check "hasContract" (VBool (hasContract contractResult)) ;;;
     set_check "contractValid" (VBool (isValid contractResult)) ;;;
     set_check "compatibilityScore" (VNum (compatibilityScore contractResult)) ;;;
     let nbreaking := length (breakingChanges contractResult) in
     set_check "breakingChanges" (VNum (inject_Z (Z.of_nat nbreaking))) ;;;
     let hasVersion :=
       match version contractResult with
       | Some v => negb (String.eqb v "unknown")
       | None => true
       end in
     set_check "hasVersion" (VBool hasVersion) ;;;
     let score0 := 0 in
     let score1 := score0 + (if hasContract contractResult then 30 else 0) in
     let score2 := score1 + (if isValid contractResult then 25 else 0) in
     let score3 := score2 + Math_min (compatibilityScore contractResult) 25 in
     let score4 := score3 + (if hasVersion then 10 else 0) in
     let score5 := score4 + (if (nbreaking =? 0)%nat then 10 else 0) in
     set_score score5 ;;;
     decide_passed (criticalGateThreshold this)
       (fun c => collectContractIssues c contractResult)).

Record DeploymentProbes := {
  existsSync_package_json : bool;
  checkBuildScript : Res bool;
  checkStartScript : Res bool;
  checkDeploymentConfig : Res bool;
  existsSync_Dockerfile : bool;
  checkEnvironmentConfig : Res bool;
  checkHealthCheckScript : Res bool;
  checkProductionReadiness : Res bool
}.

Definition evaluateDeploymentGate (this : QualityGates) (p : DeploymentProbes)
  : GateResult :=
  try_gate "Deployment" (new_gate "Deployment Gate" 0 false)
    (let hasPackageJson := existsSync_package_json p in
     set_check "hasPackageJson" (VBool hasPackageJson) ;;;
     hasBuildScript <- await (checkBuildScript p) ;;
     set_check "hasBuildScript" (VBool hasBuildScript) ;;;
     hasStartScript <- await (checkStartScript p) ;;
     set_check "hasStartScript" (VBool hasStartScript) ;;;
     hasDeploymentConfig <- await (checkDeploymentConfig p) ;;
     set_check "hasDeploymentConfig" (VBool hasDeploymentConfig) ;;;
     let hasDockerfile := existsSync_Dockerfile p in
     set_check "hasDockerfile" (VBool hasDockerfile) ;;;
     hasEnvConfig <- await (checkEnvironmentConfig p) ;;
     set_check "hasEnvConfig" (VBool hasEnvConfig) ;;;
     hasHealthCheck <- await (checkHealthCheckScript p) ;;
     set_check "hasHealthCheck" (VBool hasHealthCheck) ;;;
     prodReady <- await (checkProductionReadiness p) ;;
     set_check "prodReady" (VBool prodReady) ;;;
     let checks' := [hasPackageJson; hasBuildScript; hasStartScript;
                     hasDeploymentConfig; hasEnvConfig; hasHealthCheck;
                     prodReady] in
     set_score (count_true checks' / inject_Z (Z.of_nat (length checks')) * 100) ;;;
     decide_passed (criticalGateThreshold this) collectDeploymentIssues).

(** *** Aggregation *)

Record Evaluation := {
  service : string;
  overallScore : Q;
  canDeploy : bool;
  gateResults : Obj GateResult;
  criticalFailures : list string;
  warnings : list string;
  timestamp : string
}.

(** The loop of [calculateOverallScore]: the pair is ([totalScore],
    [totalWeight]).  The arithmetic is exact here, which is what the
    evaluation of a service stores up to the rounding of its last digits;
    module [Doubles] below has the same loop on doubles. *)
Fixpoint score_loop (gs : list Gate) (results : Obj GateResult) (acc : Q * Q)
  : Q * Q :=
  match gs with
  | [] => acc
  | gate :: gs' =>
      let '(totalScore, totalWeight) := acc in
      match obj_get (gateKey gate) results with
      | Some result =>
          score_loop gs' results
            (totalScore + (score result * weight gate) / 100,
             totalWeight + weight gate)
      | None => score_loop gs' results acc
      end
  end.

Definition calculateOverallScore (this : QualityGates) (results : Obj GateResult)
  : Q :=
  let '(totalScore, totalWeight) := score_loop (gates this) results (0, 0) in
  if gtq totalWeight 0 then (totalScore / totalWeight) * 100 else 0.

(** The loop of [canServiceDeploy]: [false] at the first critical gate
    without a result or with a result that did not pass. *)
Fixpoint critical_loop (gs : list Gate) (results : Obj GateResult) : bool :=
  match gs with
  | [] => true
  | gate :: gs' =>
      if critical gate
      then match obj_get (gateKey gate) results with
           | None => false
           | Some result =>
               if negb (passed result) then false else critical_loop gs' results
           end
      else critical_loop gs' results
  end.

Definition canServiceDeploy (this : QualityGates) (evaluation : Evaluation)
  : bool :=
  if ltq (overallScore evaluation) (minimumScore this) then false
  else critical_loop (gates this) (gateResults evaluation).

Definition set_gateResult (k : string) (r : GateResult) : M Evaluation unit :=
  modify (fun e => {| service := service e; overallScore := overallScore e;
                      canDeploy := canDeploy e;
                      gateResults := obj_set k r (gateResults e);
                      criticalFailures := criticalFailures e;
                      warnings := warnings e; timestamp := timestamp e |}).

Definition set_overallScore (q : Q) : M Evaluation unit :=
  modify (fun e => {| service := service e; overallScore := q;
                      canDeploy := canDeploy e; gateResults := gateResults e;
                      criticalFailures := criticalFailures e;
                      warnings := warnings e; timestamp := timestamp e |}).

Definition set_canDeploy (b : bool) : M Evaluation unit :=
  modify (fun e => {| service := service e; overallScore := overallScore e;
                      canDeploy := b; gateResults := gateResults e;
                      criticalFailures := criticalFailures e;
                      warnings := warnings e; timestamp := timestamp e |}).

Definition push_criticalFailures (l : list string) : M Evaluation unit :=
  modify (fun e => {| service := service e; overallScore := overallScore e;
                      canDeploy := canDeploy e; gateResults := gateResults e;
                      criticalFailures := criticalFailures e ++ l;
                      warnings := warnings e; timestamp := timestamp e |}).

Definition push_warnings (l : list string) : M Evaluation unit :=
  modify (fun e => {| service := service e; overallScore := overallScore e;
                      canDeploy := canDeploy e; gateResults := gateResults e;
                      criticalFailures := criticalFailures e;
                      warnings := warnings e ++ l; timestamp := timestamp e |}).

(** The loop of [collectIssues] over [Object.entries(evaluation.gateResults)]. *)
Fixpoint issues_loop (this : QualityGates) (entries : Obj GateResult)
  : M Evaluation unit :=
  match entries with
  | [] => ret tt
  | (key, gateResult) :: rest =>
      (match issues gateResult with
       | [] => ret tt
       | _ :: _ =>
           match List.find (fun g => String.eqb (gateKey g) key) (gates this) with
           | Some gate =>
               if critical gate && negb (passed gateResult)
               then push_criticalFailures (issues gateResult)
               else push_warnings (issues gateResult)
           | None => push_warnings (issues gateResult)
           end
       end) ;;;
      issues_loop this rest
  end.

Definition collectIssues (this : QualityGates) : M Evaluation unit :=
  entries <- gets gateResults ;;
  issues_loop this entries.

(** The outcomes of the five awaited [this.evaluate...Gate(servicePath)]
    calls of [evaluateServiceGates]. *)
Record GateOutcomes := {
  security_outcome : Res GateResult;
  stability_outcome : Res GateResult;
  performance_outcome : Res GateResult;
  contract_outcome : Res GateResult;
  deployment_outcome : Res GateResult
}.

Definition new_evaluation (servicePath now : string) : Evaluation :=
  {| service := servicePath; overallScore := 0; canDeploy := false;
     gateResults := []; criticalFailures := []; warnings := [];
     timestamp := now |}.

(** The [try] block of [evaluateServiceGates]. *)
Definition evaluateServiceGates_try (this : QualityGates) (o : GateOutcomes)
  : M Evaluation unit :=
  r1 <- await (security_outcome o) ;;
  set_gateResult "security" r1 ;;;
  r2 <- await (stability_outcome o) ;;
  set_gateResult "stability" r2 ;;;
  r3 <- await (performance_outcome o) ;;
  set_gateResult "performance" r3 ;;;
  r4 <- await (contract_outcome o) ;;
  set_gateResult "contract" r4 ;;;
  r5 <- await (deployment_outcome o) ;;
  set_gateResult "deployment" r5 ;;;
  results <- gets gateResults ;;
  set_overallScore (calculateOverallScore this results) ;;;
  evaluation <- get ;;
  set_canDeploy (canServiceDeploy this evaluation) ;;;
  collectIssues this.

(** [evaluateServiceGates] with the five gate evaluations given by their
    outcomes.  The result is the outcome of the [async] method itself. *)
Definition evaluateServiceGates_on (this : QualityGates)
    (servicePath now : string) (o : GateOutcomes) : Res Evaluation :=
  let '(_, evaluation) :=
    try_catch (evaluateServiceGates_try this o)
      (fun e => push_criticalFailures ["Quality gate evaluation failed: " +:+ e])
      (new_evaluation servicePath now) in
  Ok evaluation.

(** What the probes of one service observe, for the probes that are not
    stubs in the source. *)
Record ServiceFacts := {
  fact_SECURITY_md : bool;
  fact_secureGitignore : Res bool;
  fact_env_example : bool;
  fact_noHardcodedSecrets : bool;
  fact_vulnerabilities : Z;
  fact_stableTag : bool;
  fact_tests : bool;
  fact_contract : Res ContractResult;
  fact_package_json : bool;
  fact_Dockerfile : bool
}.

(** The probes as the source has them: the stubs return their constants. *)
Definition security_probes (f : ServiceFacts) : SecurityProbes :=
  {| existsSync_SECURITY_md := fact_SECURITY_md f;
     checkSecureGitignore := fact_secureGitignore f;
     existsSync_env_example := fact_env_example f;
     checkForHardcodedSecrets := Ok (fact_noHardcodedSecrets f);
     checkVulnerabilities := Ok (fact_vulnerabilities f);
     checkHttpsEnforcement := Ok true;
     checkAuthImplementation := Ok true |}.

Definition stability_probes (f : ServiceFacts) : StabilityProbes :=
  {| checkStableTag := Ok (fact_stableTag f);
     getLatestStableTag := Ok "v1.0.0";
     checkTestExistence := Ok (fact_tests f);
     getTestCoverage := Ok 80;
     checkBuildStability := Ok true;
     checkErrorHandling := Ok true;
     checkRollbackCapability := Ok true;
     checkHealthEndpoint := Ok true |}.

Definition performance_probes : PerformanceProbes :=
  {| checkBundleSize := Ok 1000000;
     measureBuildTime := Ok 120;
     countDependencies := Ok 25;
     checkLazyLoading := Ok true |}.

Definition deployment_probes (f : ServiceFacts) : DeploymentProbes :=
  {| existsSync_package_json := fact_package_json f;
     checkBuildScript := Ok true;
     checkStartScript := Ok true;
     checkDeploymentConfig := Ok true;
     existsSync_Dockerfile := fact_Dockerfile f;
     checkEnvironmentConfig := Ok true;
     checkHealthCheckScript := Ok true;
     checkProductionReadiness := Ok true |}.

Definition gate_outcomes (this : QualityGates) (f : ServiceFacts) : GateOutcomes :=
  {| security_outcome := Ok (evaluateSecurityGate this (security_probes f));
     stability_outcome := Ok (evaluateStabilityGate this (stability_probes f));
     performance_outcome := Ok (evaluatePerformanceGate this performance_probes);
     contract_outcome := Ok (evaluateContractGate this (fact_contract f));
     deployment_outcome := Ok (evaluateDeploymentGate this (deployment_probes f)) |}.

Definition evaluateServiceGates (this : QualityGates) (servicePath now : string)
    (f : ServiceFacts) : Res Evaluation :=
  evaluateServiceGates_on this servicePath now (gate_outcomes this f).

Record QualityReport := {
  totalServices : nat;
  deployableServices : nat;
  averageScore : Q;
  reportResults : list Evaluation;
  criticalIssues : list string
}.

Definition generateQualityReport (results : list Evaluation) : QualityReport :=
  let total := length results in
  {| totalServices := total;
     deployableServices := length (filter (fun r => canDeploy r = true) results);
     averageScore :=
       fold_left (fun sum r => sum + overallScore r) results 0
       / inject_Z (Z.of_nat total);
     reportResults := results;
     criticalIssues :=
       flat_map (fun r => map (fun issue => service r +:+ ": " +:+ issue)
                              (criticalFailures r)) results |}.

(** The loop of [validateDeploymentReadiness] over the services. *)
Fixpoint evaluate_all (this : QualityGates) (now : string)
    (facts : string -> ServiceFacts) (services : list string)
  : Res (list Evaluation) :=
  match services with
  | [] => Ok []
  | svc :: rest =>
      match evaluateServiceGates this svc now (facts svc) with
      | Throw e => Throw e
      | Ok result =>
          match evaluate_all this now facts rest with
          | Throw e => Throw e
          | Ok results => Ok (result :: results)
          end
      end
  end.

(** [validateDeploymentReadiness(servicePath)]; [allServices] is what
    [getAllServices()] answers. *)
Definition validateDeploymentReadiness (this : QualityGates) (now : string)
    (facts : string -> ServiceFacts) (allServices : list string)
    (servicePath : string) : Res QualityReport :=
  let services := if truthy_str servicePath then [servicePath] else allServices in
  match evaluate_all this now facts services with
  | Throw e => Throw e
  | Ok results => Ok (generateQualityReport results)
  end.

(** The weighted mean as the design document words it: the sum of
    [score * weight] over the gates that have a result, divided by the sum
    of the weights of those gates. *)
Definition present (results : Obj GateResult) (gs : list Gate)
  : list (Gate * GateResult) :=
  flat_map (fun g => match obj_get (gateKey g) results with
                     | Some r => [(g, r)]
                     | None => []
                     end) gs.

Definition Qsum (l : list Q) : Q := fold_right Qplus 0 l.

Definition scored (gr : Gate * GateResult) : Q := score (snd gr) * weight (fst gr).
Definition weighed (gr : Gate * GateResult) : Q := weight (fst gr).

Definition weighted_mean (gs : list Gate) (results : Obj GateResult) : Q :=
  Qsum (map scored (present results gs)) / Qsum (map weighed (present results gs)).

(** The summand of the loop of [calculateOverallScore]. *)
Definition scaled (gr : Gate * GateResult) : Q := score (snd gr) * weight (fst gr) / 100.

(** Every critical gate of the table has a result and the result has
    passed. *)
Definition critical_gates_passed (this : QualityGates) (results : Obj GateResult)
  : Prop :=
  forall g, In g (gates this) -> critical g = true ->
    exists r, obj_get (gateKey g) results = Some r /\ passed r = true.

(** One of the five gate evaluations threw [m]. *)
Definition raises (o : GateOutcomes) (m : string) : Prop :=
  security_outcome o = Throw m \/ stability_outcome o = Throw m \/
  performance_outcome o = Throw m \/ contract_outcome o = Throw m \/
  deployment_outcome o = Throw m.

(** A gate result with a given score and nothing else of note. *)
Definition new_gate_scored (n : string) (s : Q) : GateResult :=
  {| gname := n; score := s; maxScore := 100; passed := geq s 90;
     checks := []; issues := [] |}.

(** The table of two gates of the worked example of the design document,
    and results scoring 100 and 50. *)
Definition two_gates : QualityGates :=
  {| gates := [ {| name := "First Gate"; weight := 25; critical := true |};
                {| name := "Second Gate"; weight := 75; critical := true |} ];
     minimumScore := 80;
     criticalGateThreshold := 90 |}.

Definition two_results : Obj GateResult :=
  [ ("first", new_gate_scored "First Gate" 100);
    ("second", new_gate_scored "Second Gate" 50) ].

(** Results of the five gates of the constructor's table, under the keys
    [evaluateServiceGates] stores them at. *)
Definition mixed_results : Obj GateResult :=
  [ ("security", new_gate_scored "Security Gate" 100);
    ("stability", new_gate_scored "Stability Gate" 95);
    ("performance", new_gate_scored "Performance Gate" 70);
    ("contract", new_gate_scored "Contract Gate" 90);
    ("deployment", new_gate_scored "Deployment Gate" 100) ].

(** Four gates at 100 and the critical stability gate at 0. *)
Definition stability_failed : GateOutcomes :=
  {| security_outcome := Ok (new_gate_scored "Security Gate" 100);
     stability_outcome := Ok (new_gate_scored "Stability Gate" 0);
     performance_outcome := Ok (new_gate_scored "Performance Gate" 100);
     contract_outcome := Ok (new_gate_scored "Contract Gate" 100);
     deployment_outcome := Ok (new_gate_scored "Deployment Gate" 100) |}.

(** The stability gate throws; the contract gate would, but is not reached. *)
Definition stability_throws : GateOutcomes :=
  {| security_outcome := Ok (new_gate_scored "Security Gate" 100);
     stability_outcome := Throw "disk full";
     performance_outcome := Ok (new_gate_scored "Performance Gate" 100);
     contract_outcome := Throw "never reached";
     deployment_outcome := Ok (new_gate_scored "Deployment Gate" 100) |}.

(** A checkout without [SECURITY.md] whose other security checks hold. *)
Definition no_security_policy : SecurityProbes :=
  {| existsSync_SECURITY_md := false;
     checkSecureGitignore := Ok true;
     existsSync_env_example := true;
     checkForHardcodedSecrets := Ok true;
     checkVulnerabilities := Ok 0%Z;
     checkHttpsEnforcement := Ok true;
     checkAuthImplementation := Ok true |}.

(** A checkout on which every check holds but [npm audit] reports two
    vulnerabilities. *)
Definition two_vulnerabilities : SecurityProbes :=
  {| existsSync_SECURITY_md := true;
     checkSecureGitignore := Ok true;
     existsSync_env_example := true;
     checkForHardcodedSecrets := Ok true;
     checkVulnerabilities := Ok 2%Z;
     checkHttpsEnforcement := Ok true;
     checkAuthImplementation := Ok true |}.

End Gates.


(** ** The overall score in double arithmetic ([quality-gates.js])

    The scores above are exact rationals.  For [calculateOverallScore] the
    difference matters: the function divides every term by 100 and
    multiplies the quotient of the sums by 100 again, and each of these
    operations rounds.  Here the same function is embedded on IEEE 754
    doubles, as the Standard Library models them: every operation answers
    the double nearest to the exact result, ties to the even mantissa. *)

Module Doubles.

Import Gates.
Local Open Scope Q_scope.

Definition double : Type := spec_float.

Definition prec : Z := 53.
Definition emax : Z := 1024.

(** The double of an integer literal. *)
Definition of_Z (z : Z) : double := binary_normalize prec emax z 0 false.

Definition add (x y : double) : double := SFadd prec emax x y.
Definition mul (x y : double) : double := SFmul prec emax x y.
Definition div (x y : double) : double := SFdiv prec emax x y.

(** [x > y] *)
Definition gt (x y : double) : bool := SFltb y x.

(** The rational that a double holds; [NaN] and the infinities hold none. *)
Definition value (x : double) : option Q :=
  match x with
  | S754_zero _ => Some 0
  | S754_finite s m e =>
      Some ((if s then - inject_Z (Z.pos m) else inject_Z (Z.pos m)) * 2 ^ e)
  | S754_infinity _ => None
  | S754_nan => None
  end.

Definition val (x : double) : Q :=
  match value x with Some q => q | None => 0 end.

(** [gate.weight]: the weights of the table are written as rationals; the
    double is their quotient. *)
Definition weight_of (gate : Gate) : double :=
  div (of_Z (Qnum (weight gate))) (of_Z (Z.pos (Qden (weight gate)))).

(** The loop of [calculateOverallScore].  [gateResults] gives, for the key
    of a gate, the [score] of its result; the function reads nothing else
    of a result, and a result, being an object, is truthy. *)
Fixpoint score_loop (gs : list Gate) (gateResults : Obj double)
    (acc : double * double) : double * double :=
  match gs with
  | [] => acc
  | gate :: gs' =>
      let '(totalScore, totalWeight) := acc in
      match obj_get (gateKey gate) gateResults with
      | Some score =>
          score_loop gs' gateResults
            (add totalScore (div (mul score (weight_of gate)) (of_Z 100)),
             add totalWeight (weight_of gate))
      | None => score_loop gs' gateResults acc
      end
  end.

Definition calculateOverallScore (this : QualityGates) (gateResults : Obj double)
  : double :=
  let '(totalScore, totalWeight) :=
    score_loop (gates this) gateResults (of_Z 0, of_Z 0) in
  if gt totalWeight (of_Z 0)
  then mul (div totalScore totalWeight) (of_Z 100)
  else of_Z 0.

(** *** The weighted mean, as the design document words it *)

(** The gates that have a result, each with the score of its result. *)
Definition present (gateResults : Obj double) (gs : list Gate)
  : list (Gate * double) :=
  flat_map (fun g => match obj_get (gateKey g) gateResults with
                     | Some score => [(g, score)]
                     | None => []
                     end) gs.

Definition weighted_mean (gs : list Gate) (gateResults : Obj double) : Q :=
  Qsum (map (fun gr => val (snd gr) * weight (fst gr)) (present gateResults gs))
  / Qsum (map (fun gr => weight (fst gr)) (present gateResults gs)).

(** *** Operations that do not round *)


(** The operation gave the exact result of the rational operation on what
    its arguments hold. *)
Definition exact (op : double -> double -> double) (qop : Q -> Q -> Q)
    (x y : double) : Prop :=
  match value x, value y, value (op x y) with
  | Some a, Some b, Some c => c == qop a b
  | _, _, _ => False
  end.





End Doubles.


(** ** The repository and the shell, as the updater sees them

    [safe-update.js] reaches git, npm and the file system through
    [fs.existsSync], [execQuiet] and [execCommand] only.  The commands it
    runs are the constructors of [Cmd]; [run] says what each one prints and
    does.  What a probe prints is part of the world: the updater tests it
    for truthiness, and an empty output is falsy. *)

Module Shell.

Record ModuleState := {
  mod_head : string;                       (* the commit checked out *)
  mod_diff_quiet : option string;          (* stdout of the cleanliness probe *)
  mod_tag_listed : string -> option string; (* stdout of the tag probe *)
  mod_resolve : gmap string string;        (* the commit that a checkout of a
                                              tag or commit name lands on *)
  mod_rev_parse : gmap string string;      (* what [git rev-parse] prints for a
                                              name: for an annotated tag the
                                              tag object, not the commit *)
  mod_describe : option string;            (* stdout of [git describe] *)
  mod_fetch_ok : bool;
  mod_npm_ci_ok : bool;
  mod_facts : Gates.ServiceFacts
}.

Record World := {
  modules : gmap string ModuleState;  (* the directories that exist *)
  parent_log : list string;           (* commits of the parent, HEAD first *)
  parent_branch : string;
  next_commits : list string;         (* the ids the next commits will get;
                                         with none left a commit fails *)
  submodule_list : list string;       (* [git submodule status] *)
  clock : string                      (* [new Date()] *)
}.

Inductive Cmd : Type :=
| DiffQuiet (submodule : string)
| RevParseHead (submodule : string)
| TagListed (submodule tag : string)
| RevParse (submodule ref : string)
| DescribeTags (submodule : string)
| ParentRevParseHead
| ParentBranch
| FetchTags (submodule : string)
| Checkout (submodule ref : string)
| Add (submodule : string)
| Commit (message : string)
| ResetHard1
| NpmCi (submodule : string)
| NpmBuild (submodule : string).

Definition dq : string := String (Ascii.ascii_of_nat 34) EmptyString.

(** The command line of each command, as the source writes it. *)
Definition render (c : Cmd) : string :=
  match c with
  | DiffQuiet m => "cd " +:+ m +:+ " && git diff --quiet && git diff --cached --quiet"
  | RevParseHead m => "cd " +:+ m +:+ " && git rev-parse HEAD"
  | TagListed m t =>
      "cd " +:+ m +:+ " && git tag -l " +:+ dq +:+ t +:+ dq
        +:+ " | grep -q " +:+ dq +:+ "^" +:+ t +:+ "$" +:+ dq
  | RevParse m r => "cd " +:+ m +:+ " && git rev-parse " +:+ r
  | DescribeTags m => "cd " +:+ m +:+ " && git describe --tags --abbrev=0 2>/dev/null"
  | ParentRevParseHead => "git rev-parse HEAD"
  | ParentBranch => "git branch --show-current"
  | FetchTags m => "cd " +:+ m +:+ " && git fetch --tags"
  | Checkout m r => "cd " +:+ m +:+ " && git checkout " +:+ r
  | Add m => "git add " +:+ m
  | Commit msg => "git commit -m " +:+ dq +:+ msg +:+ dq
  | ResetHard1 => "git reset --hard HEAD~1"
  | NpmCi m => "cd " +:+ m +:+ " && npm ci --silent"
  | NpmBuild m =>
      "cd " +:+ m +:+ " && npm run build 2>/dev/null || echo " +:+ dq
        +:+ "No build script" +:+ dq
  end.

Definition nl : string := String (Ascii.ascii_of_nat 10) EmptyString.

(** A line of output. *)
Definition line (s : string) : string := s +:+ nl.

Definition set_head (h : string) (m : ModuleState) : ModuleState :=
  {| mod_head := h; mod_diff_quiet := mod_diff_quiet m;
     mod_tag_listed := mod_tag_listed m; mod_resolve := mod_resolve m;
     mod_rev_parse := mod_rev_parse m;
     mod_describe := mod_describe m; mod_fetch_ok := mod_fetch_ok m;
     mod_npm_ci_ok := mod_npm_ci_ok m; mod_facts := mod_facts m |}.

Definition set_modules (ms : gmap string ModuleState) (w : World) : World :=
  {| modules := ms; parent_log := parent_log w; parent_branch := parent_branch w;
     next_commits := next_commits w; submodule_list := submodule_list w;
     clock := clock w |}.

Definition set_parent (l next : list string) (w : World) : World :=
  {| modules := modules w; parent_log := l; parent_branch := parent_branch w;
     next_commits := next; submodule_list := submodule_list w;
     clock := clock w |}.

(** In a module directory: [None] when [cd] fails. *)
Definition in_module {A} (w : World) (m : string) (f : ModuleState -> option A)
  : option A :=
  match modules w !! m with
  | Some ms => f ms
  | None => None
  end.

(** What a command prints and the world it leaves; [None] when it exits
    with a status other than zero. *)
Definition run (c : Cmd) (w : World) : option (string * World) :=
  match c with
  | DiffQuiet m =>
      in_module w m (fun ms =>
        match mod_diff_quiet ms with
        | Some out => Some (out, w)
        | None => None
        end)
  | RevParseHead m =>
      in_module w m (fun ms => Some (line (mod_head ms), w))
  | TagListed m t =>
      in_module w m (fun ms =>
        match mod_tag_listed ms t with
        | Some out => Some (out, w)
        | None => None
        end)
  | RevParse m r =>
      in_module w m (fun ms =>
        match mod_rev_parse ms !! r with
        | Some c => Some (line c, w)
        | None => None
        end)
  | DescribeTags m =>
      in_module w m (fun ms =>
        match mod_describe ms with
        | Some out => Some (line out, w)
        | None => None
        end)
  | ParentRevParseHead =>
      match parent_log w with
      | h :: _ => Some (line h, w)
      | [] => None
      end
  | ParentBranch => Some (line (parent_branch w), w)
  | FetchTags m =>
      in_module w m (fun ms => if mod_fetch_ok ms then Some (EmptyString, w) else None)
  | Checkout m r =>
      in_module w m (fun ms =>
        match mod_resolve ms !! r with
        | Some c =>
            Some (EmptyString, set_modules (<[m := set_head c ms]> (modules w)) w)
        | None => None
        end)
  | Add m =>
      in_module w m (fun _ => Some (EmptyString, w))
  | Commit _ =>
      match next_commits w with
      | c :: next => Some (EmptyString, set_parent (c :: parent_log w) next w)
      | [] => None
      end
  | ResetHard1 =>
      match parent_log w with
      | _ :: (_ :: _) as l => Some (EmptyString, set_parent l (next_commits w) w)
      | _ => None
      end
  | NpmCi m =>
      in_module w m (fun ms => if mod_npm_ci_ok ms then Some (EmptyString, w) else None)
  | NpmBuild m =>
      in_module w m (fun _ => Some (EmptyString, w))
  end.

(** The facts the probes of the quality gates find at a path; at a path
    that does not exist every probe answers no. *)
Definition absent_facts : Gates.ServiceFacts :=
  {| Gates.fact_SECURITY_md := false;
     Gates.fact_secureGitignore := Ok false;
     Gates.fact_env_example := false;
     Gates.fact_noHardcodedSecrets := true;
     Gates.fact_vulnerabilities := 0;
     Gates.fact_stableTag := false;
     Gates.fact_tests := false;
     Gates.fact_contract :=
       Ok {| Gates.hasContract := false; Gates.isValid := false;
             Gates.compatibilityScore := 0; Gates.breakingChanges := [];
             Gates.version := None |};
     Gates.fact_package_json := false;
     Gates.fact_Dockerfile := false |}.

Definition facts_at (w : World) (path : string) : Gates.ServiceFacts :=
  match modules w !! path with
  | Some ms => mod_facts ms
  | None => absent_facts
  end.

End Shell.

(** ** The updater ([safe-update.js]) *)

Module Updater.

Import Shell.

Record Strategy := {
  riskLevel : string;
  requiresApproval : bool;
  requiresCompatibilityTest : bool   (* absent on patch and minor: falsy *)
}.

Record RollbackPoint := {
  submoduleCommit : option string;   (* [updateContext.currentCommit], [null] before validation *)
  parentCommit : string;
  rp_timestamp : string;
  branch : string
}.

Record ValidationResults := {
  qualityGates : option Gates.QualityReport;
  contracts : option Gates.ContractResult
}.

Record UpdateContext := {
  submodule : string;
  targetVersion : string;
  startTime : string;
  currentCommit : option string;
  targetCommit : option string;
  updateType : option string;
  validationResults : ValidationResults;
  rollbackPoint : option RollbackPoint;
  approved : bool     (* never written by the updater: [undefined] is [false] *)
}.

(** The updater object ([this.rollbackStack]), the world it acts on and the
    [updateContext] object of the call in progress. *)
Record State := {
  world : World;
  rollbackStack : list RollbackPoint;
  context : UpdateContext
}.

(** [this.updateStrategies] *)
Definition updateStrategies : Gates.Obj Strategy :=
  [ ("patch", {| riskLevel := "low"; requiresApproval := false;
                 requiresCompatibilityTest := false |});
    ("minor", {| riskLevel := "medium"; requiresApproval := true;
                 requiresCompatibilityTest := false |});
    ("major", {| riskLevel := "high"; requiresApproval := true;
                 requiresCompatibilityTest := true |}) ].

Record Options := {
  stopOnError : bool;
  batchMode : bool
}.

(** [`${v}`] of a string or [null] *)
Definition js_str (v : option string) : string :=
  match v with Some s => s | None => "null" end.

Definition TypeError_null (prop : string) : string :=
  "Cannot read properties of null (reading '" +:+ prop +:+ "')".

Definition TypeError_undefined (prop : string) : string :=
  "Cannot read properties of undefined (reading '" +:+ prop +:+ "')".

Definition set_world (w : World) (s : State) : State :=
  {| world := w; rollbackStack := rollbackStack s; context := context s |}.

Definition set_stack (l : list RollbackPoint) (s : State) : State :=
  {| world := world s; rollbackStack := l; context := context s |}.

Definition set_context (c : UpdateContext) (s : State) : State :=
  {| world := world s; rollbackStack := rollbackStack s; context := c |}.

Definition with_currentCommit (v : option string) (c : UpdateContext) :=
  {| submodule := submodule c; targetVersion := targetVersion c;
     startTime := startTime c; currentCommit := v;
     targetCommit := targetCommit c; updateType := updateType c;
     validationResults := validationResults c;
     rollbackPoint := rollbackPoint c; approved := approved c |}.

Definition with_targetCommit (v : option string) (c : UpdateContext) :=
  {| submodule := submodule c; targetVersion := targetVersion c;
     startTime := startTime c; currentCommit := currentCommit c;
     targetCommit := v; updateType := updateType c;
     validationResults := validationResults c;
     rollbackPoint := rollbackPoint c; approved := approved c |}.

Definition with_updateType (v : option string) (c : UpdateContext) :=
  {| submodule := submodule c; targetVersion := targetVersion c;
     startTime := startTime c; currentCommit := currentCommit c;
     targetCommit := targetCommit c; updateType := v;
     validationResults := validationResults c;
     rollbackPoint := rollbackPoint c; approved := approved c |}.

Definition with_validationResults (v : ValidationResults) (c : UpdateContext) :=
  {| submodule := submodule c; targetVersion := targetVersion c;
     startTime := startTime c; currentCommit := currentCommit c;
     targetCommit := targetCommit c; updateType := updateType c;
     validationResults := v;
     rollbackPoint := rollbackPoint c; approved := approved c |}.

Definition with_rollbackPoint (v : option RollbackPoint) (c : UpdateContext) :=
  {| submodule := submodule c; targetVersion := targetVersion c;
     startTime := startTime c; currentCommit := currentCommit c;
     targetCommit := targetCommit c; updateType := updateType c;
     validationResults := validationResults c;
     rollbackPoint := v; approved := approved c |}.

Definition update_context (f : UpdateContext -> UpdateContext) : M State unit :=
  modify (fun s => set_context (f (context s)) s).

(** [fs.existsSync(path)] for a module directory *)
Definition existsSync (path : string) : M State bool :=
  gets (fun s => match modules (world s) !! path with
                 | Some _ => true
                 | None => false
                 end).

(** [execQuiet(command)]: the output, or [null] when the command fails. *)
Definition execQuiet (c : Cmd) : M State (option string) :=
  fun s => match run c (world s) with
           | Some (out, w) => (Ok (Some out), set_world w s)
           | None => (Ok None, s)
           end.

(** [execCommand(command)]: throws when the command fails. *)
Definition execCommand (c : Cmd) : M State unit :=
  fun s => match run c (world s) with
           | Some (_, w) => (Ok tt, set_world w s)
           | None =>
               (Throw ("Command failed: " +:+ render c +:+ nl
                         +:+ "Command failed: " +:+ render c), s)
           end.

(** [execQuiet(command).trim()] *)
Definition execQuiet_trim (c : Cmd) : M State string :=
  out <- execQuiet c ;;
  match out with
  | Some o => ret (trim o)
  | None => throw (TypeError_null "trim")
  end.

Definition getCurrentVersion (submodulePath : string) : M State (option string) :=
  try_catch (v <- execQuiet_trim (DescribeTags submodulePath) ;; ret (Some v))
            (fun _ => ret None).

Definition determineUpdateType : M State string :=
  try_catch
    (sub <- gets (fun s => submodule (context s)) ;;
     currentVersion <- getCurrentVersion sub ;;
     tv <- gets (fun s => targetVersion (context s)) ;;
     ret (Version.classify currentVersion tv))
    (fun _ => ret "major").

Definition preUpdateValidation : M State unit :=
  sub <- gets (fun s => submodule (context s)) ;;
  ex <- existsSync sub ;;
  (if negb ex then throw ("Submodule " +:+ sub +:+ " does not exist") else ret tt) ;;;
  clean <- execQuiet (DiffQuiet sub) ;;
  let hasUncommitted := negb (truthy clean) in
  (if hasUncommitted
   then throw ("Submodule " +:+ sub +:+ " has uncommitted changes")
   else ret tt) ;;;
  cur <- execQuiet_trim (RevParseHead sub) ;;
  update_context (with_currentCommit (Some cur)) ;;;
  tv <- gets (fun s => targetVersion (context s)) ;;
  targetExists <- execQuiet (TagListed sub tv) ;;
  (if negb (truthy targetExists)
   then throw ("Target version " +:+ tv +:+ " does not exist in " +:+ sub)
   else ret tt) ;;;
  tgt <- execQuiet_trim (RevParse sub tv) ;;
  update_context (with_targetCommit (Some tgt)) ;;;
  ty <- determineUpdateType ;;
  update_context (with_updateType (Some ty)) ;;;
  match Gates.obj_get ty updateStrategies with
  | None => throw (TypeError_undefined "requiresApproval")
  | Some strategy =>
      ok <- gets (fun s => approved (context s)) ;;
      if requiresApproval strategy && negb ok
      then throw (ty +:+ " update requires approval")
      else ret tt
  end.

Definition createRollbackPoint : M State unit :=
  cur <- gets (fun s => currentCommit (context s)) ;;
  parent <- execQuiet_trim ParentRevParseHead ;;
  now <- gets (fun s => clock (world s)) ;;
  br <- execQuiet_trim ParentBranch ;;
  let rp := {| submoduleCommit := cur; parentCommit := parent;
               rp_timestamp := now; branch := br |} in
  update_context (with_rollbackPoint (Some rp)) ;;;
  modify (fun s => set_stack (rollbackStack s ++ [rp]) s) ;;;
  (* the log line reads [submoduleCommit.substring(0, 8)] *)
  match cur with
  | Some _ => ret tt
  | None => throw (TypeError_null "substring")
  end.

Definition performUpdate (options : Options) : M State unit :=
  sub <- gets (fun s => submodule (context s)) ;;
  tv <- gets (fun s => targetVersion (context s)) ;;
  execCommand (FetchTags sub) ;;;
  execCommand (Checkout sub tv) ;;;
  newCommit <- execQuiet_trim (RevParseHead sub) ;;
  expected <- gets (fun s => targetCommit (context s)) ;;
  if bool_decide (Some newCommit = expected) then ret tt
  else throw ("Checkout verification failed: expected " +:+ js_str expected
                +:+ ", got " +:+ newCommit).

(** [xs.join(', ')] *)
Definition join (xs : list string) : string := String.concat ", " xs.

Definition postUpdateValidation : M State unit :=
  sub <- gets (fun s => submodule (context s)) ;;
  w <- gets world ;;
  gateResults <- await (Gates.validateDeploymentReadiness
                          Gates.new_ProductionQualityGates (clock w)
                          (facts_at w) (submodule_list w) sub) ;;
  update_context (fun c => with_validationResults
                    {| qualityGates := Some gateResults;
                       contracts := contracts (validationResults c) |} c) ;;;
  (match Gates.criticalIssues gateResults with
   | [] => ret tt
   | issues => throw ("Quality gate failures: " +:+ join issues)
   end) ;;;
  ty <- gets (fun s => updateType (context s)) ;;
  (match Gates.obj_get (js_str ty) updateStrategies with
   | None => throw (TypeError_undefined "requiresCompatibilityTest")
   | Some strategy =>
       if requiresCompatibilityTest strategy
       then
         contractResults <- await (Gates.fact_contract (facts_at w sub)) ;;
         update_context (fun c => with_validationResults
                           {| qualityGates := qualityGates (validationResults c);
                              contracts := Some contractResults |} c) ;;;
         match Gates.breakingChanges contractResults with
         | [] => ret tt
         | changes => throw ("Breaking changes detected: " +:+ join changes)
         end
       else ret tt
   end) ;;;
  if Gates.fact_package_json (facts_at w sub)
  then try_catch (execCommand (NpmCi sub) ;;; execCommand (NpmBuild sub))
                 (fun e => throw ("Build verification failed: " +:+ e))
  else ret tt.

(** The commit message.  [getCurrentVersion] is called without [await]: the
    template prints the promise it returns. *)
Definition generateCommitMessage : M State string :=
  c <- gets context ;;
  _ <- getCurrentVersion (submodule c) ;;
  let currentVersion := "[object Promise]" in
  match currentCommit c, targetCommit c with
  | Some cur, Some tgt =>
      ret ("update(" +:+ submodule c +:+ "): " +:+ currentVersion +:+ " → "
              +:+ targetVersion c +:+ nl +:+ nl
              +:+ "Update type: " +:+ js_str (updateType c) +:+ nl
              +:+ "Previous commit: " +:+ substring0 8 cur +:+ nl
              +:+ "New commit: " +:+ substring0 8 tgt +:+ nl +:+ nl
              +:+ "Quality gates: ✅ PASSED" +:+ nl
              +:+ "Contract validation: ✅ PASSED" +:+ nl
              +:+ "Build verification: ✅ PASSED" +:+ nl +:+ nl
              +:+ "🤖 Safe submodule update via automation" +:+ nl +:+ nl
              +:+ "Co-Authored-By: Safe Update Bot <automation@burnt.com>")
  | _, _ => throw (TypeError_null "substring")
  end.

Definition updateParentRepository : M State unit :=
  sub <- gets (fun s => submodule (context s)) ;;
  execCommand (Add sub) ;;;
  commitMessage <- generateCommitMessage ;;
  execCommand (Commit commitMessage).

Definition rollbackUpdate : M State unit :=
  rp <- gets (fun s => rollbackPoint (context s)) ;;
  match rp with
  | None => throw "No rollback point available"
  | Some rp =>
      sub <- gets (fun s => submodule (context s)) ;;
      execCommand (Checkout sub (js_str (submoduleCommit rp))) ;;;
      currentParentCommit <- execQuiet_trim ParentRevParseHead ;;
      (if bool_decide (currentParentCommit = parentCommit rp) then ret tt
       else execCommand ResetHard1) ;;;
      modify (fun s => set_stack (removelast (rollbackStack s)) s)
  end.

Definition handleUpdateFailure (error : string) : M State unit :=
  try_catch rollbackUpdate (fun rollbackError => ret tt).

Definition new_context (submodulePath targetVersion now : string) : UpdateContext :=
  {| submodule := submodulePath; targetVersion := targetVersion;
     startTime := now; currentCommit := None; targetCommit := None;
     updateType := None;
     validationResults := {| qualityGates := None; contracts := None |};
     rollbackPoint := None; approved := false |}.

(** The [try] block of [updateSubmodule]. *)
Definition updateSubmodule_try (options : Options) : M State UpdateContext :=
  preUpdateValidation ;;;
  createRollbackPoint ;;;
  performUpdate options ;;;
  postUpdateValidation ;;;
  updateParentRepository ;;;
  gets context.

Definition updateSubmodule (submodulePath targetVersion : string)
    (options : Options) : M State UpdateContext :=
  now <- gets (fun s => clock (world s)) ;;
  modify (set_context (new_context submodulePath targetVersion now)) ;;;
  try_catch (updateSubmodule_try options)
    (fun error => handleUpdateFailure error ;;; throw error).

(** The state in which the [try] block of [updateSubmodule] starts. *)
Definition start_update (submodulePath targetVersion : string) (s : State) : State :=
  set_context (new_context submodulePath targetVersion (clock (world s))) s.

Record UpdateRequest := {
  req_submodule : string;
  req_targetVersion : string
}.

Record Failure := {
  failed_submodule : string;
  failed_targetVersion : string;
  failed_error : string
}.

Record BatchResults := {
  successful : list UpdateContext;
  failed : list Failure;
  skipped : list UpdateRequest
}.

Definition determineUpdateTypeSync (update : UpdateRequest) : string :=
  "medium".

Definition riskOrder : Gates.Obj Z := [("low", 1); ("medium", 2); ("high", 3)]%Z.

(** The comparison function of the sort in [batchUpdate].  A risk level
    that [riskOrder] does not have makes the difference [NaN], which the
    sort reads as zero. *)
Definition compareRisk (a b : UpdateRequest) : Res Z :=
  let aType := determineUpdateTypeSync a in
  let bType := determineUpdateTypeSync b in
  match Gates.obj_get aType updateStrategies with
  | None => Throw (TypeError_undefined "riskLevel")
  | Some sa =>
      match Gates.obj_get bType updateStrategies with
      | None => Throw (TypeError_undefined "riskLevel")
      | Some sb =>
          match Gates.obj_get (riskLevel sa) riskOrder,
                Gates.obj_get (riskLevel sb) riskOrder with
          | Some x, Some y => Ok (x - y)%Z
          | _, _ => Ok 0%Z
          end
      end
  end.

(** The [for] loop of [batchUpdate]. *)
Fixpoint batch_loop (options : Options) (updates : list UpdateRequest)
    (results : BatchResults) : M State BatchResults :=
  match updates with
  | [] => ret results
  | update :: rest =>
      fun s =>
        match updateSubmodule (req_submodule update) (req_targetVersion update)
                {| stopOnError := stopOnError options; batchMode := true |} s with
        | (Ok result, s') =>
            batch_loop options rest
              {| successful := successful results ++ [result];
                 failed := failed results; skipped := skipped results |} s'
        | (Throw e, s') =>
            let results' :=
              {| successful := successful results;
                 failed := failed results ++
                   [{| failed_submodule := req_submodule update;
                       failed_targetVersion := req_targetVersion update;
                       failed_error := e |}];
                 skipped := skipped results |} in
            if stopOnError options then (Ok results', s')
            else batch_loop options rest results' s'
        end
  end.

Definition batchUpdate (updates : list UpdateRequest) (options : Options)
  : M State BatchResults :=
  let results := {| successful := []; failed := []; skipped := [] |} in
  sortedUpdates <- await (sort compareRisk updates) ;;
  batch_loop options sortedUpdates results.

(** *** Example worlds

    Two modules, both tagged v1.0.0 and checked out there.  In the first
    world the probes of [web] and [api] answer with a line of text, as a
    shell would whose commands print; in the second, further down, they
    are silent, as git is. *)

Definition healthy_facts : Gates.ServiceFacts :=
  {| Gates.fact_SECURITY_md := true;
     Gates.fact_secureGitignore := Ok true;
     Gates.fact_env_example := true;
     Gates.fact_noHardcodedSecrets := true;
     Gates.fact_vulnerabilities := 0;
     Gates.fact_stableTag := true;
     Gates.fact_tests := true;
     Gates.fact_contract :=
       Ok {| Gates.hasContract := true; Gates.isValid := true;
             Gates.compatibilityScore := 100; Gates.breakingChanges := [];
             Gates.version := Some "1.0.0" |};
     Gates.fact_package_json := true;
     Gates.fact_Dockerfile := true |}.

Definition example_module (head : string) (npm_ok : bool) : ModuleState :=
  {| mod_head := head;
     mod_diff_quiet := Some "clean";
     mod_tag_listed := fun t => Some t;
     mod_resolve :=
       {[ "v1.0.0" := head; head := head;
          "v1.0.1" := "1111111111"; "v2.0.0" := "2222222222" ]};
     mod_rev_parse :=
       {[ "v1.0.0" := head; head := head;
          "v1.0.1" := "1111111111"; "v2.0.0" := "2222222222" ]};
     mod_describe := Some "v1.0.0";
     mod_fetch_ok := true;
     mod_npm_ci_ok := npm_ok;
     mod_facts := healthy_facts |}.

Definition example_world : World :=
  {| modules := {[ "web" := example_module "aaaaaaaaaa" false;
                   "api" := example_module "bbbbbbbbbb" true ]};
     parent_log := ["p1"; "p0"];
     parent_branch := "main";
     next_commits := ["p2"; "p3"];
     submodule_list := ["web"; "api"];
     clock := "2025-01-01T00:00:00.000Z" |}.

Definition example_state : State :=
  {| world := example_world; rollbackStack := [];
     context := new_context "" "" "" |}.

Definition no_options : Options := {| stopOnError := false; batchMode := false |}.

(** The patch update of [api] succeeds; the patch update of [web] then
    fails in the build verification, after its rollback point was made. *)
Definition after_api : State :=
  snd (updateSubmodule "api" "v1.0.1" no_options example_state).

Definition web_failing : Res UpdateContext * State :=
  updateSubmodule_try no_options (start_update "web" "v1.0.1" after_api).

Definition build_error : string :=
  "Build verification failed: Command failed: cd web && npm ci --silent"
    +:+ nl +:+ "Command failed: cd web && npm ci --silent".

(** The claim that a second restore is a no-op, as the design document
    states it. *)
Definition restore_is_idempotent : Prop :=
  forall s s1 r s2,
    rollbackUpdate s = (Ok tt, s1) ->
    rollbackUpdate s1 = (r, s2) ->
    r = Ok tt /\
    modules (world s2) = modules (world s1) /\
    parent_log (world s2) = parent_log (world s1) /\
    rollbackStack s2 = rollbackStack s1.

(** The parent reference is the snapshotted one. *)
Definition parent_at (w : World) (commit : string) : Prop :=
  exists h rest, parent_log w = h :: rest /\ trim (line h) = commit.

(** *** A world as git shows it

    [git diff --quiet] and [grep -q] print nothing: when they succeed,
    [execQuiet] returns the empty string.  The tags are lightweight. *)

Definition git_module (head : string) : ModuleState :=
  {| mod_head := head;
     mod_diff_quiet := Some EmptyString;
     mod_tag_listed := fun t => Some EmptyString;
     mod_resolve :=
       {[ "v1.0.0" := head; head := head;
          "v1.0.1" := "1111111111"; "v2.0.0" := "2222222222" ]};
     mod_rev_parse :=
       {[ "v1.0.0" := head; head := head;
          "v1.0.1" := "1111111111"; "v2.0.0" := "2222222222" ]};
     mod_describe := Some "v1.0.0";
     mod_fetch_ok := true;
     mod_npm_ci_ok := true;
     mod_facts := healthy_facts |}.

Definition git_world : World :=
  {| modules := {[ "web" := git_module "aaaaaaaaaa";
                   "api" := git_module "bbbbbbbbbb" ]};
     parent_log := ["p1"; "p0"];
     parent_branch := "main";
     next_commits := ["p2"; "p3"];
     submodule_list := ["web"; "api"];
     clock := "2025-01-01T00:00:00.000Z" |}.

Definition git_state : State :=
  {| world := git_world; rollbackStack := [];
     context := new_context "" "" "" |}.

(** A context as a caller of the single steps fills it in. *)
Definition context_of (submodulePath targetVersion current target type : string)
  : UpdateContext :=
  with_updateType (Some type)
    (with_targetCommit (Some target)
       (with_currentCommit (Some current)
          (new_context submodulePath targetVersion "2025-01-01T00:00:00.000Z"))).

(** The patch update of web, ready for the steps after validation. *)
Definition web_patch : State :=
  set_context (context_of "web" "v1.0.1" "aaaaaaaaaa" "1111111111" "patch")
    git_state.

(** The same with a current commit that the module does not have. *)
Definition web_unknown_commit : State :=
  set_context (context_of "web" "v1.0.1" "0000000000" "1111111111" "patch")
    git_state.

(** The tag v1.0.1 of web annotated: [git rev-parse v1.0.1] prints the tag
    object, and that is the target commit of the context, while a checkout
    of the tag lands on the commit. *)
Definition annotated_module (head : string) : ModuleState :=
  {| mod_head := head;
     mod_diff_quiet := Some EmptyString;
     mod_tag_listed := fun t => Some EmptyString;
     mod_resolve := {[ head := head; "v1.0.1" := "1111111111" ]};
     mod_rev_parse := {[ head := head; "v1.0.1" := "tttttttttt" ]};
     mod_describe := Some "v1.0.0";
     mod_fetch_ok := true;
     mod_npm_ci_ok := true;
     mod_facts := healthy_facts |}.

Definition web_annotated : State :=
  {| world :=
       {| modules := {[ "web" := annotated_module "aaaaaaaaaa" ]};
          parent_log := ["p1"; "p0"];
          parent_branch := "main";
          next_commits := ["p2"; "p3"];
          submodule_list := ["web"];
          clock := "2025-01-01T00:00:00.000Z" |};
     rollbackStack := [];
     context := context_of "web" "v1.0.1" "aaaaaaaaaa" "tttttttttt" "patch" |}.

(** The claim that a failure of the restore itself reaches the caller, as
    the design document states it: with a rollback point in the context,
    what the restore throws is what the failure handler throws. *)
Definition rollback_error_escapes : Prop :=
  forall e s m s1,
    rollbackPoint (context s) <> None ->
    rollbackUpdate s = (Throw m, s1) ->
    fst (handleUpdateFailure e s) = Throw m.

End Updater.


(** ** Further definitions for the properties of the gates *)

Module GateRules.

Import Gates.
Local Open Scope Q_scope.

(** The message of the first probe of the security gate that throws, in
    the order in which [evaluateSecurityGate] awaits them. *)
Definition security_first_throw (p : SecurityProbes) : option string :=
  match checkSecureGitignore p with
  | Throw m => Some m
  | Ok _ =>
      match checkForHardcodedSecrets p with
      | Throw m => Some m
      | Ok _ =>
          match checkVulnerabilities p with
          | Throw m => Some m
          | Ok _ =>
              match checkHttpsEnforcement p with
              | Throw m => Some m
              | Ok _ =>
                  match checkAuthImplementation p with
                  | Throw m => Some m
                  | Ok _ => None
                  end
              end
          end
      end
  end.

(** The same for the performance gate. *)
Definition performance_first_throw (p : PerformanceProbes) : option string :=
  match checkBundleSize p with
  | Throw m => Some m
  | Ok _ =>
      match measureBuildTime p with
      | Throw m => Some m
      | Ok _ =>
          match countDependencies p with
          | Throw m => Some m
          | Ok _ =>
              match checkLazyLoading p with
              | Throw m => Some m
              | Ok _ => None
              end
          end
      end
  end.

(** [contractResult.version !== 'unknown'] *)
Definition hasVersion (c : ContractResult) : bool :=
  match version c with
  | Some v => negb (String.eqb v "unknown")
  | None => true
  end.

Definition security_probes_ok (policy gitignore envExample noSecrets : bool)
    (vulnerabilityCount : Z) (https auth : bool) : SecurityProbes :=
  {| existsSync_SECURITY_md := policy;
     checkSecureGitignore := Ok gitignore;
     existsSync_env_example := envExample;
     checkForHardcodedSecrets := Ok noSecrets;
     checkVulnerabilities := Ok vulnerabilityCount;
     checkHttpsEnforcement := Ok https;
     checkAuthImplementation := Ok auth |}.

Definition stability_probes_ok (tag tests : bool) (coverage : Q)
    (build errors rollback health : bool) : StabilityProbes :=
  {| checkStableTag := Ok tag;
     getLatestStableTag := Ok "v1.0.0";
     checkTestExistence := Ok tests;
     getTestCoverage := Ok coverage;
     checkBuildStability := Ok build;
     checkErrorHandling := Ok errors;
     checkRollbackCapability := Ok rollback;
     checkHealthEndpoint := Ok health |}.

Definition performance_probes_ok (bundleSize buildTime dependencyCount : Q)
    (lazyLoading : bool) : PerformanceProbes :=
  {| checkBundleSize := Ok bundleSize;
     measureBuildTime := Ok buildTime;
     countDependencies := Ok dependencyCount;
     checkLazyLoading := Ok lazyLoading |}.

Definition deployment_probes_ok
    (pkg build start config docker env health prod : bool) : DeploymentProbes :=
  {| existsSync_package_json := pkg;
     checkBuildScript := Ok build;
     checkStartScript := Ok start;
     checkDeploymentConfig := Ok config;
     existsSync_Dockerfile := docker;
     checkEnvironmentConfig := Ok env;
     checkHealthCheckScript := Ok health;
     checkProductionReadiness := Ok prod |}.

(** An entry of [gateResults] whose issues are critical failures: the
    entry of a critical gate of the table, with a result that has not
    passed. *)
Definition critical_failed (this : QualityGates) (entry : string * GateResult)
  : bool :=
  match List.find (fun g => String.eqb (gateKey g) (fst entry)) (gates this) with
  | Some gate => critical gate && negb (passed (snd entry))
  | None => false
  end.

(** The issue a throwing probe leaves in its gate. *)
Definition failure_issue {A} (what : string) (r : Res A) : list string :=
  match r with
  | Throw m => [what +:+ " evaluation failed: " +:+ m]
  | Ok _ => []
  end.

End GateRules.

(** ** Further definitions for the properties of the updater *)

Module UpdateRules.

Import Shell Updater.

(** The commands that change the repository: a checkout moves a module,
    a commit and a reset move the parent. *)
Definition writes (c : Cmd) : bool :=
  match c with
  | Checkout _ _ | Commit _ | ResetHard1 => true
  | _ => false
  end.

(** A statement keeps a relation between the state in which it starts and
    the state it leaves, whether it returns or throws. *)
Definition keeps {A} (R : State -> State -> Prop) (m : M State A) : Prop :=
  forall s r s', m s = (r, s') -> R s s'.

(** Nothing of the repository, of the rollback stack or of what a later
    restore reads has changed. *)
Definition unchanged (s s' : State) : Prop :=
  world s' = world s /\
  rollbackStack s' = rollbackStack s /\
  submodule (context s') = submodule (context s) /\
  rollbackPoint (context s') = rollbackPoint (context s).

(** Only the validation results of the context have changed. *)
Definition validated (s s' : State) : Prop :=
  world s' = world s /\
  rollbackStack s' = rollbackStack s /\
  exists results, context s' = with_validationResults results (context s).

(** The parent is as it was, and so is every module but the one under
    update. *)
Definition module_only (s s' : State) : Prop :=
  submodule (context s') = submodule (context s) /\
  parent_log (world s') = parent_log (world s) /\
  next_commits (world s') = next_commits (world s) /\
  (forall p, p <> submodule (context s) ->
             modules (world s') !! p = modules (world s) !! p).

Definition no_snapshot (s s' : State) : Prop :=
  module_only s s' /\
  rollbackPoint (context s') = rollbackPoint (context s) /\
  rollbackStack s' = rollbackStack s.

(** One rollback point was made, of the parent as it is, and pushed. *)
Definition one_snapshot (s s' : State) : Prop :=
  module_only s s' /\
  exists rp h rest,
    rollbackPoint (context s') = Some rp /\
    rollbackStack s' = (rollbackStack s ++ [rp])%list /\
    parent_log (world s) = h :: rest /\
    parentCommit rp = trim (line h).

Definition at_most_one_snapshot (s s' : State) : Prop :=
  no_snapshot s s' \/ one_snapshot s s'.

(** The rollback point that [createRollbackPoint] makes in a state. *)
Definition snapshot_of (s : State) (parent : string) : RollbackPoint :=
  {| submoduleCommit := currentCommit (context s);
     parentCommit := trim (line parent);
     rp_timestamp := clock (world s);
     branch := trim (line (parent_branch (world s))) |}.

Definition empty_results : BatchResults :=
  {| successful := []; failed := []; skipped := [] |}.

(** The requests a batch has dealt with. *)
Definition handled (results : BatchResults) : nat :=
  (length (successful results) + length (failed results))%nat.

End UpdateRules.


(** ** Compatibility of the services ([safe-update.js]) *)

Module Compat.

(** [compatibilityMatrix] is a plain object created by [{}]: its own
    properties, the rows, and a prototype.  The prototype is
    [Object.prototype] until the key [__proto__] is assigned an object:
    [Object.prototype] answers that key with a setter, which replaces the
    prototype and creates no property.  A row is a plain object as well;
    only booleans are assigned to its keys, and the setter ignores a value
    that is neither an object nor null, so a row keeps its prototype and is
    given by its own properties.  [object_prototype] holds the properties
    the function has added to [Object.prototype] itself. *)
Record Matrix := {
  own : gmap string (gmap string bool);
  proto : option (gmap string bool);
  object_prototype : gmap string bool
}.

(** [const compatibilityMatrix = {}] *)
Definition empty_object : Matrix :=
  {| own := ∅; proto := None; object_prototype := ∅ |}.

(** The methods of [Object.prototype]. *)
Definition methods : list string :=
  [ "constructor"; "hasOwnProperty"; "isPrototypeOf"; "propertyIsEnumerable";
    "toLocaleString"; "toString"; "valueOf"; "__defineGetter__";
    "__defineSetter__"; "__lookupGetter__"; "__lookupSetter__" ].

(** What [compatibilityMatrix[key]] evaluates to. *)
Inductive Value :=
| OwnRow (row : gmap string bool)
| Prototype (row : gmap string bool)
| ObjectPrototype
| Boolean (b : bool)
| Method
| Undefined.

Definition get (key : string) (m : Matrix) : Value :=
  if bool_decide (key = "__proto__")
  then match proto m with
       | Some p => Prototype p
       | None => ObjectPrototype
       end
  else
    match own m !! key with
    | Some row => OwnRow row
    | None =>
        match proto m ≫= (.!! key) with
        | Some b => Boolean b
        | None =>
            match object_prototype m !! key with
            | Some b => Boolean b
            | None => if bool_decide (key ∈ methods) then Method else Undefined
            end
        end
    end.

(** [compatibilityMatrix[key] = {}] *)
Definition new_row (key : string) (m : Matrix) : Matrix :=
  if bool_decide (key = "__proto__")
  then {| own := own m; proto := Some ∅;
          object_prototype := object_prototype m |}
  else {| own := <[key := ∅]> (own m); proto := proto m;
          object_prototype := object_prototype m |}.

(** [row[key] = value] on a plain object, for a boolean [value]. *)
Definition put (key : string) (value : bool) (row : gmap string bool)
  : gmap string bool :=
  if bool_decide (key = "__proto__") then row else <[key := value]> row.

(** [compatibilityMatrix[submodule][otherSubmodule] = isCompatible], in the
    strict mode of a class body. *)
Definition set_entry (submodule otherSubmodule : string) (isCompatible : bool)
    (m : Matrix) : Res Matrix :=
  match get submodule m with
  | OwnRow row =>
      Ok {| own := <[submodule := put otherSubmodule isCompatible row]> (own m);
            proto := proto m; object_prototype := object_prototype m |}
  | Prototype p =>
      Ok {| own := own m; proto := Some (put otherSubmodule isCompatible p);
            object_prototype := object_prototype m |}
  | ObjectPrototype =>
      Ok {| own := own m; proto := proto m;
            object_prototype :=
              put otherSubmodule isCompatible (object_prototype m) |}
  | Boolean b =>
      if bool_decide (otherSubmodule = "__proto__") then Ok m
      else Throw ("Cannot create property '" +:+ otherSubmodule
                    +:+ "' on boolean '" +:+ (if b then "true" else "false")
                    +:+ "'")
  | Method => Ok m
  | Undefined =>
      Throw ("Cannot set properties of undefined (setting '"
               +:+ otherSubmodule +:+ "')")
  end.

Definition checkServiceCompatibility (serviceA serviceB : string) : bool := true.

(** The inner loop of [validateSubmoduleCompatibility]. *)
Fixpoint compare_with (submodule : string) (others : list string)
    (compatibilityMatrix : Matrix) : Res Matrix :=
  match others with
  | [] => Ok compatibilityMatrix
  | otherSubmodule :: rest =>
      if bool_decide (submodule = otherSubmodule)
      then compare_with submodule rest compatibilityMatrix
      else
        let isCompatible := checkServiceCompatibility submodule otherSubmodule in
        match set_entry submodule otherSubmodule isCompatible
                compatibilityMatrix with
        | Throw e => Throw e
        | Ok matrix => compare_with submodule rest matrix
        end
  end.

(** The outer loop. *)
Fixpoint compare_all (submodules todo : list string)
    (compatibilityMatrix : Matrix) : Res Matrix :=
  match todo with
  | [] => Ok compatibilityMatrix
  | submodule :: rest =>
      match compare_with submodule submodules
              (new_row submodule compatibilityMatrix) with
      | Throw e => Throw e
      | Ok matrix => compare_all submodules rest matrix
      end
  end.

Definition validateSubmoduleCompatibility (submodules : list string)
  : Res Matrix :=
  compare_all submodules submodules empty_object.

(** The entries the inner loop adds to the object it writes to. *)
Definition filled (submodule : string) (others : list string)
    (row : gmap string bool) : gmap string bool :=
  foldl (fun r otherSubmodule =>
           if bool_decide (submodule = otherSubmodule) then r
           else put otherSubmodule true r) row others.

End Compat.

(** ** The mirror branches ([update-mirror-branches.js])

    The script changes the working directory of the process, and what git
    answers depends on it: the working directory is part of the state, and
    the answers of git are functions of it. *)

Module Mirror.

Record Env := {
  (* [process.chdir(path)] from a working directory: where it leads,
     [None] when it throws *)
  chdir : string -> string -> option string;
  (* [git symbolic-ref refs/remotes/origin/HEAD] *)
  symbolic_ref : string -> Res string;
  (* [git show-ref --verify --quiet refs/remotes/origin/main] *)
  show_ref_main : string -> Res string;
  (* [git fetch origin] *)
  fetch_origin : string -> Res string;
  (* [git rev-parse origin/<branch>] *)
  remote_head : string -> string -> Res string;
  (* whether [git branch -f <name> <commit>] is accepted there *)
  branch_f_ok : string -> string -> string -> bool
}.

Record State := {
  cwd : string;
  (* the local branches of the repository at a directory *)
  refs : gmap (string * string) string;
  successCount : Z;
  errorCount : Z
}.

Definition set_cwd (d : string) (s : State) : State :=
  {| cwd := d; refs := refs s; successCount := successCount s;
     errorCount := errorCount s |}.

Definition set_refs (r : gmap (string * string) string) (s : State) : State :=
  {| cwd := cwd s; refs := r; successCount := successCount s;
     errorCount := errorCount s |}.

Definition process_chdir (env : Env) (path : string) : M State unit :=
  fun s => match chdir env (cwd s) path with
           | Some d => (Ok tt, set_cwd d s)
           | None =>
               (Throw ("ENOENT: no such file or directory, chdir '" +:+ cwd s
                         +:+ "' -> '" +:+ path +:+ "'"), s)
           end.

(** [execCommand(command)] for a command that only reads. *)
Definition execCommand (answer : string -> Res string) : M State string :=
  fun s => (answer (cwd s), s).

(** [git rev-parse <name>] of a local branch *)
Definition rev_parse (name : string) : M State string :=
  fun s => match refs s !! (cwd s, name) with
           | Some commit => (Ok (Shell.line commit), s)
           | None => (Throw ("Command failed: git rev-parse " +:+ name), s)
           end.

(** [git branch -f <name> <commit>] *)
Definition branch_f (env : Env) (name commit : string) : M State string :=
  fun s => if branch_f_ok env (cwd s) name commit
           then (Ok EmptyString, set_refs (<[(cwd s, name) := commit]> (refs s)) s)
           else (Throw ("Command failed: git branch -f " +:+ name +:+ " " +:+ commit), s).

Definition getDefaultBranch (env : Env) (submodulePath : string) : M State string :=
  try_catch
    (originalDir <- gets cwd ;;
     process_chdir env submodulePath ;;;
     try_catch
       (out <- execCommand (symbolic_ref env) ;;
        let defaultBranch := remove_first "refs/remotes/origin/" (trim out) in
        process_chdir env originalDir ;;;
        ret defaultBranch)
       (fun _ =>
          try_catch
            (execCommand (show_ref_main env) ;;;
             process_chdir env originalDir ;;;
             ret "main")
            (fun _ =>
               process_chdir env originalDir ;;;
               ret "master")))
    (fun _ => ret "main").

(** [existingBranches.includes(branchName)] *)
Definition includes (x : string) (xs : list string) : bool :=
  existsb (String.eqb x) xs.

(** The body of the loop of [updateMirrorBranches], for one submodule. *)
Definition update_one (env : Env) (existingBranches : list string)
    (path : string) : M State unit :=
  try_catch
    (defaultBranch <- getDefaultBranch env path ;;
     let branchName := path +:+ "/" +:+ defaultBranch in
     if negb (includes branchName existingBranches) then ret tt
     else
       originalDir <- gets cwd ;;
       process_chdir env path ;;;
       execCommand (fetch_origin env) ;;;
       out <- execCommand (fun d => remote_head env d defaultBranch) ;;
       let latestCommit := trim out in
       process_chdir env originalDir ;;;
       out' <- rev_parse branchName ;;
       let currentCommit := trim out' in
       (if String.eqb latestCommit currentCommit then ret tt
        else branch_f env branchName latestCommit ;;; ret tt) ;;;
       modify (fun s => {| cwd := cwd s; refs := refs s;
                           successCount := successCount s + 1;
                           errorCount := errorCount s |}))
    (fun _ =>
       modify (fun s => {| cwd := cwd s; refs := refs s;
                           successCount := successCount s;
                           errorCount := errorCount s + 1 |})).

(** The loop over the submodules. *)
Fixpoint update_each (env : Env) (existingBranches submodules : list string)
  : M State unit :=
  match submodules with
  | [] => ret tt
  | path :: rest =>
      update_one env existingBranches path ;;;
      update_each env existingBranches rest
  end.

(** A repository with one submodule, whose remote cannot be reached. *)
Definition offline : Env :=
  {| chdir := fun d path =>
       if String.eqb path "/repo" then Some "/repo"
       else if String.eqb d "/repo" && String.eqb path "web" then Some "/repo/web"
       else None;
     symbolic_ref := fun d =>
       if String.eqb d "/repo/web" then Ok (Shell.line "refs/remotes/origin/main")
       else Throw "Command failed: git symbolic-ref refs/remotes/origin/HEAD";
     show_ref_main := fun _ =>
       Throw "Command failed: git show-ref --verify --quiet refs/remotes/origin/main";
     fetch_origin := fun _ => Throw "Command failed: git fetch origin";
     remote_head := fun _ _ => Throw "Command failed: git rev-parse";
     branch_f_ok := fun _ _ _ => true |}.

Definition at_root : State :=
  {| cwd := "/repo"; refs := {[ ("/repo", "web/main") := "aaaaaaaaaa" ]};
     successCount := 0; errorCount := 0 |}.

End Mirror.

(** ** The contract validator ([contract-validator.js]) *)

Module Contracts.

(** What the patterns of [detectContractChanges] find in the text of a
    contract. *)
Record Matches := {
  requiredFields : nat;      (* matches of [/required:\s*true/g] *)
  typedFields : nat;         (* matches of [/type:\s*["']?(\w+)["']?/g] *)
  enums : nat;               (* matches of [/enum:\s*\[([^\]]+)\]/g] *)
  paths : list string        (* first groups of the matches of the path pattern *)
}.

Record Changes := {
  breaking : list string;
  additions : list string;
  modifications : list string
}.

Definition push_if (cond : bool) (x : string) (xs : list string) : list string :=
  if cond then (xs ++ [x])%list else xs.

Definition detectContractChanges (oldContent newContent : Matches) : Changes :=
  let b0 : list string := [] in
  let b1 := push_if (requiredFields oldContent <? requiredFields newContent)%nat
              "New required field added" b0 in
  let b2 := push_if (typedFields oldContent <? typedFields newContent)%nat
              "Field type changed" b1 in
  let b3 := push_if (enums oldContent <? enums newContent)%nat
              "Enum values changed" b2 in
  let removedPaths :=
    List.filter (fun path => negb (existsb (String.eqb path) (paths newContent)))
      (paths oldContent) in
  let b4 := push_if (0 <? length removedPaths)%nat
              ("Removed endpoints: " +:+ Updater.join removedPaths) b3 in
  {| breaking := b4; additions := []; modifications := [] |}.

Record Compatibility := {
  score : Z;
  compat_breakingChanges : list string
}.

(** [previousContent] is what [git show HEAD~1:<file>] printed: [None] when
    the command failed or printed nothing.  [currentContent] is the outcome
    of reading the file. *)
Definition checkBackwardCompatibility (previousContent : option Matches)
    (currentContent : Res Matches) : Compatibility :=
  match previousContent with
  | None => {| score := 90; compat_breakingChanges := [] |}
  | Some previous =>
      match currentContent with
      | Throw _ =>
          {| score := 70;
             compat_breakingChanges := ["Unable to validate backward compatibility"] |}
      | Ok current =>
          let changes := detectContractChanges previous current in
          {| score := Z.max 0 (100 - Z.of_nat (length (breaking changes)) * 20);
             compat_breakingChanges := breaking changes |}
      end
  end.

Record Validation := {
  service : string;
  hasContract : bool;
  contractType : option string;
  isValid : bool;
  compatibilityScore : Z;
  breakingChanges : list string;
  warnings : list string;
  version : option string;
  lastValidated : string
}.

(** What [validateServiceContract] finds at a service path.  The syntax
    validation and the extraction of the version catch their own errors;
    the readiness checks read the file again and may throw. *)
Record Files := {
  contractFile : option string;        (* [findContractFile] *)
  basename : string;                   (* [path.basename] of it *)
  syntax_isValid : bool;               (* [validateContractSyntax] *)
  syntax_warnings : list string;
  contractVersion : string;            (* [extractContractVersion] *)
  previousContent : option Matches;
  currentContent : Res Matches;
  readiness : Res (list string)        (* [checkProductionReadiness] *)
}.

Definition validateServiceContract (servicePath now : string) (f : Files)
  : Validation :=
  let validation :=
    {| service := servicePath; hasContract := false; contractType := None;
       isValid := false; compatibilityScore := 0; breakingChanges := [];
       warnings := []; version := None; lastValidated := now |} in
  match contractFile f with
  | None =>
      {| service := service validation; hasContract := hasContract validation;
         contractType := contractType validation; isValid := isValid validation;
         compatibilityScore := compatibilityScore validation;
         breakingChanges := breakingChanges validation;
         warnings := (warnings validation ++ ["No API contract found"])%list;
         version := version validation;
         lastValidated := lastValidated validation |}
  | Some file =>
      let compatibilityCheck :=
        checkBackwardCompatibility (previousContent f) (currentContent f) in
      let warnings1 := (warnings validation ++ syntax_warnings f)%list in
      {| service := service validation; hasContract := true;
         contractType := Some (basename f); isValid := syntax_isValid f;
         compatibilityScore := score compatibilityCheck;
         breakingChanges := compat_breakingChanges compatibilityCheck;
         warnings :=
           match readiness f with
           | Ok readinessWarnings => (warnings1 ++ readinessWarnings)%list
           | Throw message => (warnings1 ++ ["Validation error: " +:+ message])%list
           end;
         version := Some (contractVersion f);
         lastValidated := lastValidated validation |}
  end.

(** The fields of a validation that the contract gate reads. *)
Definition contractResult (v : Validation) : Gates.ContractResult :=
  {| Gates.hasContract := hasContract v; Gates.isValid := isValid v;
     Gates.compatibilityScore := inject_Z (compatibilityScore v);
     Gates.breakingChanges := breakingChanges v;
     Gates.version := version v |}.

Definition example_files : Files :=
  {| contractFile := Some "web/openapi.yml"; basename := "openapi.yml";
     syntax_isValid := true; syntax_warnings := [];
     contractVersion := "2.0.0";
     previousContent :=
       Some {| requiredFields := 1; typedFields := 4; enums := 0;
               paths := ["/v1/users"; "/v1/orders"] |};
     currentContent :=
       Ok {| requiredFields := 2; typedFields := 5; enums := 0;
             paths := ["/v1/users"] |};
     readiness := Ok [] |}.

End Contracts.


(** * Properties *)

(** ** Version classification *)

Section VersionFacts.

Import Version.

Lemma semver_nonempty (v : string) :
  isSemanticVersion v = true -> truthy_str v = true.
Proof. destruct v; [discriminate | reflexivity]. Qed.

Lemma semver_parses (v : string) :
  isSemanticVersion v = true -> exists t, parseSemanticVersion v = Ok t.
Proof.
  unfold isSemanticVersion, parseSemanticVersion.
  destruct (re_semver v) as [[[a b] c]|]; [eauto | discriminate].
Qed.

Lemma classify_null (tgt : string) : classify None tgt = "major".
Proof. reflexivity. Qed.

Lemma round53_small (n : N) : (n < two53)%N -> round53 n = n.
Proof.
  intros H. unfold round53. apply N.ltb_lt in H. rewrite H. reflexivity.
Qed.

Lemma toNumber_small (n : N) : (n < two53)%N -> toNumber n = Finite n.
Proof.
  intros H. unfold toNumber. rewrite (round53_small n H).
  assert (Hb : (n <? N.shiftl 1 1024)%N = true).
  { apply N.ltb_lt. eapply N.lt_trans; [exact H |]. reflexivity. }
  rewrite Hb. reflexivity.
Qed.

Lemma lt_irrefl (x : IntNumber) : lt x x = false.
Proof. destruct x as [n |]; [apply N.ltb_irrefl | reflexivity]. Qed.

(** On a battery of integers (around the powers of two from the 50th on,
    at the ties, at the largest double, and pseudo-random ones of up to
    200 bits) the rounding of [toNumber] is the one that the Standard
    Library's IEEE 754 model computes. *)
Remark toNumber_is_IEEE_rounding_on_samples :
  forallb (fun n => match toNumber n, toNumber_IEEE n with
                    | Finite a, Finite b => (a =? b)%N
                    | Infinity, Infinity => true
                    | _, _ => false
                    end)
    (List.concat
       [ [0; 1; 9007199254740991; 9007199254740992; 9007199254740993;
          9007199254740995; 2 ^ 1023; 2 ^ 1024 - 2 ^ 971;
          2 ^ 1024 - 2 ^ 970 - 1; 2 ^ 1024 - 2 ^ 970; 2 ^ 1024 - 1;
          2 ^ 1024; 2 ^ 1025 + 5];
         map (fun k => 2 ^ N.of_nat k - 1) (seq 50 80);
         map (fun k => 2 ^ N.of_nat k + 2 ^ (N.of_nat k - 53)) (seq 53 80);
         map (fun k => 2 ^ N.of_nat k + 3 * 2 ^ (N.of_nat k - 53)) (seq 53 80);
         map (fun k => (2 ^ N.of_nat k * 6364136223846793005
                        + 1442695040888963407) mod 2 ^ 200) (seq 0 200) ])%N
  = true.
Proof. vm_compute. reflexivity. Qed.

Lemma classify_semver (cv tv a b c a' b' c' : string) :
  re_semver cv = Some (a, b, c) ->
  re_semver tv = Some (a', b', c') ->
  classify (Some cv) tv
  = if lt (parseInt a) (parseInt a') then "major"
    else if lt (parseInt b) (parseInt b') then "minor"
    else "patch".
Proof.
  intros Hc Ht. unfold classify, isSemanticVersion, parseSemanticVersion.
  rewrite Hc, Ht.
  assert (Hne : truthy_str cv = true) by (destruct cv; [discriminate Hc | reflexivity]).
  rewrite Hne. cbn [negb orb major minor patch].
  destruct (lt (parseInt a) (parseInt a')); [reflexivity |].
  destruct (lt (parseInt b) (parseInt b')); [reflexivity |].
  destruct (lt (parseInt c) (parseInt c')); reflexivity.
Qed.

(** C3 as stated fails here.  Both strings of each pair match the pattern.
    From 2.0.0 to 1.5.0 the target is below the current version in the
    order of the triples, a regressive update, which the rule makes a
    patch; the code answers minor, because it compares the minor numbers
    without asking whether the major numbers are equal.  And from
    9007199254740992.0.0 to 9007199254740993.0.0 the target is above, a
    major update by the rule; the code answers patch, because [parseInt]
    gives the same double for both major numbers. *)
Lemma classify_is_not_lexicographic :
  isSemanticVersion "2.0.0" = true /\ isSemanticVersion "1.5.0" = true /\
  classify (Some "2.0.0") "1.5.0" = "minor" /\
  classify_lexicographic (2, 0, 0)%N (1, 5, 0)%N = "patch" /\
  isSemanticVersion "9007199254740992.0.0" = true /\
  isSemanticVersion "9007199254740993.0.0" = true /\
  classify (Some "9007199254740992.0.0") "9007199254740993.0.0" = "patch" /\
  classify_lexicographic (9007199254740992, 0, 0)%N (9007199254740993, 0, 0)%N
  = "major".
Proof. vm_compute. repeat split. Qed.

(** C3, amended.  For two version strings that match the pattern, with
    captured groups (a, b, c) and (a', b', c'), the classification compares
    the numbers that [parseInt] reads component by component, each
    comparison on its own: major when the target's major number is
    greater; else minor when its minor number is greater; else patch.
    When the major and minor numbers written are below 2^53 these are
    comparisons of the integers written, and the answer is that of the
    lexicographic rule except when the target's major number is lower and
    its minor number greater, where the code answers minor and the rule
    patch. *)
Theorem classify_component_by_component :
  forall cv tv a b c a' b' c' : string,
    re_semver cv = Some (a, b, c) ->
    re_semver tv = Some (a', b', c') ->
    classify (Some cv) tv
    = (if lt (parseInt a) (parseInt a') then "major"
       else if lt (parseInt b) (parseInt b') then "minor"
       else "patch") /\
    ((decimal a < two53)%N -> (decimal a' < two53)%N ->
     (decimal b < two53)%N -> (decimal b' < two53)%N ->
     classify (Some cv) tv
     = (if (decimal a <? decimal a')%N then "major"
        else if (decimal b <? decimal b')%N then "minor"
        else "patch") /\
     (classify (Some cv) tv
      = classify_lexicographic (decimal a, decimal b, decimal c)
          (decimal a', decimal b', decimal c')
      <-> ~ ((decimal a' < decimal a)%N /\ (decimal b < decimal b')%N))).
Proof.
  intros cv tv a b c a' b' c' Hc Ht.
  pose proof (classify_semver cv tv a b c a' b' c' Hc Ht) as E.
  split; [exact E |].
  intros Ha Ha' Hb Hb'. rewrite E. unfold parseInt.
  rewrite !toNumber_small by assumption. cbn [lt classify_lexicographic].
  split; [reflexivity |].
  destruct (N.compare_spec (decimal a) (decimal a')) as [Heq | Hlt | Hgt].
  - rewrite Heq, N.ltb_irrefl.
    destruct (N.compare_spec (decimal b) (decimal b')) as [Heq' | Hlt' | Hgt'].
    + rewrite Heq', N.ltb_irrefl. split; [lia | reflexivity].
    + apply N.ltb_lt in Hlt' as Hb1. rewrite Hb1. split; [lia | reflexivity].
    + assert (Hb1 : (decimal b <? decimal b')%N = false) by (apply N.ltb_ge; lia).
      rewrite Hb1. split; [lia | reflexivity].
  - apply N.ltb_lt in Hlt as Ha1. rewrite Ha1. split; [lia | reflexivity].
  - assert (Ha1 : (decimal a <? decimal a')%N = false) by (apply N.ltb_ge; lia).
    rewrite Ha1.
    destruct (decimal b <? decimal b')%N eqn:Hb1.
    + apply N.ltb_lt in Hb1. split; [discriminate | intros H; destruct H; lia].
    + apply N.ltb_ge in Hb1. split; [lia | reflexivity].
Qed.

Lemma classify_component_by_component_witness :
  (classify (Some "1.2.3") "1.3.0" = "minor" /\
   classify (Some "1.2.3") "1.3.0"
   = classify_lexicographic (1, 2, 3)%N (1, 3, 0)%N) /\
  classify (Some "1.2.3") "2.0.0" = "major" /\
  classify (Some "1.2.3") "1.2.3" = "patch".
Proof.
  split; [| split].
  - destruct (classify_component_by_component "1.2.3" "1.3.0"
                "1" "2" "3" "1" "3" "0" eq_refl eq_refl) as (E & H).
    destruct H as (_ & Hlex); try reflexivity.
    split; [exact E |]. apply Hlex. intros [H1 _]. discriminate H1.
  - exact (proj1 (classify_component_by_component "1.2.3" "2.0.0"
                    "1" "2" "3" "2" "0" "0" eq_refl eq_refl)).
  - exact (proj1 (classify_component_by_component "1.2.3" "1.2.3"
                    "1" "2" "3" "1" "2" "3" eq_refl eq_refl)).
Defined.

(** The same classification runs inside the updater: [determineUpdateType]
    asks the module for its current version and never throws. *)
Lemma determineUpdateType_returns (s : Updater.State) :
  exists ty s', Updater.determineUpdateType s = (Ok ty, s').
Proof.
  unfold Updater.determineUpdateType, try_catch.
  match goal with |- context [match ?b s with _ => _ end] => destruct (b s) as [[ty | e] s'] end;
    eauto.
Qed.

(** C4. When either version string fails the semantic-version pattern the
    classification is major, and no exception is raised: [classify] is a
    total function and [determineUpdateType], which wraps it, always
    returns.  In particular HEAD to v1.0.0 is major. *)
Theorem classify_non_semver_major :
  (forall cur tgt : string,
      isSemanticVersion cur = false \/ isSemanticVersion tgt = false ->
      classify (Some cur) tgt = "major")
  /\ (forall s : Updater.State,
        exists ty s', Updater.determineUpdateType s = (Ok ty, s'))
  /\ isSemanticVersion "HEAD" = false
  /\ classify (Some "HEAD") "v1.0.0" = "major".
Proof.
  split; [| split; [exact determineUpdateType_returns | split; reflexivity]].
  intros cur tgt H. unfold classify.
  destruct (truthy_str cur); [| reflexivity]. simpl.
  destruct H as [H | H]; rewrite H; simpl; [reflexivity |].
  destruct (isSemanticVersion cur); reflexivity.
Qed.

Lemma classify_non_semver_major_witness :
  (isSemanticVersion "HEAD" = false \/ isSemanticVersion "v1.0.0" = false) /\
  classify (Some "HEAD") "v1.0.0" = "major".
Proof.
  split; [left; reflexivity |].
  apply (proj1 classify_non_semver_major "HEAD" "v1.0.0"). left. reflexivity.
Defined.

End VersionFacts.

(** ** Quality gates *)

Section GateFacts.

Import Gates.
Local Open Scope Q_scope.

Lemma geq_iff (a b : Q) : geq a b = true <-> b <= a.
Proof. unfold geq. apply Qle_bool_iff. Qed.

Lemma ltq_iff (a b : Q) : ltq a b = true <-> a < b.
Proof.
  unfold ltq. rewrite negb_true_iff.
  split; intros H.
  - apply Qnot_le_lt. intros Hle. apply Qle_bool_iff in Hle. congruence.
  - destruct (Qle_bool b a) eqn:E; [| reflexivity].
    apply Qle_bool_iff in E. exfalso. exact (Qlt_not_le _ _ H E).
Qed.

Lemma gtq_iff (a b : Q) : gtq a b = true <-> b < a.
Proof. unfold gtq. apply (ltq_iff b a). Qed.

(** Evaluation of the embedded code with the arithmetic left symbolic. *)
Ltac js_eval :=
  lazy -[Qmax Qmin Qplus Qminus Qmult Qdiv Qopp Qinv Qle Qlt Qeq inject_Z
         Z.eqb Qle_bool count_true geq gtq ltq Math_max Math_min
         decide_passed].

(** Every gate evaluator with the critical threshold decides [passed] by
    comparing the score it has just stored. *)
Lemma decide_passed_spec threshold collect g :
  exists g', decide_passed threshold collect g = (Ok tt, g') /\
             score g' = score g /\ passed g' = geq (score g) threshold.
Proof.
  unfold decide_passed, bind, gets, set_passed, set_issues, modify, ret. simpl.
  destruct (geq (score g) threshold); simpl; eexists; repeat split.
Qed.

(** C5. When its probes return, the score of the security gate is the
    number of its seven boolean checks that hold (security policy, safe
    ignore rules, environment example, no hardcoded secrets, no
    vulnerability, HTTPS enforced, authentication present) times 100/7,
    minus the smaller of five times the vulnerability count and 30, and
    not less than zero.  The gate has passed exactly when its score is at
    least 90; when a probe throws the score stays 0 and the gate has not
    passed. *)
Theorem security_gate_score :
  forall p : SecurityProbes,
    let g := evaluateSecurityGate new_ProductionQualityGates p in
    (forall (secureGitignore noHardcodedSecrets httpsEnforced hasAuth : bool)
            (vulnerabilityCount : Z),
        checkSecureGitignore p = Ok secureGitignore ->
        checkForHardcodedSecrets p = Ok noHardcodedSecrets ->
        checkVulnerabilities p = Ok vulnerabilityCount ->
        checkHttpsEnforcement p = Ok httpsEnforced ->
        checkAuthImplementation p = Ok hasAuth ->
        score g =
          Qmax 0
            (inject_Z (Z.b2z (existsSync_SECURITY_md p)
                       + Z.b2z secureGitignore
                       + Z.b2z (existsSync_env_example p)
                       + Z.b2z noHardcodedSecrets
                       + Z.b2z (vulnerabilityCount =? 0)%Z
                       + Z.b2z httpsEnforced
                       + Z.b2z hasAuth) * (100 / 7)
             - Qmin (inject_Z vulnerabilityCount * 5) 30))
    /\ (passed g = true <-> 90 <= score g)
    /\ (forall m, GateRules.security_first_throw p = Some m ->
                  score g = 0 /\ passed g = false).
Proof.
  intros p g. split; [| split].
  - intros b d e f v Hb Hd Hv He Hf. subst g.
    destruct p as [a pb c pd pv pe pf]. cbn in Hb, Hd, Hv, He, Hf. subst.
    unfold evaluateSecurityGate, try_gate, try_catch.
    js_eval.
    match goal with
    | |- context [decide_passed ?t ?c ?g0] =>
        destruct (decide_passed_spec t c g0) as (g' & -> & Hs & _)
    end.
    match goal with |- ?l = _ => change l with (score g') end.
    rewrite Hs.
    destruct a, b, c, d, e, f, (v =? 0)%Z; reflexivity.
  - subst g. unfold evaluateSecurityGate, try_gate, try_catch.
    destruct p as [a [b | eb] c [d | ed] [v | ev] [e | ee] [f | ef]];
      js_eval;
      try (split; [discriminate | intros H; apply Qle_bool_iff in H; discriminate]).
    match goal with
    | |- context [decide_passed ?t ?c ?g0] =>
        destruct (decide_passed_spec t c g0) as (g' & -> & Hs & Hp)
    end.
    change (passed g' = true <-> 90 <= score g').
    rewrite Hp, Hs. apply Qle_bool_iff.
  - intros m Hm. subst g.
    unfold evaluateSecurityGate, try_gate, try_catch.
    destruct p as [a [b | eb] c [d | ed] [v | ev] [e | ee] [f | ef]];
      try discriminate Hm; js_eval; split; reflexivity.
Qed.

Lemma security_gate_score_witness :
  score (evaluateSecurityGate new_ProductionQualityGates no_security_policy)
    == 600 # 7 /\
  passed (evaluateSecurityGate new_ProductionQualityGates no_security_policy)
    = false /\
  score (evaluateSecurityGate new_ProductionQualityGates two_vulnerabilities)
    == 530 # 7 /\
  passed (evaluateSecurityGate new_ProductionQualityGates two_vulnerabilities)
    = false.
Proof.
  destruct (security_gate_score no_security_policy) as (Hs1 & Hp1 & _).
  destruct (security_gate_score two_vulnerabilities) as (Hs2 & Hp2 & _).
  rewrite (Hs1 true true true true 0%Z eq_refl eq_refl eq_refl eq_refl eq_refl).
  rewrite (Hs2 true true true true 2%Z eq_refl eq_refl eq_refl eq_refl eq_refl).
  repeat split; vm_compute; reflexivity.
Defined.

(** *** The overall score *)

Lemma score_loop_sums gs results ts tw :
  fst (score_loop gs results (ts, tw)) == ts + Qsum (map scaled (present results gs)) /\
  snd (score_loop gs results (ts, tw)) == tw + Qsum (map weighed (present results gs)).
Proof.
  revert ts tw. induction gs as [| g gs IH]; intros ts tw.
  - simpl. split; ring.
  - cbn [score_loop present flat_map].
    destruct (obj_get (gateKey g) results) as [r |].
    + destruct (IH (ts + score r * weight g / 100) (tw + weight g)) as [H1 H2].
      cbn [app map]. unfold Qsum in *. cbn [foldr].
      split; [rewrite H1 | rewrite H2]; unfold present;
        [change (scaled (g, r)) with (score r * weight g / 100)
        | change (weighed (g, r)) with (weight g)]; ring.
    + apply IH.
Qed.

Lemma Qsum_scaled l : Qsum (map scaled l) == Qsum (map scored l) / 100.
Proof.
  induction l as [| x l IH]; simpl.
  - reflexivity.
  - rewrite IH. unfold scaled, scored. field.
Qed.

Lemma Qsum_weights_nonneg gs results :
  (forall g, In g gs -> 0 <= weight g) ->
  0 <= Qsum (map weighed (present results gs)).
Proof.
  intros H. induction gs as [| g gs IH]; simpl.
  - apply Qle_refl.
  - destruct (obj_get (gateKey g) results); simpl.
    + unfold weighed at 1. simpl.
      rewrite <- (Qplus_0_l 0) at 1.
      apply Qplus_le_compat; [apply H; left; reflexivity |].
      apply IH. intros g' Hg'. apply H. right. exact Hg'.
    + apply IH. intros g' Hg'. apply H. right. exact Hg'.
Qed.

(** In exact arithmetic the formula of [calculateOverallScore] is the
    weighted mean of the scores of the gates that have a result; what the
    doubles of the code make of it is the subject of the section on double
    arithmetic below. *)
Lemma exact_score_weighted_mean :
  (forall (this : QualityGates) (results : Obj GateResult),
      (forall g, In g (gates this) -> 0 <= weight g) ->
      calculateOverallScore this results == weighted_mean (gates this) results)
  /\ calculateOverallScore two_gates two_results == 125 # 2
  /\ (forall results,
        calculateOverallScore new_ProductionQualityGates results
        == weighted_mean (gates new_ProductionQualityGates) results).
Proof.
  assert (General : forall (this : QualityGates) (results : Obj GateResult),
      (forall g, In g (gates this) -> 0 <= weight g) ->
      calculateOverallScore this results == weighted_mean (gates this) results).
  { intros this results Hw.
    unfold calculateOverallScore, weighted_mean.
    destruct (score_loop_sums (gates this) results 0 0) as [H1 H2].
    destruct (score_loop (gates this) results (0, 0)) as [ts tw].
    cbn [fst snd] in H1, H2.
    rewrite Qplus_0_l in H1, H2. rewrite Qsum_scaled in H1.
    pose proof (Qsum_weights_nonneg (gates this) results Hw) as Hpos.
    set (N := Qsum (map scored (present results (gates this)))) in *.
    set (W := Qsum (map weighed (present results (gates this)))) in *.
    destruct (gtq tw 0) eqn:E.
    - apply gtq_iff in E. rewrite H2 in E.
      rewrite H1, H2. field. intros HW. rewrite HW in E.
      exact (Qlt_irrefl 0 E).
    - assert (HW : W == 0).
      { apply Qle_antisym; [| exact Hpos].
        rewrite <- H2. apply Qnot_lt_le. intros Hlt.
        apply gtq_iff in Hlt. congruence. }
      rewrite HW. unfold Qdiv. change (/ 0) with 0. ring. }
  split; [exact General |]. split; [reflexivity |].
  intros results. apply General.
  intros g Hg. simpl in Hg.
  destruct Hg as [<- | [<- | [<- | [<- | [<- | []]]]]]; discriminate.
Qed.

(** *** Deployability *)

Lemma critical_loop_iff gs results :
  critical_loop gs results = true <->
  (forall g, In g gs -> critical g = true ->
     exists r, obj_get (gateKey g) results = Some r /\ passed r = true).
Proof.
  induction gs as [| g gs IH]; cbn [critical_loop].
  - split; [intros _ g [] | reflexivity].
  - destruct (critical g) eqn:Hc.
    + destruct (obj_get (gateKey g) results) as [r |] eqn:Hr.
      * destruct (passed r) eqn:Hp; cbn [negb].
        -- rewrite IH. split.
           ++ intros H g' [<- | Hin] Hc'; [eauto | exact (H g' Hin Hc')].
           ++ intros H g' Hin. apply H. right. exact Hin.
        -- split; [discriminate |]. intros H.
           destruct (H g (or_introl eq_refl) Hc) as (r' & Hr' & Hp').
           congruence.
      * split; [discriminate |]. intros H.
        destruct (H g (or_introl eq_refl) Hc) as (r' & Hr' & _).
        congruence.
    + rewrite IH. split.
      * intros H g' [<- | Hin] Hc'; [congruence | exact (H g' Hin Hc')].
      * intros H g' Hin. apply H. right. exact Hin.
Qed.

Lemma canServiceDeploy_iff this ev :
  canServiceDeploy this ev = true <->
  minimumScore this <= overallScore ev /\
  critical_gates_passed this (gateResults ev).
Proof.
  unfold canServiceDeploy, critical_gates_passed.
  destruct (ltq (overallScore ev) (minimumScore this)) eqn:E.
  - apply ltq_iff in E. split; [discriminate |].
    intros [Hle _]. exfalso. exact (Qlt_not_le _ _ E Hle).
  - rewrite critical_loop_iff. split; [| tauto].
    intros H. split; [| exact H].
    apply Qnot_lt_le. intros Hlt. apply ltq_iff in Hlt. congruence.
Qed.

(** [collectIssues] writes to [criticalFailures] and [warnings] only, and
    does not throw. *)
Lemma issues_loop_frame this entries e :
  exists e', issues_loop this entries e = (Ok tt, e') /\
             overallScore e' = overallScore e /\
             canDeploy e' = canDeploy e /\
             gateResults e' = gateResults e.
Proof.
  revert e. induction entries as [| [key r] rest IH]; intros e.
  - exists e. repeat split.
  - cbn [issues_loop]. unfold bind.
    assert (Step : exists e1,
      (match issues r with
       | [] => ret tt
       | _ :: _ =>
           match List.find (fun g => String.eqb (gateKey g) key) (gates this) with
           | Some gate =>
               if critical gate && negb (passed r)
               then push_criticalFailures (issues r)
               else push_warnings (issues r)
           | None => push_warnings (issues r)
           end
       end) e = (Ok tt, e1) /\ overallScore e1 = overallScore e /\
      canDeploy e1 = canDeploy e /\ gateResults e1 = gateResults e).
    { destruct (issues r); [exists e; repeat split |].
      destruct (List.find _ _) as [gate |];
        [destruct (critical gate && negb (passed r)) |];
        eexists; repeat split. }
    destruct Step as (e1 & -> & H1 & H2 & H3).
    destruct (IH e1) as (e' & -> & H1' & H2' & H3').
    exists e'. repeat split; congruence.
Qed.

(** The evaluation when the five gates return. *)
Lemma evaluateServiceGates_on_ok this servicePath now r1 r2 r3 r4 r5 :
  exists ev,
    evaluateServiceGates_on this servicePath now
      {| security_outcome := Ok r1; stability_outcome := Ok r2;
         performance_outcome := Ok r3; contract_outcome := Ok r4;
         deployment_outcome := Ok r5 |} = Ok ev /\
    gateResults ev =
      [("security", r1); ("stability", r2); ("performance", r3);
       ("contract", r4); ("deployment", r5)] /\
    overallScore ev = calculateOverallScore this (gateResults ev) /\
    canDeploy ev = canServiceDeploy this ev.
Proof.
  unfold evaluateServiceGates_on, try_catch, evaluateServiceGates_try, collectIssues.
  lazy -[calculateOverallScore canServiceDeploy issues_loop].
  match goal with
  | |- context [issues_loop this ?l ?e] =>
      destruct (issues_loop_frame this l e) as (e' & -> & H1 & H2 & H3)
  end.
  exists e'. split; [reflexivity |].
  cbn [overallScore canDeploy gateResults] in H1, H2, H3.
  change (gateResults e' =
            [("security", r1); ("stability", r2); ("performance", r3);
             ("contract", r4); ("deployment", r5)] /\
          overallScore e' = calculateOverallScore this (gateResults e') /\
          canDeploy e' = canServiceDeploy this e').
  rewrite H3. repeat split; [congruence |].
  rewrite H2. unfold canServiceDeploy. rewrite H1, H3.
  cbn [overallScore gateResults]. reflexivity.
Qed.

(** When a gate evaluation throws, the evaluation keeps the score 0 and
    the flag [false] it started with. *)
Lemma thrown_cannot_deploy servicePath now o ev :
  evaluateServiceGates_on new_ProductionQualityGates servicePath now o = Ok ev ->
  fst (evaluateServiceGates_try new_ProductionQualityGates o
         (new_evaluation servicePath now)) <> Ok tt ->
  canDeploy ev = true <->
  80 <= overallScore ev /\
  critical_gates_passed new_ProductionQualityGates (gateResults ev).
Proof.
  unfold evaluateServiceGates_on, try_catch.
  destruct (evaluateServiceGates_try _ o _) as [[[] | e] ev1] eqn:E;
    [intros _ H; contradiction H; reflexivity |].
  intros [= <-] _.
  assert (Hs : overallScore ev1 = 0 /\ canDeploy ev1 = false).
  { revert E. unfold evaluateServiceGates_try.
    destruct o as [[r1 | e1] [r2 | e2] [r3 | e3] [r4 | e4] [r5 | e5]];
      [ intros E; exfalso; revert E; unfold collectIssues;
        lazy -[calculateOverallScore canServiceDeploy issues_loop];
        match goal with
        | |- context [issues_loop ?t ?l ?e0] =>
            destruct (issues_loop_frame t l e0) as (e' & -> & _)
        end; discriminate
      | lazy; intros [= _ <-]; split; reflexivity .. ]. }
  destruct Hs as [Hs Hc].
  cbn [push_criticalFailures modify snd overallScore canDeploy gateResults].
  rewrite Hs, Hc.
  split; [discriminate | intros [H _]; exfalso].
  apply (Qlt_not_le 0 80); [reflexivity | exact H].
Qed.

(** C1. A service can deploy exactly when its overall score is at least 80
    and every critical gate has a result that passed: this is what
    [canServiceDeploy] computes on any evaluation, and what every
    evaluation returned by [evaluateServiceGates] carries.  A critical gate
    that has not passed forbids deployment whatever the overall score; with
    four gates at 100 and the stability gate at 0 the overall score is 80
    and the service cannot deploy. *)
Theorem canDeploy_iff :
  (forall ev : Evaluation,
      canServiceDeploy new_ProductionQualityGates ev = true <->
      80 <= overallScore ev /\
      critical_gates_passed new_ProductionQualityGates (gateResults ev))
  /\ (forall servicePath now o ev,
        evaluateServiceGates_on new_ProductionQualityGates servicePath now o = Ok ev ->
        (canDeploy ev = true <->
         80 <= overallScore ev /\
         critical_gates_passed new_ProductionQualityGates (gateResults ev)))
  /\ (forall (ev : Evaluation) g r,
        In g (gates new_ProductionQualityGates) -> critical g = true ->
        obj_get (gateKey g) (gateResults ev) = Some r -> passed r = false ->
        canServiceDeploy new_ProductionQualityGates ev = false)
  /\ (exists ev,
        evaluateServiceGates_on new_ProductionQualityGates "svc" "now"
          stability_failed = Ok ev /\
        80 <= overallScore ev /\ canDeploy ev = false).
Proof.
  split; [| split; [| split]].
  - intros ev. apply (canServiceDeploy_iff new_ProductionQualityGates ev).
  - intros servicePath now [[r1 | e1] [r2 | e2] [r3 | e3] [r4 | e4] [r5 | e5]] ev;
      [ destruct (evaluateServiceGates_on_ok new_ProductionQualityGates
                    servicePath now r1 r2 r3 r4 r5) as (ev' & -> & _ & _ & Hc);
        intros [= <-]; rewrite Hc;
        apply (canServiceDeploy_iff new_ProductionQualityGates ev')
      | intros H; apply thrown_cannot_deploy in H; [exact H | lazy; discriminate] .. ].
  - intros ev g r Hin Hc Hr Hp.
    destruct (canServiceDeploy new_ProductionQualityGates ev) eqn:E; [| reflexivity].
    apply canServiceDeploy_iff in E. destruct E as [_ H].
    destruct (H g Hin Hc) as (r' & Hr' & Hp'). congruence.
  - eexists. split; [vm_compute; reflexivity |].
    split; [vm_compute; discriminate | reflexivity].
Qed.

Lemma canDeploy_iff_witness :
  match evaluateServiceGates_on new_ProductionQualityGates "svc" "now"
          stability_failed with
  | Ok ev =>
      canDeploy ev = true <->
      80 <= overallScore ev /\
      critical_gates_passed new_ProductionQualityGates (gateResults ev)
  | Throw _ => False
  end.
Proof.
  destruct (evaluateServiceGates_on new_ProductionQualityGates "svc" "now"
              stability_failed) as [ev | e] eqn:E.
  - exact (proj1 (proj2 canDeploy_iff) "svc" "now" stability_failed ev E).
  - vm_compute in E. discriminate E.
Defined.

(** *** Totality of the evaluation *)

(** C10. [evaluateServiceGates] always returns an evaluation, whatever the
    five gate evaluations do; when one of them throws, the evaluation
    returned has the message of the exception (after the words "Quality
    gate evaluation failed") as its one critical failure and cannot
    deploy. *)
Theorem evaluateServiceGates_total :
  forall (this : QualityGates) (servicePath now : string) (o : GateOutcomes),
  exists ev,
    evaluateServiceGates_on this servicePath now o = Ok ev /\
    ((exists m, raises o m) ->
     exists m, raises o m /\
       criticalFailures ev = ["Quality gate evaluation failed: " +:+ m] /\
       canDeploy ev = false).
Proof.
  intros this servicePath now o.
  destruct o as [[r1 | e1] [r2 | e2] [r3 | e3] [r4 | e4] [r5 | e5]];
    [ destruct (evaluateServiceGates_on_ok this servicePath now r1 r2 r3 r4 r5)
        as (ev & -> & _);
      exists ev; split; [reflexivity |];
      intros (m & [H | [H | [H | [H | H]]]]); discriminate H
    | eexists; split; [lazy; reflexivity |]; intros _;
      unfold raises;
      cbn [security_outcome stability_outcome performance_outcome
           contract_outcome deployment_outcome criticalFailures canDeploy];
      first [ exists e1; split; [tauto | split; reflexivity]
            | exists e2; split; [tauto | split; reflexivity]
            | exists e3; split; [tauto | split; reflexivity]
            | exists e4; split; [tauto | split; reflexivity]
            | exists e5; split; [tauto | split; reflexivity] ] .. ].
Qed.

Lemma evaluateServiceGates_total_witness :
  raises stability_throws "disk full" /\
  exists ev,
    evaluateServiceGates_on new_ProductionQualityGates "svc" "now"
      stability_throws = Ok ev /\
    exists m, raises stability_throws m /\
      criticalFailures ev = ["Quality gate evaluation failed: " +:+ m] /\
      canDeploy ev = false.
Proof.
  assert (R : raises stability_throws "disk full") by (right; left; reflexivity).
  split; [exact R |].
  destruct (evaluateServiceGates_total new_ProductionQualityGates "svc" "now"
              stability_throws) as (ev & E & H).
  exists ev. split; [exact E |]. apply H. exists "disk full". exact R.
Defined.

End GateFacts.

(** ** The updater *)

Section UpdaterFacts.

Import Shell Updater.

(** *** The batch *)

Lemma sort_two_throws (a b : UpdateRequest) (rest : list UpdateRequest) :
  sort compareRisk (a :: b :: rest) = Throw (TypeError_undefined "riskLevel").
Proof. reflexivity. Qed.

(** With two requests or more the comparison function runs, looks up the
    strategy of the update type medium, finds none and throws: no request
    is processed. *)
Lemma batchUpdate_two_or_more (a b : UpdateRequest) rest options s :
  batchUpdate (a :: b :: rest) options s
  = (Throw (TypeError_undefined "riskLevel"), s).
Proof. reflexivity. Qed.

(** C8 (the code departs from it).  A batch asking for a major update of
    web and then a patch update of api: the risk levels differ (high and
    low), so the patch should run first; the batch throws in the sort and
    runs neither. *)
Theorem batchUpdate_sort_throws :
  let web := {| req_submodule := "web"; req_targetVersion := "v2.0.0" |} in
  let api := {| req_submodule := "api"; req_targetVersion := "v1.0.1" |} in
  riskLevel <$> Gates.obj_get (Version.classify (Some "v1.0.0") "v2.0.0")
                  updateStrategies = Some "high" /\
  riskLevel <$> Gates.obj_get (Version.classify (Some "v1.0.0") "v1.0.1")
                  updateStrategies = Some "low" /\
  batchUpdate [web; api] no_options example_state
  = (Throw "Cannot read properties of undefined (reading 'riskLevel')",
     example_state).
Proof. repeat split. Qed.

(** *** One update *)

Ltac js_run :=
  lazy beta iota zeta delta
    [bind ret throw await get gets modify try_catch
     updateSubmodule updateSubmodule_try start_update preUpdateValidation
     existsSync execQuiet execQuiet_trim execCommand run in_module
     update_context set_context set_world set_stack set_modules set_parent
     set_head with_currentCommit with_targetCommit with_updateType
     with_validationResults with_rollbackPoint new_context
     getCurrentVersion determineUpdateType handleUpdateFailure rollbackUpdate
     world rollbackStack context
     submodule targetVersion startTime currentCommit targetCommit updateType
     validationResults rollbackPoint approved
     submoduleCommit parentCommit rp_timestamp branch
     modules parent_log parent_branch next_commits submodule_list clock
     mod_head mod_diff_quiet mod_tag_listed mod_resolve mod_rev_parse mod_describe
     mod_fetch_ok mod_npm_ci_ok mod_facts
     negb andb orb truthy fst snd].

Ltac js_run_in H :=
  lazy beta iota zeta delta
    [bind ret throw await get gets modify try_catch
     updateSubmodule updateSubmodule_try start_update preUpdateValidation
     existsSync execQuiet execQuiet_trim execCommand run in_module
     update_context set_context set_world set_stack set_modules set_parent
     set_head with_currentCommit with_targetCommit with_updateType
     with_validationResults with_rollbackPoint new_context
     getCurrentVersion determineUpdateType handleUpdateFailure rollbackUpdate
     world rollbackStack context
     submodule targetVersion startTime currentCommit targetCommit updateType
     validationResults rollbackPoint approved
     submoduleCommit parentCommit rp_timestamp branch
     modules parent_log parent_branch next_commits submodule_list clock
     mod_head mod_diff_quiet mod_tag_listed mod_resolve mod_rev_parse mod_describe
     mod_fetch_ok mod_npm_ci_ok mod_facts
     negb andb orb truthy fst snd] in H.

(** [handleUpdateFailure] runs [rollbackUpdate] and swallows what it
    throws. *)
Lemma handleUpdateFailure_returns e s :
  handleUpdateFailure e s = (Ok tt, snd (rollbackUpdate s)).
Proof.
  unfold handleUpdateFailure, try_catch, ret.
  destruct (rollbackUpdate s) as [[[] | e'] s']; reflexivity.
Qed.

Lemma updateSubmodule_unfold sub tv options s :
  updateSubmodule sub tv options s =
  match updateSubmodule_try options (start_update sub tv s) with
  | (Ok c, s1) => (Ok c, s1)
  | (Throw e, s1) => (Throw e, snd (rollbackUpdate s1))
  end.
Proof.
  unfold updateSubmodule, start_update, bind, gets, modify, try_catch, throw.
  destruct (updateSubmodule_try options _) as [[c | e] s1]; [reflexivity |].
  rewrite handleUpdateFailure_returns. reflexivity.
Qed.

(** C6 (the code departs from it).  The cleanliness probe of pre-update
    validation is [!execQuiet("... git diff --quiet && git diff --cached
    --quiet")].  The command prints nothing: on a clean module [execQuiet]
    returns the empty string, on a dirty one [null], and both are falsy.
    So whenever the probe is silent, as git's is, every update of an
    existing module, whatever its type and with or without approval, ends
    with the error of uncommitted changes, before the update type is
    looked at; nothing is changed. *)
Theorem quiet_probe_preempts_approval :
  forall (sub tv : string) (options : Options) (s : State) (ms : ModuleState),
    modules (world s) !! sub = Some ms ->
    truthy (mod_diff_quiet ms) = false ->
    exists s',
      updateSubmodule sub tv options s
      = (Throw ("Submodule " +:+ sub +:+ " has uncommitted changes"), s') /\
      world s' = world s /\
      rollbackStack s' = rollbackStack s /\
      rollbackPoint (context s') = None.
Proof.
  intros sub tv options [[mods plog pbr next subs clk] stack ctx]
         [head dq tl res rv descr fetch npm facts].
  cbn [world modules mod_diff_quiet]. intros Hm Hq.
  destruct dq as [[| c0 q] |]; try discriminate Hq;
    js_run; repeat (progress (rewrite ?Hm); js_run);
    (eexists; split; [reflexivity | repeat split]).
Qed.

(** The scenario of the design document: web is clean, checked out at
    v1.0.0, and v2.0.0 exists; the update is a major one, whose strategy
    requires approval, and no approval is given.  The outcome is the error
    of uncommitted changes, not the rejection for lack of approval. *)
Lemma quiet_probe_preempts_approval_witness :
  (requiresApproval <$> Gates.obj_get (Version.classify (Some "v1.0.0") "v2.0.0")
                          updateStrategies) = Some true /\
  exists s',
    updateSubmodule "web" "v2.0.0" no_options git_state
    = (Throw "Submodule web has uncommitted changes", s') /\
    world s' = world git_state /\
    rollbackStack s' = rollbackStack git_state /\
    rollbackPoint (context s') = None.
Proof.
  split; [reflexivity |].
  apply (quiet_probe_preempts_approval "web" "v2.0.0" no_options git_state
           (git_module "aaaaaaaaaa")); reflexivity.
Defined.

(** *** Failure of an update *)

(** C9 as stated fails here.  A caller fills in a context for web whose
    current commit the module does not have and makes the rollback point;
    the restore of that context then fails in its checkout, and the
    failure handler returns as if nothing had happened: the failure of the
    restore itself reaches no caller.  Likewise inside [updateSubmodule]:
    the update of web on a repository as git shows it fails in validation,
    the restore that the handler attempts fails for want of a rollback
    point, and the caller gets the error of the validation. *)
Lemma rollback_error_is_swallowed :
  let s1 := snd (createRollbackPoint web_unknown_commit) in
  fst (createRollbackPoint web_unknown_commit) = Ok tt /\
  is_Some (rollbackPoint (context s1)) /\
  fst (rollbackUpdate s1)
  = Throw ("Command failed: cd web && git checkout 0000000000" +:+ nl
             +:+ "Command failed: cd web && git checkout 0000000000") /\
  fst (handleUpdateFailure "Checkout verification failed" s1) = Ok tt /\
  fst (rollbackUpdate
         (snd (updateSubmodule_try no_options
                 (start_update "web" "v2.0.0" git_state))))
  = Throw "No rollback point available" /\
  fst (updateSubmodule "web" "v2.0.0" no_options git_state)
  = Throw "Submodule web has uncommitted changes".
Proof.
  vm_compute. repeat split. eexists. reflexivity.
Qed.

(** Hence the claim that a failure of the restore escapes, in general,
    does not hold. *)
Lemma rollback_error_does_not_escape : ~ rollback_error_escapes.
Proof.
  intros H.
  specialize (H "Checkout verification failed"
                (snd (createRollbackPoint web_unknown_commit))
                ("Command failed: cd web && git checkout 0000000000" +:+ nl
                   +:+ "Command failed: cd web && git checkout 0000000000")
                (snd (rollbackUpdate (snd (createRollbackPoint web_unknown_commit))))).
  assert (Hok : fst (handleUpdateFailure "Checkout verification failed"
                       (snd (createRollbackPoint web_unknown_commit))) = Ok tt)
    by (vm_compute; reflexivity).
  rewrite Hok in H.
  assert (Hno : Ok tt <> Throw (A := unit)
                  ("Command failed: cd web && git checkout 0000000000" +:+ nl
                     +:+ "Command failed: cd web && git checkout 0000000000"))
    by discriminate.
  apply Hno, H.
  - vm_compute. discriminate.
  - vm_compute. reflexivity.
Qed.

(** C9, amended.  A failing update runs [rollbackUpdate] once, on the
    state the failure left, and then throws the error of the failure
    itself to the caller, whether the rollback succeeded or not; what
    [rollbackUpdate] throws is caught and never reaches the caller. *)
Theorem update_failure_rethrows :
  forall (sub tv : string) (options : Options) (s : State),
    (forall e s',
        updateSubmodule sub tv options s = (Throw e, s') <->
        exists s1,
          updateSubmodule_try options (start_update sub tv s) = (Throw e, s1) /\
          s' = snd (rollbackUpdate s1))
    /\ (forall e s1, handleUpdateFailure e s1 = (Ok tt, snd (rollbackUpdate s1))).
Proof.
  intros sub tv options s. split; [| intros; apply handleUpdateFailure_returns].
  intros e s'. rewrite updateSubmodule_unfold.
  destruct (updateSubmodule_try options (start_update sub tv s)) as [[c | e0] s1].
  - split; [discriminate | intros (s1' & [=] & _)].
  - split.
    + intros [= <- <-]. exists s1. split; reflexivity.
    + intros (s1' & [= <- <-] & ->). reflexivity.
Qed.

Lemma update_failure_rethrows_witness :
  exists s1,
    updateSubmodule_try no_options (start_update "web" "v2.0.0" git_state)
    = (Throw "Submodule web has uncommitted changes", s1) /\
    snd (updateSubmodule "web" "v2.0.0" no_options git_state)
    = snd (rollbackUpdate s1).
Proof.
  apply (proj1 (proj1 (update_failure_rethrows "web" "v2.0.0" no_options
                         git_state)
                  "Submodule web has uncommitted changes" _)).
  vm_compute. reflexivity.
Defined.

(** *** Restoring twice *)

(** C7 as stated fails here.  After the update of api has succeeded, its
    rollback point is still on the stack.  The update of web then fails; the first restore of web
    succeeds and pops the rollback point of web; a second restore of the
    same context succeeds too, leaves the references alone, and pops the
    rollback point of api. *)
Lemma second_restore_pops_again :
  let once := snd (rollbackUpdate (snd web_failing)) in
  let twice := snd (rollbackUpdate once) in
  fst (rollbackUpdate (snd web_failing)) = Ok tt /\
  fst (rollbackUpdate once) = Ok tt /\
  length (rollbackStack once) = 1%nat /\
  rollbackStack twice = [] /\
  rollbackStack twice <> rollbackStack once.
Proof.
  vm_compute. repeat split. discriminate.
Qed.

(** Hence the claim of idempotence, in general, does not hold. *)
Lemma restore_is_not_idempotent : ~ restore_is_idempotent.
Proof.
  intros H.
  destruct (H (snd web_failing)
              (snd (rollbackUpdate (snd web_failing)))
              (fst (rollbackUpdate (snd (rollbackUpdate (snd web_failing)))))
              (snd (rollbackUpdate (snd (rollbackUpdate (snd web_failing))))))
    as (_ & _ & _ & Hstack).
  - vm_compute. reflexivity.
  - destruct (rollbackUpdate (snd (rollbackUpdate (snd web_failing)))).
    reflexivity.
  - revert Hstack. vm_compute. discriminate.
Qed.

Lemma removelast_shorter {A} (x : A) (l : list A) : removelast (x :: l) <> x :: l.
Proof.
  revert x. induction l as [| y l IH]; intros x H.
  - discriminate H.
  - cbn [removelast] in H. injection H as H. exact (IH y H).
Qed.

Lemma removelast_fixed {A} (l : list A) : removelast l = l <-> l = [].
Proof.
  split; [| intros ->; reflexivity].
  destruct l as [| x l]; [reflexivity |].
  intros H. destruct (removelast_shorter x l H).
Qed.

(** C7, amended.  After one successful restore, when the parent reference
    is the snapshotted one, a second restore of the same context does not
    throw and leaves the world (module and parent references with it) and
    the context as they are; it pops the rollback stack once more, so the
    stack is unchanged only when it is empty. *)
Theorem second_restore :
  forall (s s1 : State) (rp : RollbackPoint),
    rollbackPoint (context s) = Some rp ->
    rollbackUpdate s = (Ok tt, s1) ->
    parent_at (world s1) (parentCommit rp) ->
    exists s2,
      rollbackUpdate s1 = (Ok tt, s2) /\
      world s2 = world s1 /\
      context s2 = context s1 /\
      rollbackStack s2 = removelast (rollbackStack s1) /\
      (rollbackStack s2 = rollbackStack s1 <-> rollbackStack s1 = []).
Proof.
  enough (Core : forall (s s1 : State) (rp : RollbackPoint),
    rollbackPoint (context s) = Some rp ->
    rollbackUpdate s = (Ok tt, s1) ->
    parent_at (world s1) (parentCommit rp) ->
    exists s2,
      rollbackUpdate s1 = (Ok tt, s2) /\
      world s2 = world s1 /\
      context s2 = context s1 /\
      rollbackStack s2 = removelast (rollbackStack s1)).
  { intros s s1 rp Hrp H1 Hp.
    destruct (Core s s1 rp Hrp H1 Hp) as (s2 & E & Hw & Hx & Hs).
    exists s2. repeat split; try assumption.
    - rewrite Hs. apply removelast_fixed.
    - rewrite Hs. apply removelast_fixed. }
  intros [[mods plog pbr next subs clk] stack
          [sub tv t0 cur tgt ty vr orp app]] s1 rp Hrp H1 (h & rest & Hlog & Hh).
  cbn [context rollbackPoint] in Hrp. subst orp.
  destruct rp as [sc pc ts br]. cbn [parentCommit] in *.
  js_run_in H1.
  destruct (mods !! sub) as [[head dq tl res rv descr fetch npm facts] |] eqn:Hm;
    js_run_in H1; [| discriminate H1].
  destruct (res !! js_str sc) as [c |] eqn:Hc;
    js_run_in H1; [| discriminate H1].
  set (ms' := {| mod_head := c; mod_diff_quiet := dq; mod_tag_listed := tl;
                 mod_resolve := res; mod_rev_parse := rv; mod_describe := descr;
                 mod_fetch_ok := fetch; mod_npm_ci_ok := npm;
                 mod_facts := facts |}) in *.
  assert (Again : forall plog' next' stack',
    plog' = h :: rest ->
    exists s2,
      rollbackUpdate
        {| world := {| modules := <[sub := ms']> mods; parent_log := plog';
                       parent_branch := pbr; next_commits := next';
                       submodule_list := subs; clock := clk |};
           rollbackStack := stack';
           context := {| submodule := sub; targetVersion := tv; startTime := t0;
                         currentCommit := cur; targetCommit := tgt;
                         updateType := ty; validationResults := vr;
                         rollbackPoint :=
                           Some {| submoduleCommit := sc; parentCommit := pc;
                                   rp_timestamp := ts; branch := br |}; approved := app |} |}
      = (Ok tt, s2) /\
      world s2 = {| modules := <[sub := ms']> mods; parent_log := plog';
                    parent_branch := pbr; next_commits := next';
                    submodule_list := subs; clock := clk |} /\
      context s2 = {| submodule := sub; targetVersion := tv; startTime := t0;
                      currentCommit := cur; targetCommit := tgt;
                      updateType := ty; validationResults := vr;
                      rollbackPoint :=
                           Some {| submoduleCommit := sc; parentCommit := pc;
                                   rp_timestamp := ts; branch := br |}; approved := app |} /\
      rollbackStack s2 = removelast stack').
  { intros plog' next' stack' ->. js_run.
    rewrite lookup_insert_eq. subst ms'. js_run. rewrite Hc. js_run.
    rewrite Hh. rewrite bool_decide_eq_true_2 by reflexivity. js_run.
    rewrite insert_insert_eq.
    eexists. split; [reflexivity |]. repeat split. }
  destruct plog as [| p plog]; js_run_in H1; [discriminate H1 |].
  destruct (bool_decide (trim (line p) = pc)); js_run_in H1.
  - injection H1 as <-. cbn [world parent_log] in Hlog.
    exact (Again (p :: plog) next (removelast stack) Hlog).
  - destruct plog as [| p' plog]; js_run_in H1; [discriminate H1 |].
    injection H1 as <-. cbn [world parent_log] in Hlog.
    exact (Again (p' :: plog) next (removelast stack) Hlog).
Qed.

Lemma second_restore_witness :
  exists s2,
    rollbackUpdate (snd (rollbackUpdate (snd web_failing))) = (Ok tt, s2) /\
    world s2 = world (snd (rollbackUpdate (snd web_failing))) /\
    context s2 = context (snd (rollbackUpdate (snd web_failing))) /\
    rollbackStack s2
    = removelast (rollbackStack (snd (rollbackUpdate (snd web_failing)))) /\
    (rollbackStack s2 = rollbackStack (snd (rollbackUpdate (snd web_failing)))
     <-> rollbackStack (snd (rollbackUpdate (snd web_failing))) = []).
Proof.
  apply (second_restore (snd web_failing)
           (snd (rollbackUpdate (snd web_failing)))
           {| submoduleCommit := Some "aaaaaaaaaa"; parentCommit := "p2";
              rp_timestamp := "2025-01-01T00:00:00.000Z"; branch := "main" |}).
  - vm_compute. reflexivity.
  - vm_compute. reflexivity.
  - exists "p2", ["p1"; "p0"]. split; vm_compute; reflexivity.
Defined.

End UpdaterFacts.

From Stdlib Require Import Lqa Qpower.

(** ** The overall score in double arithmetic *)

Section DoubleFacts.

Import Gates Doubles.
Local Open Scope Q_scope.














End DoubleFacts.

(** * Further properties of the code *)

From Stdlib Require Import Lqa.

(** ** The five gates *)

Section GateRulesFacts.

Import Gates GateRules.
Local Open Scope Q_scope.

Ltac gate_eval :=
  lazy -[Qmax Qmin Qplus Qminus Qmult Qdiv Qopp Qinv Qle Qlt Qeq inject_Z
         Z.eqb Qle_bool count_true geq gtq ltq Math_max Math_min
         decide_passed hasVersion].

Lemma decide_passed_stub threshold (collect : Obj Val -> list string) g :
  (forall c, collect c = []) ->
  issues g = [] ->
  exists g', decide_passed threshold collect g = (Ok tt, g') /\
             score g' = score g /\ passed g' = geq (score g) threshold /\
             issues g' = [] /\ gname g' = gname g /\ checks g' = checks g.
Proof.
  intros Hc Hi.
  unfold decide_passed, bind, gets, set_passed, set_issues, modify, ret. simpl.
  destruct (geq (score g) threshold); simpl; eexists; repeat split;
    simpl; auto.
Qed.

Lemma security_gate_returns policy gitignore envExample noSecrets v https auth :
  let g := evaluateSecurityGate new_ProductionQualityGates
             (security_probes_ok policy gitignore envExample noSecrets v https auth) in
  score g = Math_max 0
              (count_true [policy; gitignore; envExample; noSecrets;
                           (v =? 0)%Z; https; auth] * (100 / 7)
               - Math_min (inject_Z v * 5) 30) /\
  passed g = geq (score g) 90 /\
  issues g = [].
Proof.
  intros g. subst g.
  unfold evaluateSecurityGate, try_gate, try_catch, security_probes_ok.
  gate_eval.
  match goal with
  | |- context [decide_passed ?t ?c ?g0] =>
      destruct (decide_passed_stub t c g0) as (g' & -> & Hs & Hp & Hi & _);
        [reflexivity | reflexivity |]
  end.
  change (score g' = Math_max 0
              (count_true [policy; gitignore; envExample; noSecrets;
                           (v =? 0)%Z; https; auth] * (100 / 7)
               - Math_min (inject_Z v * 5) 30) /\
          passed g' = geq (score g') 90 /\ issues g' = []).
  rewrite Hp, Hs. repeat split. exact Hi.
Qed.

Lemma count_true_le (l : list bool) : count_true l <= inject_Z (Z.of_nat (length l)).
Proof.
  unfold count_true. rewrite <- Zle_Qle. apply inj_le.
  induction l as [| b l IH]; [reflexivity |].
  rewrite filter_cons. destruct (decide (b = true)); cbn [length]; lia.
Qed.

Lemma geq_false_below (x t : Q) : x < t -> geq x t = false.
Proof.
  intros H. unfold geq. destruct (Qle_bool t x) eqn:E; [| reflexivity].
  apply Qle_bool_iff in E. exfalso. exact (Qlt_not_le _ _ H E).
Qed.

(** X1. With a vulnerability count that is not negative, the security gate
    passes exactly when its seven checks all hold; any vulnerability fails
    it. *)
Theorem security_gate_passes_iff :
  forall (policy gitignore envExample noSecrets https auth : bool) (v : Z),
    (0 <= v)%Z ->
    passed (evaluateSecurityGate new_ProductionQualityGates
              (security_probes_ok policy gitignore envExample noSecrets v https auth))
    = policy && gitignore && envExample && noSecrets && (v =? 0)%Z && https && auth.
Proof.
  intros policy gitignore envExample noSecrets https auth v Hv.
  destruct (security_gate_returns policy gitignore envExample noSecrets v https auth)
    as (Hs & Hp & _).
  rewrite Hp, Hs. clear Hs Hp.
  destruct (Z.eqb_spec v 0) as [-> | Hne].
  - destruct policy, gitignore, envExample, noSecrets, https, auth; reflexivity.
  - replace (policy && gitignore && envExample && noSecrets && false && https && auth)
      with false by (destruct policy, gitignore, envExample, noSecrets; reflexivity).
    apply geq_false_below. unfold Math_max, Math_min.
    apply Q.max_lub_lt; [reflexivity |].
    assert (Hc : count_true [policy; gitignore; envExample; noSecrets; false; https; auth]
                 <= 6).
    { destruct policy, gitignore, envExample, noSecrets, https, auth;
        vm_compute; discriminate. }
    assert (Hpen : 0 <= Qmin (inject_Z v * 5) 30).
    { apply Q.min_glb; [| discriminate].
      pose proof Hv as Hq. rewrite Zle_Qle in Hq.
      change (inject_Z 0) with 0 in Hq. lra. }
    set (c := count_true _) in *. set (m := Qmin _ _) in *.
    clearbody c m. change (100 / 7) with (100 # 7). lra.
Qed.

Lemma security_gate_passes_iff_witness :
  (0 <= 2)%Z /\
  passed (evaluateSecurityGate new_ProductionQualityGates
            (security_probes_ok true true true true 2 true true))
  = true && true && true && true && (2 =? 0)%Z && true && true.
Proof.
  split; [lia |].
  apply (security_gate_passes_iff true true true true true true 2). lia.
Defined.

(** X2. When a probe of the security gate throws, the gate keeps the score
    0, has not passed, and its one issue is the message of the exception;
    when every probe returns, the gate reports no issue, whatever its
    score. *)
Theorem security_gate_issues :
  forall p : SecurityProbes,
    let g := evaluateSecurityGate new_ProductionQualityGates p in
    match security_first_throw p with
    | Some m =>
        score g = 0 /\ passed g = false /\
        issues g = ["Security evaluation failed: " +:+ m]
    | None => issues g = []
    end.
Proof.
  intros [a [b | eb] c [d | ed] [v | ev] [e | ee] [f | ef]];
    [ exact (proj2 (proj2 (security_gate_returns a b c d v e f)))
    | unfold evaluateSecurityGate, try_gate, try_catch, security_first_throw;
      gate_eval; repeat split .. ].
Qed.

Lemma stability_gate_returns tag tests coverage build errors rollback health :
  let g := evaluateStabilityGate new_ProductionQualityGates
             (stability_probes_ok tag tests coverage build errors rollback health) in
  score g = 0 + (if tag then 20 else 0) + (if tests then 15 else 0)
            + Math_min coverage 20 + (if build then 15 else 0)
            + (if errors then 10 else 0) + (if rollback then 10 else 0)
            + (if health then 10 else 0) /\
  passed g = geq (score g) 90 /\
  issues g = [].
Proof.
  intros g. subst g.
  unfold evaluateStabilityGate, try_gate, try_catch, stability_probes_ok.
  destruct tag; gate_eval;
    match goal with
    | |- context [decide_passed ?t ?c ?g0] =>
        destruct (decide_passed_stub t c g0) as (g' & -> & Hs & Hp & Hi & _);
          [reflexivity | reflexivity |]
    end;
    match goal with
    | |- ?a = ?x /\ ?b = ?y /\ ?c = _ =>
        change (score g' = x /\ passed g' = geq (score g') 90 /\ issues g' = [])
    end;
    rewrite Hp, Hs; repeat split; exact Hi.
Qed.

(** X3. Whatever the test coverage, the stability gate cannot pass without
    a stable tag, tests and a passing build. *)
Theorem stability_gate_needs :
  forall (tag tests build errors rollback health : bool) (coverage : Q),
    passed (evaluateStabilityGate new_ProductionQualityGates
              (stability_probes_ok tag tests coverage build errors rollback health))
    = true ->
    tag = true /\ tests = true /\ build = true.
Proof.
  intros tag tests build errors rollback health coverage.
  destruct (stability_gate_returns tag tests coverage build errors rollback health)
    as (Hs & Hp & _).
  rewrite Hp, Hs. clear Hs Hp. intros H. apply geq_iff in H.
  unfold Math_min in H.
  pose proof (Q.le_min_r coverage 20) as Hm.
  set (m := Qmin coverage 20) in *. clearbody m.
  destruct tag, tests, build; try (repeat split; reflexivity); exfalso;
    destruct errors, rollback, health; lra.
Qed.

Lemma stability_gate_needs_witness :
  passed (evaluateStabilityGate new_ProductionQualityGates
            (stability_probes_ok true true 80 true true false true)) = true /\
  true = true /\ true = true /\ true = true.
Proof.
  split; [vm_compute; reflexivity |].
  apply (stability_gate_needs true true true true false true 80).
  vm_compute. reflexivity.
Defined.

(** X4. With the measurements the source hard-codes (coverage 80; build,
    error handling, rollback and health endpoint all fine) the stability
    gate scores 65, plus 20 for a stable tag and 15 for tests, and passes
    exactly when the service has both. *)
Theorem stability_gate_as_written :
  forall f : ServiceFacts,
    let g := evaluateStabilityGate new_ProductionQualityGates (stability_probes f) in
    score g == 65 + (if fact_stableTag f then 20 else 0)
                  + (if fact_tests f then 15 else 0) /\
    passed g = fact_stableTag f && fact_tests f.
Proof.
  intros f. destruct f as [a b c d v tag tests ct pj df].
  cbn [fact_stableTag fact_tests].
  destruct tag, tests; vm_compute; split; reflexivity.
Qed.

(** X5. The performance gate starts from 85 and loses 15 for a bundle over
    5000000 bytes, 10 for a build over 300 seconds and 5 for more than 50
    dependencies.  It fails exactly when the bundle is too large and the
    build is too slow or the dependencies too many; every limit exceeded is
    listed as an issue, also when the gate passes. *)
Theorem performance_gate_verdict :
  forall (bundleSize buildTime dependencyCount : Q) (lazyLoading : bool),
    let g := evaluatePerformanceGate new_ProductionQualityGates
               (performance_probes_ok bundleSize buildTime dependencyCount
                  lazyLoading) in
    let large := gtq bundleSize 5000000 in
    let slow := gtq buildTime 300 in
    let many := gtq dependencyCount 50 in
    score g == 85 - (if large then 15 else 0) - (if slow then 10 else 0)
                  - (if many then 5 else 0) /\
    passed g = negb (large && (slow || many)) /\
    issues g = ((if large then ["Large bundle size detected"] else [])
                ++ (if slow then ["Build time exceeds 5 minutes"] else [])
                ++ (if many then ["High dependency count"] else []))%list.
Proof.
  intros bundleSize buildTime dependencyCount lazyLoading.
  unfold evaluatePerformanceGate, try_gate, try_catch, performance_probes_ok.
  cbv zeta.
  destruct (gtq bundleSize 5000000) eqn:E1, (gtq buildTime 300) eqn:E2,
           (gtq dependencyCount 50) eqn:E3;
    gate_eval; rewrite ?E1, ?E2, ?E3; gate_eval;
    repeat split.
Qed.

(** X6. When a probe of the performance gate throws, the gate keeps the
    score 85 and the verdict passed it started with, and has the message of
    the exception as its one issue. *)
Theorem performance_gate_throw_passes :
  forall p : PerformanceProbes,
    let g := evaluatePerformanceGate new_ProductionQualityGates p in
    match performance_first_throw p with
    | Some m =>
        score g = 85 /\ passed g = true /\
        issues g = ["Performance evaluation failed: " +:+ m]
    | None => True
    end.
Proof.
  intros [[b | eb] [t | et] [d | ed] [l | el]];
    unfold evaluatePerformanceGate, try_gate, try_catch, performance_first_throw;
    cbn [checkBundleSize measureBuildTime countDependencies checkLazyLoading];
    try exact I; gate_eval; repeat split.
Qed.

Lemma contract_gate_returns (c : ContractResult) :
  let g := evaluateContractGate new_ProductionQualityGates (Ok c) in
  score g = 0 + (if hasContract c then 30 else 0) + (if isValid c then 25 else 0)
            + Math_min (compatibilityScore c) 25
            + (if hasVersion c then 10 else 0)
            + (if (length (breakingChanges c) =? 0)%nat then 10 else 0) /\
  passed g = geq (score g) 90 /\
  issues g = [].
Proof.
  intros g. subst g. destruct c as [hc iv cs bc ver].
  unfold evaluateContractGate, try_gate, try_catch, hasVersion.
  gate_eval.
  match goal with
  | |- context [decide_passed ?t ?c ?g0] =>
      destruct (decide_passed_stub t c g0) as (g' & -> & Hs & Hp & Hi & _);
        [reflexivity | reflexivity |]
  end.
  match goal with
  | |- ?a = ?x /\ ?b = ?y /\ ?c = _ =>
      change (score g' = x /\ passed g' = geq (score g') 90 /\ issues g' = [])
  end.
  rewrite Hp, Hs. repeat split. exact Hi.
Qed.

(** X7. With a compatibility score of 25 or more, the contract gate passes
    exactly when the service has a contract, the contract is valid and
    either it states a version or there is no breaking change: a contract
    with breaking changes passes when it states its version. *)
Theorem contract_gate_passes_iff :
  forall c : ContractResult,
    25 <= compatibilityScore c ->
    passed (evaluateContractGate new_ProductionQualityGates (Ok c))
    = hasContract c && isValid c
      && (hasVersion c || (length (breakingChanges c) =? 0)%nat).
Proof.
  intros c Hc.
  destruct (contract_gate_returns c) as (Hs & Hp & _).
  rewrite Hp, Hs. clear Hs Hp. unfold Math_min.
  pose proof (Q.min_r (compatibilityScore c) 25 Hc) as Hm.
  set (m := Qmin (compatibilityScore c) 25) in *. clearbody m.
  destruct (hasContract c), (isValid c), (hasVersion c),
           (length (breakingChanges c) =? 0)%nat; cbn [andb orb];
    first [ apply geq_iff; lra | apply geq_false_below; lra ].
Qed.

Lemma contract_gate_passes_iff_witness :
  let c := {| hasContract := true; isValid := true; compatibilityScore := 80;
              breakingChanges := ["Field type changed"]; version := Some "2.0.0" |} in
  25 <= compatibilityScore c /\
  passed (evaluateContractGate new_ProductionQualityGates (Ok c)) = true.
Proof.
  intros c. split; [discriminate |].
  refine (contract_gate_passes_iff c _). discriminate.
Defined.

Lemma deployment_gate_returns pkg build start config docker env health prod :
  let g := evaluateDeploymentGate new_ProductionQualityGates
             (deployment_probes_ok pkg build start config docker env health prod) in
  passed g = pkg && build && start && config && env && health && prod /\
  score g == count_true [pkg; build; start; config; env; health; prod] * 100 / 7 /\
  issues g = [].
Proof.
  destruct pkg, build, start, config, docker, env, health, prod;
    vm_compute; repeat split.
Qed.

(** X8. The deployment gate passes exactly when its seven counted checks
    all hold (six of seven score 85.7); the presence of a Dockerfile is
    recorded among the checks and changes neither score nor verdict. *)
Theorem deployment_gate_passes_iff :
  forall pkg build start config docker env health prod : bool,
    let g := evaluateDeploymentGate new_ProductionQualityGates
               (deployment_probes_ok pkg build start config docker env health prod) in
    passed g = pkg && build && start && config && env && health && prod /\
    score g == count_true [pkg; build; start; config; env; health; prod] * 100 / 7 /\
    obj_get "hasDockerfile" (checks g) = Some (VBool docker).
Proof.
  intros pkg build start config docker env health prod.
  destruct pkg, build, start, config, docker, env, health, prod;
    vm_compute; repeat split.
Qed.

(** *** Bounds *)

Lemma scaled_bounds (sc w : Q) :
  0 <= sc -> sc <= 100 -> 0 <= w -> 0 <= sc * w / 100 /\ sc * w / 100 <= w.
Proof.
  intros H0 H1 Hw.
  pose proof (Qmult_le_0_compat sc w H0 Hw) as Hp.
  pose proof (Qmult_le_compat_r sc 100 w H1 Hw) as Hq.
  set (p := sc * w) in *. clearbody p.
  unfold Qdiv. change (/ 100) with (1 # 100). split; lra.
Qed.

Lemma score_loop_bounds gs results ts tw :
  (forall g, In g gs -> 0 <= weight g) ->
  (forall k r, obj_get k results = Some r -> 0 <= score r /\ score r <= 100) ->
  0 <= ts -> ts <= tw ->
  0 <= fst (score_loop gs results (ts, tw)) /\
  fst (score_loop gs results (ts, tw)) <= snd (score_loop gs results (ts, tw)).
Proof.
  intros Hw Hs. revert ts tw.
  induction gs as [| g gs IH]; intros ts tw H0 H1; cbn [score_loop].
  - split; assumption.
  - assert (Hw' : forall g', In g' gs -> 0 <= weight g')
      by (intros g' Hg'; apply Hw; right; exact Hg').
    destruct (obj_get (gateKey g) results) as [r |] eqn:Hr.
    + destruct (Hs _ _ Hr) as [Ha Hb].
      destruct (scaled_bounds (score r) (weight g) Ha Hb
                  (Hw g (or_introl eq_refl))) as [Hc Hd].
      apply (IH Hw'); lra.
    + apply (IH Hw'); assumption.
Qed.

(** X9. When every gate result has a score between 0 and 100, so has the
    overall score. *)
Theorem overall_score_bounds :
  forall results : Obj GateResult,
    (forall k r, obj_get k results = Some r -> 0 <= score r /\ score r <= 100) ->
    0 <= calculateOverallScore new_ProductionQualityGates results /\
    calculateOverallScore new_ProductionQualityGates results <= 100.
Proof.
  intros results Hs. unfold calculateOverallScore.
  assert (Hw : forall g, In g (gates new_ProductionQualityGates) -> 0 <= weight g).
  { intros g Hg. simpl in Hg.
    destruct Hg as [<- | [<- | [<- | [<- | [<- | []]]]]]; discriminate. }
  destruct (score_loop_bounds (gates new_ProductionQualityGates) results 0 0 Hw Hs)
    as [H0 H1]; [apply Qle_refl | apply Qle_refl |].
  destruct (score_loop (gates new_ProductionQualityGates) results (0, 0))
    as [ts tw].
  cbn [fst snd] in H0, H1.
  destruct (gtq tw 0) eqn:E; [| split; [apply Qle_refl | discriminate]].
  apply gtq_iff in E.
  assert (Ha : 0 <= ts / tw) by (apply Qle_shift_div_l; [exact E | lra]).
  assert (Hb : ts / tw <= 1) by (apply Qle_shift_div_r; [exact E | lra]).
  set (q := ts / tw) in *. clearbody q. split; lra.
Qed.

Lemma overall_score_bounds_witness :
  (forall k r, obj_get k mixed_results = Some r -> 0 <= score r /\ score r <= 100) /\
  (0 <= calculateOverallScore new_ProductionQualityGates mixed_results /\
   calculateOverallScore new_ProductionQualityGates mixed_results <= 100) /\
  calculateOverallScore new_ProductionQualityGates mixed_results == 185 # 2.
Proof.
  assert (H : forall k r, obj_get k mixed_results = Some r ->
                          0 <= score r /\ score r <= 100).
  { intros k r. unfold mixed_results. cbn [obj_get].
    repeat (match goal with
            | |- context [String.eqb k ?x] =>
                destruct (String.eqb k x); [intros [= <-]; split; discriminate |]
            end).
    discriminate. }
  split; [exact H |].
  split; [exact (overall_score_bounds mixed_results H) |].
  vm_compute. reflexivity.
Defined.

(** *** Issues *)

Lemma issues_loop_routes this entries e :
  exists e',
    issues_loop this entries e = (Ok tt, e') /\
    criticalFailures e' =
      (criticalFailures e
       ++ flat_map (fun kr => if critical_failed this kr then issues (snd kr) else [])
            entries)%list /\
    warnings e' =
      (warnings e
       ++ flat_map (fun kr => if critical_failed this kr then [] else issues (snd kr))
            entries)%list.
Proof.
  revert e. induction entries as [| [key r] rest IH]; intros e.
  - exists e. cbn [flat_map]. rewrite !app_nil_r. repeat split.
  - cbn [issues_loop flat_map]. unfold bind, critical_failed at 1 3. cbn [fst snd].
    destruct (issues r) as [| i more] eqn:Hi.
    + unfold ret. destruct (IH e) as (e' & -> & Hc & Hw).
      exists e'. split; [reflexivity |].
      rewrite Hc, Hw.
      destruct (List.find _ _) as [gate |];
        [destruct (critical gate && negb (passed r)) |]; split; reflexivity.
    + destruct (List.find _ _) as [gate |];
        [destruct (critical gate && negb (passed r)) |];
        unfold push_criticalFailures, push_warnings, modify;
        match goal with
        | |- context [issues_loop this rest ?e1] =>
            destruct (IH e1) as (e' & -> & Hc & Hw)
        end;
        exists e'; (split; [reflexivity |]);
        rewrite Hc, Hw; cbn [criticalFailures warnings];
        rewrite <- ?app_assoc; split; reflexivity.
Qed.

(** X10. [collectIssues] moves every issue of every gate result to exactly
    one list, in the order of the results: to the critical failures when
    the result belongs to a critical gate and has not passed, to the
    warnings otherwise (a passed gate, the performance gate, or a key that
    is no gate of the table). *)
Theorem collectIssues_routes :
  forall (this : QualityGates) (e : Evaluation),
  exists e',
    collectIssues this e = (Ok tt, e') /\
    criticalFailures e' =
      (criticalFailures e
       ++ flat_map (fun kr => if critical_failed this kr then issues (snd kr) else [])
            (gateResults e))%list /\
    warnings e' =
      (warnings e
       ++ flat_map (fun kr => if critical_failed this kr then [] else issues (snd kr))
            (gateResults e))%list /\
    gateResults e' = gateResults e /\
    overallScore e' = overallScore e /\
    canDeploy e' = canDeploy e.
Proof.
  intros this e. unfold collectIssues, bind, gets.
  destruct (issues_loop_routes this (gateResults e) e) as (e' & E & Hc & Hw).
  destruct (issues_loop_frame this (gateResults e) e) as (e2 & E2 & H1 & H2 & H3).
  rewrite E in E2. injection E2 as <-.
  exists e'. rewrite E. repeat split; assumption.
Qed.

Lemma issues_loop_service this entries e :
  exists e', issues_loop this entries e = (Ok tt, e') /\ service e' = service e.
Proof.
  revert e. induction entries as [| [key r] rest IH]; intros e.
  - exists e. split; reflexivity.
  - cbn [issues_loop]. unfold bind.
    destruct (issues r);
      [| destruct (List.find _ _) as [gate |];
         [destruct (critical gate && negb (passed r)) |]];
      unfold ret, push_criticalFailures, push_warnings, modify;
      match goal with
      | |- context [issues_loop this rest ?e1] =>
          destruct (IH e1) as (e' & -> & Hs)
      end; exists e'; (split; [reflexivity | exact Hs]).
Qed.

Lemma evaluateServiceGates_on_issues this servicePath now r1 r2 r3 r4 r5 :
  let entries := [("security", r1); ("stability", r2); ("performance", r3);
                  ("contract", r4); ("deployment", r5)] in
  exists ev,
    evaluateServiceGates_on this servicePath now
      {| security_outcome := Ok r1; stability_outcome := Ok r2;
         performance_outcome := Ok r3; contract_outcome := Ok r4;
         deployment_outcome := Ok r5 |} = Ok ev /\
    service ev = servicePath /\
    criticalFailures ev =
      flat_map (fun kr => if critical_failed this kr then issues (snd kr) else [])
        entries /\
    warnings ev =
      flat_map (fun kr => if critical_failed this kr then [] else issues (snd kr))
        entries.
Proof.
  intros entries.
  unfold evaluateServiceGates_on, try_catch, evaluateServiceGates_try, collectIssues.
  lazy -[calculateOverallScore canServiceDeploy issues_loop critical_failed
         flat_map entries].
  match goal with
  | |- context [issues_loop this ?l ?e] =>
      destruct (issues_loop_routes this l e) as (e' & E & Hc & Hw);
      destruct (issues_loop_service this l e) as (e2 & E2 & Hsv);
      rewrite E in E2; injection E2 as <-; rewrite E
  end.
  exists e'. split; [reflexivity |].
  cbn [criticalFailures warnings app service] in Hc, Hw, Hsv.
  change (service e' = servicePath /\
          criticalFailures e' =
            flat_map (fun kr => if critical_failed this kr then issues (snd kr) else [])
              entries /\
          warnings e' =
            flat_map (fun kr => if critical_failed this kr then [] else issues (snd kr))
              entries).
  repeat split; assumption.
Qed.

Lemma if_same {A} (b : bool) (x : A) : (if b then x else x) = x.
Proof. destruct b; reflexivity. Qed.

Lemma security_gate_gitignore_throws this a m c d v e f :
  let g := evaluateSecurityGate this
             {| existsSync_SECURITY_md := a; checkSecureGitignore := Throw m;
                existsSync_env_example := c; checkForHardcodedSecrets := d;
                checkVulnerabilities := v; checkHttpsEnforcement := e;
                checkAuthImplementation := f |} in
  passed g = false /\ score g = 0 /\
  issues g = ["Security evaluation failed: " +:+ m].
Proof. repeat split. Qed.

Lemma contract_gate_throws this m :
  let g := evaluateContractGate this (Throw m) in
  passed g = false /\ score g = 0 /\
  issues g = ["Contract evaluation failed: " +:+ m].
Proof. repeat split. Qed.

Lemma as_written_failures (servicePath now : string) (f : ServiceFacts) :
  exists ev,
    evaluateServiceGates new_ProductionQualityGates servicePath now f = Ok ev /\
    service ev = servicePath /\
    criticalFailures ev =
      (failure_issue "Security" (fact_secureGitignore f)
       ++ failure_issue "Contract" (fact_contract f))%list /\
    warnings ev = [].
Proof.
  unfold evaluateServiceGates, gate_outcomes.
  set (r1 := evaluateSecurityGate _ _). set (r2 := evaluateStabilityGate _ _).
  set (r3 := evaluatePerformanceGate _ _). set (r4 := evaluateContractGate _ _).
  set (r5 := evaluateDeploymentGate _ _).
  destruct (evaluateServiceGates_on_issues new_ProductionQualityGates
              servicePath now r1 r2 r3 r4 r5) as (ev & -> & Hsv & Hc & Hw).
  exists ev. split; [reflexivity |]. split; [exact Hsv |].
  assert (H2 : issues r2 = []).
  { subst r2. destruct f as [a b c d v tag tests ct pj df].
    destruct tag, tests; reflexivity. }
  assert (H3 : issues r3 = []) by reflexivity.
  assert (H5 : issues r5 = []).
  { subst r5. destruct f as [a b c d v tag tests ct pj df].
    destruct pj, df; reflexivity. }
  assert (H1 : issues r1 = failure_issue "Security" (fact_secureGitignore f) /\
               (issues r1 <> [] -> passed r1 = false)).
  { subst r1. destruct f as [a [b | m] c d v tag tests ct pj df];
      cbn [fact_secureGitignore failure_issue].
    - split; [| intros H; contradiction H];
        exact (proj2 (proj2 (security_gate_returns a b c d v true true))).
    - split; [reflexivity | intros _; reflexivity]. }
  assert (H4 : issues r4 = failure_issue "Contract" (fact_contract f) /\
               (issues r4 <> [] -> passed r4 = false)).
  { subst r4. destruct f as [a b c d v tag tests [ct | m] pj df];
      cbn [fact_contract failure_issue].
    - split; [| intros H; contradiction H];
        exact (proj2 (proj2 (contract_gate_returns ct))).
    - split; [reflexivity | intros _; reflexivity]. }
  destruct H1 as [H1 P1], H4 as [H4 P4].
  rewrite Hc, Hw. clear Hc Hw.
  cbn [flat_map snd]. rewrite H2, H3, H5, !if_same, !app_nil_r. cbn [app].
  change (critical_failed new_ProductionQualityGates ("security", r1))
    with (negb (passed r1)).
  change (critical_failed new_ProductionQualityGates ("contract", r4))
    with (negb (passed r4)).
  destruct (issues r1) as [| i1 l1] eqn:E1;
    [rewrite !if_same | rewrite (P1 ltac:(discriminate)); cbn [negb]];
    (destruct (issues r4) as [| i4 l4] eqn:E4;
     [rewrite !if_same | rewrite (P4 ltac:(discriminate)); cbn [negb]]);
    rewrite <- H1, <- H4, ?app_nil_r; split; reflexivity.
Qed.

(** X11. With the probes as the source has them, the critical failures of
    an evaluation are exactly the messages of the probes that threw (the
    ignore-rules probe of the security gate, the contract validation of
    the contract gate), and there are no warnings: a gate that fails on
    its score alone is reported nowhere. *)
Theorem failures_only_from_exceptions :
  forall (servicePath now : string) (f : ServiceFacts),
  exists ev,
    evaluateServiceGates new_ProductionQualityGates servicePath now f = Ok ev /\
    criticalFailures ev =
      (failure_issue "Security" (fact_secureGitignore f)
       ++ failure_issue "Contract" (fact_contract f))%list /\
    warnings ev = [].
Proof.
  intros servicePath now f.
  destruct (as_written_failures servicePath now f) as (ev & E & _ & Hc & Hw).
  exists ev. repeat split; assumption.
Qed.

(** *** The report *)

Lemma flat_map_nil_iff {A B} (f : A -> list B) (l : list A) :
  flat_map f l = [] <-> forall x, In x l -> f x = [].
Proof.
  induction l as [| a l IH]; cbn [flat_map].
  - split; [intros _ x [] | reflexivity].
  - split.
    + intros H. apply app_eq_nil in H. destruct H as [Ha Hl].
      intros x [<- | Hx]; [exact Ha | exact (proj1 IH Hl x Hx)].
    + intros H. rewrite (H a (or_introl eq_refl)).
      rewrite (proj2 IH (fun x Hx => H x (or_intror Hx))). reflexivity.
Qed.

(** X12. The report of [generateQualityReport] lists no critical issue
    exactly when no evaluation has a critical failure; every critical issue
    it lists is a critical failure of a service, prefixed with the name of
    the service; and it counts no more deployable services than services. *)
Theorem report_critical_issues :
  forall results : list Evaluation,
    let report := generateQualityReport results in
    (criticalIssues report = [] <->
     forall r, In r results -> criticalFailures r = []) /\
    (forall issue, In issue (criticalIssues report) ->
       exists r failure, In r results /\ In failure (criticalFailures r) /\
                         issue = service r +:+ ": " +:+ failure) /\
    (deployableServices report <= totalServices report)%nat.
Proof.
  intros results. cbn [generateQualityReport criticalIssues deployableServices
                       totalServices].
  split; [| split].
  - rewrite flat_map_nil_iff. split; intros H r Hr.
    + specialize (H r Hr). destruct (criticalFailures r); [reflexivity | discriminate].
    + rewrite (H r Hr). reflexivity.
  - intros issue Hi. apply in_flat_map in Hi. destruct Hi as (r & Hr & Hm).
    apply in_map_iff in Hm. destruct Hm as (failure & <- & Hf).
    exists r, failure. repeat split; assumption.
  - apply length_filter.
Qed.

Lemma readiness_report (now : string) (facts : string -> ServiceFacts)
    (allServices : list string) (servicePath : string) :
  truthy_str servicePath = true ->
  exists report,
    validateDeploymentReadiness new_ProductionQualityGates now facts
      allServices servicePath = Ok report /\
    totalServices report = 1%nat /\
    criticalIssues report =
      map (fun failure => servicePath +:+ ": " +:+ failure)
        (failure_issue "Security" (fact_secureGitignore (facts servicePath))
         ++ failure_issue "Contract" (fact_contract (facts servicePath)))%list.
Proof.
  intros Hp.
  unfold validateDeploymentReadiness. rewrite Hp. cbn [evaluate_all].
  destruct (as_written_failures servicePath now (facts servicePath))
    as (ev & -> & Hsv & Hc & _).
  eexists. split; [reflexivity |].
  cbn [generateQualityReport totalServices criticalIssues length flat_map].
  rewrite app_nil_r, Hc, Hsv. split; reflexivity.
Qed.

(** X13. For a named service, [validateDeploymentReadiness] evaluates that
    service alone, whatever the list of submodules, and the critical issues
    of its report are the messages of the probes that threw, each prefixed
    with the name of the service: no score, however low, makes a critical
    issue. *)
Theorem readiness_of_one_service :
  forall (now : string) (facts : string -> ServiceFacts)
         (allServices : list string) (servicePath : string),
    truthy_str servicePath = true ->
    exists report,
      validateDeploymentReadiness new_ProductionQualityGates now facts
        allServices servicePath = Ok report /\
      totalServices report = 1%nat /\
      criticalIssues report =
        map (fun failure => servicePath +:+ ": " +:+ failure)
          (failure_issue "Security" (fact_secureGitignore (facts servicePath))
           ++ failure_issue "Contract" (fact_contract (facts servicePath)))%list.
Proof.
  intros now facts allServices servicePath Hp.
  exact (readiness_report now facts allServices servicePath Hp).
Qed.

Lemma readiness_of_one_service_witness :
  exists report,
    validateDeploymentReadiness new_ProductionQualityGates "now"
      (fun _ => Shell.absent_facts) ["other"] "web" = Ok report /\
    totalServices report = 1%nat /\
    criticalIssues report = [].
Proof.
  apply (readiness_of_one_service "now" (fun _ => Shell.absent_facts) ["other"] "web").
  reflexivity.
Defined.

End GateRulesFacts.

(** ** The updater *)

Section UpdateRulesFacts.

Import Shell Updater UpdateRules.

(** *** Statements that keep a relation *)

Lemma keeps_ret {A} (R : State -> State -> Prop) (a : A) :
  (forall s, R s s) -> keeps R (ret a).
Proof. intros HR s r s' [= <- <-]. apply HR. Qed.

Lemma keeps_throw {A} (R : State -> State -> Prop) e :
  (forall s, R s s) -> keeps R (throw (A := A) e).
Proof. intros HR s r s' [= <- <-]. apply HR. Qed.

Lemma keeps_await {A} (R : State -> State -> Prop) (r : Res A) :
  (forall s, R s s) -> keeps R (await r).
Proof. intros HR s r' s' [= <- <-]. apply HR. Qed.

Lemma keeps_gets {A} (R : State -> State -> Prop) (f : State -> A) :
  (forall s, R s s) -> keeps R (gets f).
Proof. intros HR s r s' [= <- <-]. apply HR. Qed.

Lemma keeps_bind {A B} (R : State -> State -> Prop)
    (m : M State A) (k : A -> M State B) :
  (forall s1 s2 s3, R s1 s2 -> R s2 s3 -> R s1 s3) ->
  keeps R m -> (forall a, keeps R (k a)) -> keeps R (bind m k).
Proof.
  intros HT Hm Hk s r s'. unfold bind.
  destruct (m s) as [[a | e] s1] eqn:E.
  - intros H. exact (HT _ _ _ (Hm _ _ _ E) (Hk a _ _ _ H)).
  - intros [= <- <-]. exact (Hm _ _ _ E).
Qed.

Lemma keeps_try_catch {A} (R : State -> State -> Prop)
    (m : M State A) (h : string -> M State A) :
  (forall s1 s2 s3, R s1 s2 -> R s2 s3 -> R s1 s3) ->
  keeps R m -> (forall e, keeps R (h e)) -> keeps R (try_catch m h).
Proof.
  intros HT Hm Hh s r s'. unfold try_catch.
  destruct (m s) as [[a | e] s1] eqn:E.
  - intros [= <- <-]. exact (Hm _ _ _ E).
  - intros H. exact (HT _ _ _ (Hm _ _ _ E) (Hh e _ _ _ H)).
Qed.

(** A command that does not write leaves the world as it is. *)
Lemma run_reads c w out w' :
  writes c = false -> run c w = Some (out, w') -> w' = w.
Proof.
  destruct c; try discriminate; intros _; cbn [run]; unfold in_module;
    repeat match goal with
           | |- context [match ?x with _ => _ end] => destruct x
           end;
    congruence.
Qed.

Lemma keeps_execQuiet (R : State -> State -> Prop) c :
  (forall s, R s s) -> writes c = false -> keeps R (execQuiet c).
Proof.
  intros HR Hc [w st ctx] r s'. unfold execQuiet. cbn [world].
  destruct (run c w) as [[out w'] |] eqn:E; intros [= <- <-]; [| apply HR].
  apply (run_reads _ _ _ _ Hc) in E. subst w'. apply HR.
Qed.

Lemma keeps_execCommand (R : State -> State -> Prop) c :
  (forall s, R s s) -> writes c = false -> keeps R (execCommand c).
Proof.
  intros HR Hc [w st ctx] r s'. unfold execCommand. cbn [world].
  destruct (run c w) as [[out w'] |] eqn:E; intros [= <- <-]; [| apply HR].
  apply (run_reads _ _ _ _ Hc) in E. subst w'. apply HR.
Qed.

Lemma keeps_execQuiet_trim (R : State -> State -> Prop) c :
  (forall s, R s s) -> (forall s1 s2 s3, R s1 s2 -> R s2 s3 -> R s1 s3) ->
  writes c = false -> keeps R (execQuiet_trim c).
Proof.
  intros HR HT Hc. unfold execQuiet_trim.
  apply keeps_bind; [exact HT | exact (keeps_execQuiet R c HR Hc) |].
  intros [o |]; [apply keeps_ret | apply keeps_throw]; exact HR.
Qed.

Lemma keeps_getCurrentVersion (R : State -> State -> Prop) sub :
  (forall s, R s s) -> (forall s1 s2 s3, R s1 s2 -> R s2 s3 -> R s1 s3) ->
  keeps R (getCurrentVersion sub).
Proof.
  intros HR HT. unfold getCurrentVersion.
  apply keeps_try_catch; [exact HT | | intros; apply keeps_ret; exact HR].
  apply keeps_bind; [exact HT | | intros; apply keeps_ret; exact HR].
  apply keeps_execQuiet_trim; [exact HR | exact HT | reflexivity].
Qed.

Ltac keeps_step refl trans :=
  first
    [ apply keeps_bind; [exact trans | | intros ?]
    | apply keeps_try_catch; [exact trans | | intros ?]
    | apply keeps_ret; exact refl
    | apply keeps_throw; exact refl
    | apply keeps_await; exact refl
    | apply keeps_gets; exact refl
    | apply keeps_execQuiet; [exact refl | reflexivity]
    | apply keeps_execQuiet_trim; [exact refl | exact trans | reflexivity]
    | apply keeps_execCommand; [exact refl | reflexivity]
    | apply keeps_getCurrentVersion; [exact refl | exact trans]
    | match goal with
      | |- keeps _ (if ?b then _ else _) => destruct b
      | |- keeps _ (match ?x with _ => _ end) => destruct x
      end ].

(** *** What the validations leave alone *)

Lemma unchanged_refl s : unchanged s s.
Proof. repeat split. Qed.

Lemma unchanged_trans s1 s2 s3 : unchanged s1 s2 -> unchanged s2 s3 -> unchanged s1 s3.
Proof.
  intros (a1 & b1 & c1 & d1) (a2 & b2 & c2 & d2).
  repeat split; etransitivity; eassumption.
Qed.

Lemma keeps_update_context f :
  (forall c, submodule (f c) = submodule c) ->
  (forall c, rollbackPoint (f c) = rollbackPoint c) ->
  keeps unchanged (update_context f).
Proof.
  intros H1 H2 s r s' [= <- <-]. repeat split; cbn; auto.
Qed.

Ltac unchanged_step :=
  first [ keeps_step unchanged_refl unchanged_trans
        | apply keeps_update_context; intros ?; reflexivity ].

Lemma keeps_determineUpdateType : keeps unchanged determineUpdateType.
Proof. unfold determineUpdateType. repeat unchanged_step. Qed.

Lemma keeps_preUpdateValidation : keeps unchanged preUpdateValidation.
Proof.
  unfold preUpdateValidation, existsSync.
  repeat first [apply keeps_determineUpdateType | unchanged_step].
Qed.

Lemma keeps_postUpdateValidation : keeps unchanged postUpdateValidation.
Proof. unfold postUpdateValidation. repeat unchanged_step. Qed.

Lemma validated_refl s : validated s s.
Proof.
  destruct s as [w st [sub tv t0 cur tgt ty vr orp app]].
  split; [reflexivity |]. split; [reflexivity |]. exists vr. reflexivity.
Qed.

Lemma validated_trans s1 s2 s3 : validated s1 s2 -> validated s2 s3 -> validated s1 s3.
Proof.
  intros (a1 & b1 & v1 & c1) (a2 & b2 & v2 & c2).
  split; [congruence |]. split; [congruence |].
  exists v2. rewrite c2, c1. reflexivity.
Qed.

Lemma keeps_validationResults f :
  (forall c, exists results, f c = with_validationResults results c) ->
  keeps validated (update_context f).
Proof.
  intros Hf s r s' [= <- <-].
  split; [reflexivity |]. split; [reflexivity |]. apply Hf.
Qed.

Ltac validated_step :=
  first [ keeps_step validated_refl validated_trans
        | apply keeps_validationResults; intros ?; eexists; reflexivity ].

Lemma validated_postUpdateValidation : keeps validated postUpdateValidation.
Proof. unfold postUpdateValidation. repeat validated_step. Qed.

(** *** Symbolic runs *)

Ltac upd_run :=
  lazy beta iota zeta delta
    [bind ret throw await get gets modify try_catch
     existsSync execQuiet execQuiet_trim execCommand run in_module
     update_context set_context set_world set_stack set_modules set_parent
     set_head with_currentCommit with_targetCommit with_updateType
     with_validationResults with_rollbackPoint new_context start_update
     getCurrentVersion determineUpdateType
     world rollbackStack context
     submodule targetVersion startTime currentCommit targetCommit updateType
     validationResults rollbackPoint approved
     submoduleCommit parentCommit rp_timestamp branch
     modules parent_log parent_branch next_commits submodule_list clock
     mod_head mod_diff_quiet mod_tag_listed mod_resolve mod_rev_parse mod_describe
     mod_fetch_ok mod_npm_ci_ok mod_facts
     negb andb orb truthy truthy_str fst snd].

Ltac upd_run_in H :=
  lazy beta iota zeta delta
    [bind ret throw await get gets modify try_catch
     existsSync execQuiet execQuiet_trim execCommand run in_module
     update_context set_context set_world set_stack set_modules set_parent
     set_head with_currentCommit with_targetCommit with_updateType
     with_validationResults with_rollbackPoint new_context start_update
     getCurrentVersion determineUpdateType
     world rollbackStack context
     submodule targetVersion startTime currentCommit targetCommit updateType
     validationResults rollbackPoint approved
     submoduleCommit parentCommit rp_timestamp branch
     modules parent_log parent_branch next_commits submodule_list clock
     mod_head mod_diff_quiet mod_tag_listed mod_resolve mod_rev_parse mod_describe
     mod_fetch_ok mod_npm_ci_ok mod_facts
     negb andb orb truthy truthy_str fst snd] in H.

Ltac upd_fields :=
  lazy beta iota zeta delta
    [set_context set_world set_stack set_modules set_parent
     with_currentCommit with_targetCommit with_updateType
     with_validationResults with_rollbackPoint new_context start_update
     snapshot_of
     world rollbackStack context
     submodule targetVersion startTime currentCommit targetCommit updateType
     validationResults rollbackPoint approved
     modules parent_log parent_branch next_commits submodule_list clock] in *.

(** *** Update types and strategies *)

Lemma classify_cases cv tv :
  Version.classify cv tv = "major" \/ Version.classify cv tv = "minor"
  \/ Version.classify cv tv = "patch".
Proof.
  unfold Version.classify.
  destruct cv as [cv |]; [| left; reflexivity].
  destruct (negb (truthy_str cv) || negb (Version.isSemanticVersion cv)
            || negb (Version.isSemanticVersion tv)); [left; reflexivity |].
  destruct (Version.parseSemanticVersion cv) as [c |]; [| left; reflexivity].
  destruct (Version.parseSemanticVersion tv) as [t |]; [| left; reflexivity].
  destruct (lt (Version.major c) (Version.major t)); [left; reflexivity |].
  destruct (lt (Version.minor c) (Version.minor t)); [right; left; reflexivity |].
  destruct (lt (Version.patch c) (Version.patch t)); right; right; reflexivity.
Qed.

(** X14. Every update type that [determineUpdateType] can answer has a
    strategy, so the strategy lookups of the validation never fail; and the
    patch strategy is the only one that asks for no approval. *)
Theorem every_update_type_has_a_strategy :
  forall (currentVersion : option string) (targetVersion : string),
  exists strategy,
    Gates.obj_get (Version.classify currentVersion targetVersion) updateStrategies
    = Some strategy /\
    (requiresApproval strategy = false <->
     Version.classify currentVersion targetVersion = "patch") /\
    (requiresCompatibilityTest strategy = true <->
     Version.classify currentVersion targetVersion = "major").
Proof.
  intros cv tv.
  destruct (classify_cases cv tv) as [-> | [-> | ->]];
    (eexists; split; [reflexivity |]); cbn; split; split;
    first [reflexivity | discriminate].
Qed.

Lemma strategy_major :
  Gates.obj_get "major" updateStrategies
  = Some {| riskLevel := "high"; requiresApproval := true;
            requiresCompatibilityTest := true |}.
Proof. reflexivity. Qed.

Lemma strategy_minor :
  Gates.obj_get "minor" updateStrategies
  = Some {| riskLevel := "medium"; requiresApproval := true;
            requiresCompatibilityTest := false |}.
Proof. reflexivity. Qed.

Lemma strategy_patch :
  Gates.obj_get "patch" updateStrategies
  = Some {| riskLevel := "low"; requiresApproval := false;
            requiresCompatibilityTest := false |}.
Proof. reflexivity. Qed.

(** *** Pre-update validation *)

(** The version that [getCurrentVersion] reads in a module. *)
Lemma preUpdateValidation_ok s s' :
  preUpdateValidation s = (Ok tt, s') ->
  exists ms tgt,
    modules (world s) !! submodule (context s) = Some ms /\
    truthy (mod_diff_quiet ms) = true /\
    truthy (mod_tag_listed ms (targetVersion (context s))) = true /\
    mod_rev_parse ms !! targetVersion (context s) = Some tgt /\
    let ty := Version.classify ((fun out => trim (line out)) <$> mod_describe ms)
                (targetVersion (context s)) in
    (ty = "patch" \/ approved (context s) = true) /\
    s' = set_context
           (with_updateType (Some ty)
              (with_targetCommit (Some (trim (line tgt)))
                 (with_currentCommit (Some (trim (line (mod_head ms))))
                    (context s)))) s.
Proof.
  destruct s as [[mods plog pbr next subs clk] stack
                 [sub tv t0 cur tgt0 ty0 vr orp app]].
  unfold preUpdateValidation. intros H. upd_run_in H.
  destruct (mods !! sub) as [[head dq tl res rv descr fetch npm facts] |] eqn:Hm;
    upd_run_in H; [| discriminate H].
  repeat (progress (rewrite ?Hm in H); upd_run_in H).
  destruct dq as [[| c0 clean] |]; upd_run_in H; try discriminate H.
  repeat (progress (rewrite ?Hm in H); upd_run_in H).
  destruct (tl tv) as [[| c1 listed] |] eqn:Et; upd_run_in H; try discriminate H.
  repeat (progress (rewrite ?Hm in H); upd_run_in H).
  destruct (rv !! tv) as [tgt |] eqn:Hres; upd_run_in H; [| discriminate H].
  repeat (progress (rewrite ?Hm in H); upd_run_in H).
  exists {| mod_head := head; mod_diff_quiet := Some (String c0 clean);
            mod_tag_listed := tl; mod_resolve := res; mod_rev_parse := rv; mod_describe := descr;
            mod_fetch_ok := fetch; mod_npm_ci_ok := npm; mod_facts := facts |}, tgt.
  cbn [world modules context submodule targetVersion mod_diff_quiet
       mod_tag_listed mod_rev_parse mod_describe mod_head approved truthy].
  rewrite Et. cbn [truthy truthy_str].
  split; [exact Hm |]. split; [reflexivity |]. split; [reflexivity |].
  split; [exact Hres |].
  destruct descr as [d |]; cbn [fmap option_fmap option_map];
    upd_run_in H.
  all: match type of H with
       | context [Gates.obj_get ?t updateStrategies] =>
           assert (Hc : t = "major" \/ t = "minor" \/ t = "patch")
             by apply classify_cases;
           set (ty := t) in *; clearbody ty
       end.
  all: destruct Hc as [-> | [-> | ->]];
    rewrite ?strategy_major, ?strategy_minor, ?strategy_patch in H;
    cbn [requiresApproval] in H; upd_run_in H;
    try (destruct app; upd_run_in H; [| discriminate H]);
    injection H as <-; (split; [auto | reflexivity]).
Qed.


Lemma preUpdateValidation_pass s ms tgt :
  modules (world s) !! submodule (context s) = Some ms ->
  truthy (mod_diff_quiet ms) = true ->
  truthy (mod_tag_listed ms (targetVersion (context s))) = true ->
  mod_rev_parse ms !! targetVersion (context s) = Some tgt ->
  let ty := Version.classify ((fun out => trim (line out)) <$> mod_describe ms)
              (targetVersion (context s)) in
  ty = "patch" \/ approved (context s) = true ->
  preUpdateValidation s
  = (Ok tt,
     set_context
       (with_updateType (Some ty)
          (with_targetCommit (Some (trim (line tgt)))
             (with_currentCommit (Some (trim (line (mod_head ms))))
                (context s)))) s).
Proof.
  destruct s as [[mods plog pbr next subs clk] stack
                 [sub tv t0 cur tgt0 ty0 vr orp app]].
  destruct ms as [head dq tl res rv descr fetch npm facts].
  cbn [world modules context submodule targetVersion mod_diff_quiet
       mod_tag_listed mod_rev_parse mod_describe mod_head approved].
  intros Hm Hclean Htag Hres Hty.
  destruct dq as [[| c0 clean] |]; try discriminate Hclean.
  destruct (tl tv) as [[| c1 listed] |] eqn:Et; try discriminate Htag.
  unfold preUpdateValidation. upd_run.
  repeat (progress (rewrite ?Hm, ?Et, ?Hres); upd_run).
  assert (Hstep : forall cv,
    Version.classify cv tv = "patch" \/ app = true ->
    match Gates.obj_get (Version.classify cv tv) updateStrategies with
    | Some strategy =>
        requiresApproval strategy && negb app = false
    | None => False
    end).
  { intros cv Hcv.
    destruct (classify_cases cv tv) as [E | [E | E]]; rewrite E in Hcv |- *;
      rewrite ?strategy_major, ?strategy_minor, ?strategy_patch;
      cbn [requiresApproval andb]; try reflexivity;
      destruct Hcv as [Hcv | ->]; try discriminate Hcv; reflexivity. }
  destruct descr as [d |]; cbn [fmap option_fmap option_map] in Hty |- *;
    upd_run;
    match goal with
    | |- context [Gates.obj_get (Version.classify ?cv tv) updateStrategies] =>
        specialize (Hstep cv Hty);
        destruct (Gates.obj_get (Version.classify cv tv) updateStrategies)
          as [st |]; [| destruct Hstep]
    end;
    upd_run; unfold andb, negb in Hstep; rewrite Hstep; reflexivity.
Qed.

(** X15. Pre-update validation passes exactly when the module directory
    exists, the cleanliness probe and the tag probe both print something,
    the target version resolves to a commit, and the update is a patch
    update or was approved. *)
Theorem validation_passes_iff :
  forall s : State,
    (exists s', preUpdateValidation s = (Ok tt, s')) <->
    (exists ms tgt,
        modules (world s) !! submodule (context s) = Some ms /\
        truthy (mod_diff_quiet ms) = true /\
        truthy (mod_tag_listed ms (targetVersion (context s))) = true /\
        mod_rev_parse ms !! targetVersion (context s) = Some tgt /\
        (Version.classify ((fun out => trim (line out)) <$> mod_describe ms)
           (targetVersion (context s)) = "patch"
         \/ approved (context s) = true)).
Proof.
  intros s. split.
  - intros (s' & H).
    destruct (preUpdateValidation_ok s s' H)
      as (ms & tgt & Hm & Hc & Ht & Hr & Hty & _).
    exists ms, tgt. repeat split; assumption.
  - intros (ms & tgt & Hm & Hc & Ht & Hr & Hty).
    eexists. exact (preUpdateValidation_pass s ms tgt Hm Hc Ht Hr Hty).
Qed.

(** A restore without a rollback point throws at once. *)
Lemma rollbackUpdate_none s :
  rollbackPoint (context s) = None ->
  rollbackUpdate s = (Throw "No rollback point available", s).
Proof.
  intros H. unfold rollbackUpdate, bind, gets. rewrite H. reflexivity.
Qed.

(** X16. Whatever makes pre-update validation fail, the update ends with
    that error and has changed nothing: the world and the rollback stack
    are as before, no rollback point was made, and the restore that the
    failure handler attempts finds none. *)
Theorem rejected_update_changes_nothing :
  forall (sub tv : string) (options : Options) (s : State) (e : string)
         (s1 : State),
    preUpdateValidation (start_update sub tv s) = (Throw e, s1) ->
    exists s',
      updateSubmodule sub tv options s = (Throw e, s') /\
      world s' = world s /\
      rollbackStack s' = rollbackStack s /\
      rollbackPoint (context s') = None.
Proof.
  intros sub tv options s e s1 H.
  destruct (keeps_preUpdateValidation _ _ _ H) as (Hw & Hs & _ & Hrp).
  rewrite updateSubmodule_unfold.
  unfold updateSubmodule_try, bind. rewrite H.
  cbn [start_update set_context context rollbackPoint new_context world
       rollbackStack] in Hw, Hs, Hrp.
  rewrite (rollbackUpdate_none s1 Hrp). cbn [snd].
  exists s1. repeat split; assumption.
Qed.

Lemma rejected_update_changes_nothing_witness :
  exists s',
    updateSubmodule "cli" "v1.0.1" no_options example_state
    = (Throw "Submodule cli does not exist", s') /\
    world s' = world example_state /\
    rollbackStack s' = rollbackStack example_state /\
    rollbackPoint (context s') = None.
Proof.
  apply (rejected_update_changes_nothing "cli" "v1.0.1" no_options example_state
           "Submodule cli does not exist"
           (start_update "cli" "v1.0.1" example_state)).
  vm_compute. reflexivity.
Defined.


(** *** The rollback point *)

Lemma createRollbackPoint_runs s :
  match parent_log (world s) with
  | [] => createRollbackPoint s = (Throw (TypeError_null "trim"), s)
  | h :: _ =>
      createRollbackPoint s
      = (match currentCommit (context s) with
         | Some _ => Ok tt
         | None => Throw (TypeError_null "substring")
         end,
         set_stack (rollbackStack s ++ [snapshot_of s h])
           (set_context (with_rollbackPoint (Some (snapshot_of s h)) (context s)) s))
  end.
Proof.
  destruct s as [[mods plog pbr next subs clk] stack
                 [sub tv t0 cur tgt0 ty0 vr orp app]].
  cbn [world parent_log context currentCommit].
  destruct plog as [| h rest]; [reflexivity |].
  destruct cur; reflexivity.
Qed.

(** *** The checkout *)

Lemma performUpdate_ok options s s' :
  performUpdate options s = (Ok tt, s') ->
  exists ms c,
    modules (world s) !! submodule (context s) = Some ms /\
    mod_resolve ms !! targetVersion (context s) = Some c /\
    targetCommit (context s) = Some (trim (line c)) /\
    s' = set_world
           (set_modules (<[submodule (context s) := set_head c ms]> (modules (world s)))
              (world s)) s.
Proof.
  destruct s as [[mods plog pbr next subs clk] stack
                 [sub tv t0 cur tgt0 ty0 vr orp app]].
  unfold performUpdate. intros H. upd_run_in H.
  destruct (mods !! sub) as [[head dq tl res rv descr fetch npm facts] |] eqn:Hm;
    upd_run_in H; [| discriminate H].
  destruct fetch; upd_run_in H; [| discriminate H].
  repeat (progress (rewrite ?Hm in H); upd_run_in H).
  destruct (res !! tv) as [c |] eqn:Hres; upd_run_in H; [| discriminate H].
  rewrite lookup_insert_eq in H. upd_run_in H.
  destruct (bool_decide (Some (trim (line c)) = tgt0)) eqn:Hb;
    upd_run_in H; [| discriminate H].
  apply bool_decide_eq_true_1 in Hb.
  injection H as <-.
  eexists _, c.
  split; [exact Hm |]. split; [exact Hres |]. split; [symmetry; exact Hb |].
  reflexivity.
Qed.


Lemma module_only_refl s : module_only s s.
Proof. repeat split. Qed.

Lemma module_only_trans s1 s2 s3 :
  module_only s1 s2 -> module_only s2 s3 -> module_only s1 s3.
Proof.
  intros (a1 & b1 & c1 & d1) (a2 & b2 & c2 & d2).
  split; [congruence |]. split; [congruence |]. split; [congruence |].
  intros p Hp. rewrite d2 by (rewrite a1; exact Hp). apply d1, Hp.
Qed.

Lemma no_snapshot_refl s : no_snapshot s s.
Proof. split; [apply module_only_refl | split; reflexivity]. Qed.

Lemma unchanged_no_snapshot s s' : unchanged s s' -> no_snapshot s s'.
Proof.
  intros (Hw & Hs & Hsub & Hrp).
  split; [| split; assumption].
  split; [exact Hsub |]. rewrite Hw. repeat split.
Qed.

Lemma validated_unchanged s s' : validated s s' -> unchanged s s'.
Proof.
  intros (Hw & Hs & vr & Hc).
  split; [exact Hw |]. split; [exact Hs |]. rewrite Hc. split; reflexivity.
Qed.

Lemma snapshot_after s1 s2 s3 :
  no_snapshot s1 s2 -> at_most_one_snapshot s2 s3 -> at_most_one_snapshot s1 s3.
Proof.
  intros (Hm & Hrp & Hst) [(Hm' & Hrp' & Hst') | (Hm' & rp & h & rest & A & B & C & D)].
  - left. split; [exact (module_only_trans _ _ _ Hm Hm') |].
    split; congruence.
  - right. split; [exact (module_only_trans _ _ _ Hm Hm') |].
    exists rp, h, rest. destruct Hm as (_ & Hlog & _).
    repeat split; congruence.
Qed.

Lemma snapshot_before s1 s2 s3 :
  at_most_one_snapshot s1 s2 -> no_snapshot s2 s3 -> at_most_one_snapshot s1 s3.
Proof.
  intros [(Hm & Hrp & Hst) | (Hm & rp & h & rest & A & B & C & D)] (Hm' & Hrp' & Hst').
  - left. split; [exact (module_only_trans _ _ _ Hm Hm') |].
    split; congruence.
  - right. split; [exact (module_only_trans _ _ _ Hm Hm') |].
    exists rp, h, rest. repeat split; congruence.
Qed.

Lemma createRollbackPoint_snapshot : keeps at_most_one_snapshot createRollbackPoint.
Proof.
  intros s r s' H. pose proof (createRollbackPoint_runs s) as Hrun.
  destruct (parent_log (world s)) as [| h rest] eqn:Hlog.
  - rewrite Hrun in H. injection H as <- <-. left. apply no_snapshot_refl.
  - rewrite Hrun in H. injection H as <- <-. right.
    split; [repeat split |].
    exists (snapshot_of s h), h, rest. repeat split. exact Hlog.
Qed.

Lemma performUpdate_no_snapshot options : keeps no_snapshot (performUpdate options).
Proof.
  intros [[mods plog pbr next subs clk] stack
          [sub tv t0 cur tgt0 ty0 vr orp app]] r s'.
  unfold performUpdate. intros H. upd_run_in H.
  assert (Hdone : forall ms,
    no_snapshot
      {| world := {| modules := mods; parent_log := plog; parent_branch := pbr;
                     next_commits := next; submodule_list := subs; clock := clk |};
         rollbackStack := stack;
         context := {| submodule := sub; targetVersion := tv; startTime := t0;
                       currentCommit := cur; targetCommit := tgt0;
                       updateType := ty0; validationResults := vr;
                       rollbackPoint := orp; approved := app |} |}
      {| world := {| modules := <[sub := ms]> mods; parent_log := plog;
                     parent_branch := pbr; next_commits := next;
                     submodule_list := subs; clock := clk |};
         rollbackStack := stack;
         context := {| submodule := sub; targetVersion := tv; startTime := t0;
                       currentCommit := cur; targetCommit := tgt0;
                       updateType := ty0; validationResults := vr;
                       rollbackPoint := orp; approved := app |} |}).
  { intros ms. split; [| split; reflexivity].
    split; [reflexivity |]. split; [reflexivity |]. split; [reflexivity |].
    intros p Hp. cbn [world modules context submodule] in Hp |- *.
    apply lookup_insert_ne. congruence. }
  destruct (mods !! sub) as [[head dq tl res rv descr fetch npm facts] |] eqn:Hm;
    upd_run_in H; [| injection H as <- <-; apply no_snapshot_refl].
  destruct fetch; upd_run_in H; [| injection H as <- <-; apply no_snapshot_refl].
  repeat (progress (rewrite ?Hm in H); upd_run_in H).
  destruct (res !! tv) as [c |] eqn:Hres; upd_run_in H;
    [| injection H as <- <-; apply no_snapshot_refl].
  rewrite lookup_insert_eq in H. upd_run_in H.
  destruct (bool_decide (Some (trim (line c)) = tgt0)) eqn:Hb;
    upd_run_in H; injection H as <- <-; apply Hdone.
Qed.

(** *** The commit in the parent *)

Ltac parent_run_in H :=
  unfold updateParentRepository, generateCommitMessage in H; upd_run_in H.

Lemma updateParentRepository_ok s s' :
  updateParentRepository s = (Ok tt, s') ->
  exists id rest,
    next_commits (world s) = id :: rest /\
    s' = set_world (set_parent (id :: parent_log (world s)) rest (world s)) s.
Proof.
  destruct s as [[mods plog pbr next subs clk] stack
                 [sub tv t0 cur tgt0 ty0 vr orp app]].
  intros H. parent_run_in H.
  destruct (mods !! sub) as [[head dq tl res rv descr fetch npm facts] |] eqn:Hm;
    upd_run_in H; [| discriminate H].
  repeat (progress (rewrite ?Hm in H); upd_run_in H).
  destruct descr as [d |]; upd_run_in H;
    (destruct cur as [c0 |]; upd_run_in H; [| discriminate H]);
    (destruct tgt0 as [c1 |]; upd_run_in H; [| discriminate H]);
    (destruct next as [| id rest]; upd_run_in H; [discriminate H |]);
    injection H as <-; exists id, rest; split; reflexivity.
Qed.

Lemma updateParentRepository_throws s e s' :
  updateParentRepository s = (Throw e, s') -> s' = s.
Proof.
  destruct s as [[mods plog pbr next subs clk] stack
                 [sub tv t0 cur tgt0 ty0 vr orp app]].
  intros H. parent_run_in H.
  destruct (mods !! sub) as [[head dq tl res rv descr fetch npm facts] |] eqn:Hm;
    upd_run_in H; [| injection H as _ <-; reflexivity].
  repeat (progress (rewrite ?Hm in H); upd_run_in H).
  destruct descr as [d |]; upd_run_in H;
    (destruct cur as [c0 |]; upd_run_in H; [| injection H as _ <-; reflexivity]);
    (destruct tgt0 as [c1 |]; upd_run_in H; [| injection H as _ <-; reflexivity]);
    (destruct next as [| id rest]; upd_run_in H; [| discriminate H]);
    injection H as _ <-; reflexivity.
Qed.


(** *** A failed update *)

Lemma failed_try_snapshot options s e s1 :
  updateSubmodule_try options s = (Throw e, s1) -> at_most_one_snapshot s s1.
Proof.
  unfold updateSubmodule_try, bind.
  destruct (preUpdateValidation s) as [[[] | e1] sa] eqn:E1.
  2: { intros [= <- <-]. left.
       exact (unchanged_no_snapshot _ _ (keeps_preUpdateValidation _ _ _ E1)). }
  apply keeps_preUpdateValidation, unchanged_no_snapshot in E1.
  destruct (createRollbackPoint sa) as [[[] | e2] sb] eqn:E2.
  2: { intros [= <- <-].
       exact (snapshot_after _ _ _ E1 (createRollbackPoint_snapshot _ _ _ E2)). }
  apply createRollbackPoint_snapshot in E2.
  pose proof (snapshot_after _ _ _ E1 E2) as E12.
  destruct (performUpdate options sb) as [[[] | e3] sc] eqn:E3.
  2: { intros [= <- <-].
       exact (snapshot_before _ _ _ E12 (performUpdate_no_snapshot _ _ _ _ E3)). }
  apply performUpdate_no_snapshot in E3.
  pose proof (snapshot_before _ _ _ E12 E3) as E13.
  destruct (postUpdateValidation sc) as [[[] | e4] sd] eqn:E4.
  2: { intros [= <- <-].
       exact (snapshot_before _ _ _ E13
                (unchanged_no_snapshot _ _ (keeps_postUpdateValidation _ _ _ E4))). }
  apply keeps_postUpdateValidation, unchanged_no_snapshot in E4.
  pose proof (snapshot_before _ _ _ E13 E4) as E14.
  destruct (updateParentRepository sd) as [[[] | e5] se] eqn:E5.
  - discriminate.
  - intros [= <- <-]. apply updateParentRepository_throws in E5. subst se.
    exact E14.
Qed.

(** The restore of a rollback point that records the parent as it is:
    no reset runs. *)
Lemma rollbackUpdate_same_parent s rp h rest r s' :
  rollbackPoint (context s) = Some rp ->
  parent_log (world s) = h :: rest ->
  parentCommit rp = trim (line h) ->
  rollbackUpdate s = (r, s') ->
  module_only s s' /\
  match r with
  | Ok _ => rollbackStack s' = removelast (rollbackStack s)
  | Throw _ => rollbackStack s' = rollbackStack s
  end.
Proof.
  destruct s as [[mods plog pbr next subs clk] stack
                 [sub tv t0 cur tgt0 ty0 vr orp app]].
  cbn [context rollbackPoint world parent_log]. intros -> -> Hp H.
  destruct rp as [sc pc ts br]. cbn [parentCommit] in Hp. subst pc.
  unfold rollbackUpdate in H. upd_run_in H.
  destruct (mods !! sub) as [[head dq tl res rv descr fetch npm facts] |] eqn:Hm;
    upd_run_in H;
    [| injection H as <- <-; split; [apply module_only_refl | reflexivity]].
  destruct (res !! js_str sc) as [c |] eqn:Hc; upd_run_in H;
    [| injection H as <- <-; split; [apply module_only_refl | reflexivity]].
  rewrite bool_decide_eq_true_2 in H by reflexivity. upd_run_in H.
  injection H as <- <-. split; [| reflexivity].
  split; [reflexivity |]. split; [reflexivity |]. split; [reflexivity |].
  intros p Hp. cbn [world modules context submodule] in Hp |- *.
  apply lookup_insert_ne. congruence.
Qed.

(** X17. An update that fails, at whatever step, leaves the parent as it
    was: no commit is made or undone (the restore never has to reset,
    because the commit in the parent is the last step).  It leaves
    every module but its own as it was.  And the rollback stack is as before, or
    holds one more point when the restore itself could not check out the
    recorded commit. *)
Theorem failed_update_spares_the_parent :
  forall (sub tv : string) (options : Options) (s : State) (e : string)
         (s' : State),
    updateSubmodule sub tv options s = (Throw e, s') ->
    parent_log (world s') = parent_log (world s) /\
    next_commits (world s') = next_commits (world s) /\
    (forall p, p <> sub -> modules (world s') !! p = modules (world s) !! p) /\
    (rollbackStack s' = rollbackStack s \/
     exists rp, rollbackStack s' = (rollbackStack s ++ [rp])%list).
Proof.
  intros sub tv options s e s'. rewrite updateSubmodule_unfold.
  destruct (updateSubmodule_try options (start_update sub tv s))
    as [[c | e1] s1] eqn:E; [discriminate |].
  intros [= <- <-]. apply failed_try_snapshot in E.
  assert (Hstart : module_only (start_update sub tv s) s1 ->
                   forall s2, module_only s1 s2 ->
                   parent_log (world s2) = parent_log (world s) /\
                   next_commits (world s2) = next_commits (world s) /\
                   (forall p, p <> sub ->
                              modules (world s2) !! p = modules (world s) !! p)).
  { intros H1 s2 H2.
    destruct (module_only_trans _ _ _ H1 H2) as (_ & Hl & Hn & Hm).
    repeat split; assumption. }
  destruct E as [(Hm & Hrp & Hst) | (Hm & rp & h & rest & Hrp & Hst & Hlog & Hpc)].
  - cbn [start_update set_context context rollbackPoint new_context
         rollbackStack] in Hrp, Hst.
    rewrite (rollbackUpdate_none s1 Hrp). cbn [snd].
    destruct (Hstart Hm s1 (module_only_refl s1)) as (A & B & C).
    repeat split; try assumption. left. exact Hst.
  - destruct (rollbackUpdate s1) as [r s2] eqn:E2. cbn [snd].
    assert (Hlog1 : parent_log (world s1) = h :: rest).
    { destruct Hm as (_ & -> & _). exact Hlog. }
    destruct (rollbackUpdate_same_parent s1 rp h rest r s2 Hrp Hlog1 Hpc E2)
      as (Hm2 & Hst2).
    destruct (Hstart Hm s2 Hm2) as (A & B & C).
    repeat split; try assumption.
    cbn [start_update set_context rollbackStack] in Hst.
    destruct r as [[] | e2]; rewrite Hst2, Hst.
    + left. apply removelast_last.
    + right. exists rp. reflexivity.
Qed.

Lemma failed_update_spares_the_parent_witness :
  let s' := snd (updateSubmodule "web" "v1.0.1" no_options example_state) in
  parent_log (world s') = parent_log (world example_state) /\
  next_commits (world s') = next_commits (world example_state) /\
  (forall p, p <> "web" ->
             modules (world s') !! p = modules (world example_state) !! p) /\
  (rollbackStack s' = rollbackStack example_state \/
   exists rp, rollbackStack s' = (rollbackStack example_state ++ [rp])%list).
Proof.
  apply (failed_update_spares_the_parent "web" "v1.0.1" no_options example_state
           build_error).
  vm_compute. reflexivity.
Defined.


(** *** The steps after validation *)

(** X18. The four steps that follow pre-update validation, run one after
    the other on a context that holds the current and the target commit:
    when all four return, the module is checked out at the commit that the
    target version leads to, and that commit is the target commit of the
    context (the verification of [performUpdate]); the parent has exactly
    one commit more, on top of the log as it was; and the rollback point,
    which records the current commit of the context and the head of the
    parent as they were, is in the context and is the last entry of the
    rollback stack, where it stays. *)
Theorem update_steps_outcome :
  forall (options : Options) (s s1 s2 s3 s4 : State),
    createRollbackPoint s = (Ok tt, s1) ->
    performUpdate options s1 = (Ok tt, s2) ->
    postUpdateValidation s2 = (Ok tt, s3) ->
    updateParentRepository s3 = (Ok tt, s4) ->
    exists ms tgt id h rest,
      modules (world s) !! submodule (context s) = Some ms /\
      mod_resolve ms !! targetVersion (context s) = Some tgt /\
      targetCommit (context s) = Some (trim (line tgt)) /\
      modules (world s4)
      = <[submodule (context s) := set_head tgt ms]> (modules (world s)) /\
      next_commits (world s) = id :: next_commits (world s4) /\
      parent_log (world s) = h :: rest /\
      parent_log (world s4) = id :: h :: rest /\
      rollbackStack s4 = (rollbackStack s ++ [snapshot_of s h])%list /\
      rollbackPoint (context s4) = Some (snapshot_of s h).
Proof.
  intros options s s1 s2 s3 s4 E1 E2 E3 E4.
  pose proof (createRollbackPoint_runs s) as Hrun.
  destruct s as [[mods plog pbr next subs clk] stack
                 [sub tv t0 cur tgt0 ty0 vr orp app]].
  upd_fields.
  destruct plog as [| h rest]; rewrite Hrun in E1; [discriminate E1 |].
  injection E1 as Hcur <-. clear Hrun.
  apply performUpdate_ok in E2.
  destruct E2 as (ms & tgt & Hm & Hres & Htgt & ->).
  upd_fields.
  apply validated_postUpdateValidation in E3.
  destruct E3 as (Hw & Hst & vr' & Hctx).
  apply updateParentRepository_ok in E4.
  destruct E4 as (id & next' & Hnext & ->).
  destruct s3 as [w3 st3 c3].
  upd_fields. subst w3 st3 c3. upd_fields.
  exists ms, tgt, id, h, rest.
  repeat split; try assumption; reflexivity.
Qed.

Lemma update_steps_outcome_witness :
  let s1 := snd (createRollbackPoint web_patch) in
  let s2 := snd (performUpdate no_options s1) in
  let s3 := snd (postUpdateValidation s2) in
  let s4 := snd (updateParentRepository s3) in
  exists ms tgt id h rest,
    modules (world web_patch) !! submodule (context web_patch) = Some ms /\
    mod_resolve ms !! targetVersion (context web_patch) = Some tgt /\
    targetCommit (context web_patch) = Some (trim (line tgt)) /\
    modules (world s4)
    = <[submodule (context web_patch) := set_head tgt ms]>
        (modules (world web_patch)) /\
    next_commits (world web_patch) = id :: next_commits (world s4) /\
    parent_log (world web_patch) = h :: rest /\
    parent_log (world s4) = id :: h :: rest /\
    rollbackStack s4 = (rollbackStack web_patch ++ [snapshot_of web_patch h])%list /\
    rollbackPoint (context s4) = Some (snapshot_of web_patch h).
Proof.
  intros s1 s2 s3 s4.
  apply (update_steps_outcome no_options web_patch s1 s2 s3 s4).
  - vm_compute. reflexivity.
  - vm_compute. reflexivity.
  - vm_compute. reflexivity.
  - vm_compute. reflexivity.
Defined.

(** With an annotated tag the verification of [performUpdate] fails: the
    target commit of the context is the tag object that [git rev-parse]
    printed, the head after the checkout is the commit. *)
Lemma annotated_tag_fails_verification :
  fst (performUpdate no_options (snd (createRollbackPoint web_annotated)))
  = Throw "Checkout verification failed: expected tttttttttt, got 1111111111".
Proof. vm_compute. reflexivity. Qed.

(** *** Restoring *)

(** X19. A restore that succeeds has checked the module out at the commit
    the rollback point records and left the other modules alone.  In the
    parent it has done nothing when the head is the recorded commit, and
    otherwise undone exactly one commit, whether or not that leads back to
    the recorded one.  It has dropped the last point of the rollback stack
    and left the context as it was. *)
Theorem restore_outcome :
  forall (s s1 : State) (rp : RollbackPoint),
    rollbackPoint (context s) = Some rp ->
    rollbackUpdate s = (Ok tt, s1) ->
    exists ms c h rest,
      modules (world s) !! submodule (context s) = Some ms /\
      mod_resolve ms !! js_str (submoduleCommit rp) = Some c /\
      modules (world s1)
      = <[submodule (context s) := set_head c ms]> (modules (world s)) /\
      parent_log (world s) = h :: rest /\
      parent_log (world s1)
      = (if bool_decide (trim (line h) = parentCommit rp) then h :: rest else rest) /\
      next_commits (world s1) = next_commits (world s) /\
      rollbackStack s1 = removelast (rollbackStack s) /\
      context s1 = context s.
Proof.
  intros [[mods plog pbr next subs clk] stack
          [sub tv t0 cur tgt0 ty0 vr orp app]] s1 rp.
  upd_fields. intros -> H.
  destruct rp as [sc pc ts br].
  unfold rollbackUpdate in H. upd_run_in H.
  destruct (mods !! sub) as [[head dq tl res rv descr fetch npm facts] |] eqn:Hm;
    upd_run_in H; [| discriminate H].
  destruct (res !! js_str sc) as [c |] eqn:Hc; upd_run_in H; [| discriminate H].
  destruct plog as [| h rest]; upd_run_in H; [discriminate H |].
  eexists _, c, h, rest.
  split; [reflexivity |]. split; [exact Hc |].
  cbn [parentCommit].
  destruct (bool_decide (trim (line h) = pc)); upd_run_in H.
  - injection H as <-. repeat split.
  - destruct rest as [| h' rest]; upd_run_in H; [discriminate H |].
    injection H as <-. repeat split.
Qed.

Lemma restore_outcome_witness :
  exists ms c h rest,
    modules (world (snd web_failing)) !! submodule (context (snd web_failing))
    = Some ms /\
    mod_resolve ms !! js_str (Some "aaaaaaaaaa") = Some c /\
    modules (world (snd (rollbackUpdate (snd web_failing))))
    = <[submodule (context (snd web_failing)) := set_head c ms]>
        (modules (world (snd web_failing))) /\
    parent_log (world (snd web_failing)) = h :: rest /\
    parent_log (world (snd (rollbackUpdate (snd web_failing))))
    = (if bool_decide (trim (line h) = "p2") then h :: rest else rest) /\
    next_commits (world (snd (rollbackUpdate (snd web_failing))))
    = next_commits (world (snd web_failing)) /\
    rollbackStack (snd (rollbackUpdate (snd web_failing)))
    = removelast (rollbackStack (snd web_failing)) /\
    context (snd (rollbackUpdate (snd web_failing))) = context (snd web_failing).
Proof.
  apply (restore_outcome (snd web_failing) (snd (rollbackUpdate (snd web_failing)))
           {| submoduleCommit := Some "aaaaaaaaaa"; parentCommit := "p2";
              rp_timestamp := "2025-01-01T00:00:00.000Z"; branch := "main" |}).
  - vm_compute. reflexivity.
  - vm_compute. reflexivity.
Defined.

(** X20. A rollback point made and restored at once gives back the
    repository and the rollback stack as they were, when the commit that
    the context holds for the module resolves to the commit checked out. *)
Theorem snapshot_then_restore :
  forall (s : State) (ms : ModuleState) (c h : string) (rest : list string),
    modules (world s) !! submodule (context s) = Some ms ->
    currentCommit (context s) = Some c ->
    mod_resolve ms !! c = Some (mod_head ms) ->
    parent_log (world s) = h :: rest ->
    exists s1 s2,
      createRollbackPoint s = (Ok tt, s1) /\
      rollbackUpdate s1 = (Ok tt, s2) /\
      world s2 = world s /\
      rollbackStack s2 = rollbackStack s.
Proof.
  intros s ms c h rest Hm Hcur Hres Hlog.
  pose proof (createRollbackPoint_runs s) as Hrun.
  rewrite Hlog, Hcur in Hrun. rewrite Hrun. clear Hrun.
  destruct s as [[mods plog pbr next subs clk] stack
                 [sub tv t0 cur tgt0 ty0 vr orp app]].
  destruct ms as [head dq tl res rv descr fetch npm facts].
  upd_fields. subst cur plog.
  do 2 eexists. split; [reflexivity |].
  unfold rollbackUpdate. upd_run. rewrite Hm. upd_run.
  unfold js_str. cbn [mod_resolve mod_head] in Hres. rewrite Hres. upd_run.
  rewrite bool_decide_eq_true_2 by reflexivity. upd_run.
  split; [reflexivity |].
  upd_fields. rewrite removelast_last. split; [| reflexivity].
  rewrite (insert_id mods sub _ Hm). reflexivity.
Qed.

Lemma snapshot_then_restore_witness :
  exists s1 s2,
    createRollbackPoint
      (snd (preUpdateValidation (start_update "web" "v1.0.1" example_state)))
    = (Ok tt, s1) /\
    rollbackUpdate s1 = (Ok tt, s2) /\
    world s2
    = world (snd (preUpdateValidation (start_update "web" "v1.0.1" example_state))) /\
    rollbackStack s2
    = rollbackStack
        (snd (preUpdateValidation (start_update "web" "v1.0.1" example_state))).
Proof.
  apply (snapshot_then_restore
           (snd (preUpdateValidation (start_update "web" "v1.0.1" example_state)))
           (example_module "aaaaaaaaaa" false) "aaaaaaaaaa" "p1" ["p0"]).
  - vm_compute. reflexivity.
  - vm_compute. reflexivity.
  - vm_compute. reflexivity.
  - vm_compute. reflexivity.
Defined.


(** *** Post-update validation *)

(** X21. Post-update validation of a patch update passes whenever the two
    probes that can throw do not and the dependencies install (or there is
    no package file): the scores of the gates play no part, so a module
    that fails every gate on its score is still accepted. *)
Theorem gate_scores_never_block :
  forall (s : State) (ms : ModuleState) (gitignore : bool)
         (contract : Gates.ContractResult),
    truthy_str (submodule (context s)) = true ->
    modules (world s) !! submodule (context s) = Some ms ->
    Gates.fact_secureGitignore (mod_facts ms) = Ok gitignore ->
    Gates.fact_contract (mod_facts ms) = Ok contract ->
    updateType (context s) = Some "patch" ->
    (Gates.fact_package_json (mod_facts ms) = true -> mod_npm_ci_ok ms = true) ->
    exists s', postUpdateValidation s = (Ok tt, s').
Proof.
  intros [[mods plog pbr next subs clk] stack
          [sub tv t0 cur tgt0 ty0 vr orp app]]
         [head dq tl res rv descr fetch npm facts] gitignore contract.
  lazy beta iota zeta delta
    [world context modules submodule updateType mod_facts mod_npm_ci_ok].
  intros Hsub Hm Hgit Hcon -> Hnpm.
  unfold postUpdateValidation. upd_run.
  match goal with
  | |- context [Gates.validateDeploymentReadiness ?g ?now ?f ?all sub] =>
      destruct (readiness_report now f all sub Hsub) as (report & -> & _ & Hci)
  end.
  unfold facts_at in Hci. lazy beta iota zeta delta [modules] in Hci.
  rewrite Hm in Hci. lazy beta iota zeta delta [mod_facts] in Hci.
  rewrite Hgit, Hcon in Hci. cbn [GateRules.failure_issue List.app map] in Hci.
  upd_run. rewrite Hci. upd_run.
  unfold js_str. rewrite strategy_patch. cbn [requiresCompatibilityTest].
  upd_run. unfold facts_at. lazy beta iota zeta delta [modules].
  rewrite Hm. lazy beta iota zeta delta [mod_facts].
  destruct (Gates.fact_package_json facts); upd_run.
  - rewrite Hm. upd_run. rewrite (Hnpm eq_refl). upd_run. rewrite Hm. upd_run.
    eexists. reflexivity.
  - eexists. reflexivity.
Qed.

Lemma gate_scores_never_block_witness :
  exists s',
    postUpdateValidation
      (snd (performUpdate no_options
              (snd (createRollbackPoint
                      (snd (preUpdateValidation
                              (start_update "api" "v1.0.1" example_state)))))))
    = (Ok tt, s').
Proof.
  apply (gate_scores_never_block _
           (set_head "1111111111" (example_module "bbbbbbbbbb" true)) true
           {| Gates.hasContract := true; Gates.isValid := true;
              Gates.compatibilityScore := 100; Gates.breakingChanges := [];
              Gates.version := Some "1.0.0" |}).
  - vm_compute. reflexivity.
  - vm_compute. reflexivity.
  - vm_compute. reflexivity.
  - vm_compute. reflexivity.
  - vm_compute. reflexivity.
  - intros _. vm_compute. reflexivity.
Defined.

(** *** Batches *)

(** X22. The loop of a batch never throws: what an update throws is caught
    and recorded as a failure.  It never fills the list of skipped
    requests.  Without [stopOnError] every request ends up among the
    successes or the failures; with it the loop records at most one
    failure more. *)
Theorem batch_loop_accounts :
  forall (options : Options) (updates : list UpdateRequest)
         (results : BatchResults) (s : State),
  exists results' s',
    batch_loop options updates results s = (Ok results', s') /\
    skipped results' = skipped results /\
    (handled results' <= handled results + length updates)%nat /\
    (if stopOnError options
     then (length (failed results') <= length (failed results) + 1)%nat
     else handled results' = (handled results + length updates)%nat).
Proof.
  intros options updates. induction updates as [| update rest IH]; intros results s.
  - exists results, s. split; [reflexivity |]. split; [reflexivity |].
    unfold handled. cbn [length]. split; [lia |].
    destruct (stopOnError options); lia.
  - cbn [batch_loop].
    destruct (updateSubmodule _ _ _ s) as [[c | e] s1].
    + match goal with
      | |- context [batch_loop options rest ?r s1] =>
          destruct (IH r s1) as (results' & s' & -> & Hsk & Hle & Hstop)
      end.
      exists results', s'. split; [reflexivity |].
      unfold handled in *. cbn [successful failed skipped length] in *.
      rewrite length_app in *. cbn [length] in *.
      split; [exact Hsk |]. split; [lia |].
      destruct (stopOnError options); lia.
    + destruct (stopOnError options) eqn:Hstop'.
      * eexists _, s1. split; [reflexivity |].
        unfold handled. cbn [successful failed skipped length].
        rewrite length_app. cbn [length]. repeat split; lia.
      * match goal with
        | |- context [batch_loop options rest ?r s1] =>
            destruct (IH r s1) as (results' & s' & -> & Hsk & Hle & Hstop)
        end.
        exists results', s'. split; [reflexivity |].
        try rewrite Hstop' in Hstop.
        unfold handled in *. cbn [successful failed skipped length] in *.
        rewrite length_app in *. cbn [length] in *.
        repeat split; [exact Hsk | lia | lia].
Qed.

(** X23. A batch of no request or of one runs its loop and does not throw;
    a batch of two requests or more throws in the sort, before any update
    has run: the comparison function looks up the strategy of the update
    type medium, which does not exist. *)
Theorem batchUpdate_outcome :
  forall (updates : list UpdateRequest) (options : Options) (s : State),
    match updates with
    | [] => batchUpdate updates options s = (Ok empty_results, s)
    | [update] =>
        exists results s',
          batchUpdate updates options s = (Ok results, s') /\
          handled results = 1%nat /\
          match updateSubmodule (req_submodule update) (req_targetVersion update)
                  {| stopOnError := stopOnError options; batchMode := true |} s with
          | (Ok c, s1) => successful results = [c] /\ s' = s1
          | (Throw e, s1) =>
              failed results
              = [{| failed_submodule := req_submodule update;
                    failed_targetVersion := req_targetVersion update;
                    failed_error := e |}] /\ s' = s1
          end
    | _ :: _ :: _ =>
        batchUpdate updates options s = (Throw (TypeError_undefined "riskLevel"), s)
    end.
Proof.
  intros [| update [| update' rest]] options s.
  - reflexivity.
  - unfold batchUpdate, bind, await. cbn [sort sort_from sort_insert batch_loop].
    destruct (updateSubmodule _ _ _ s) as [[c | e] s1].
    + eexists _, s1. split; [reflexivity |]. repeat split.
    + destruct (stopOnError options); (eexists _, s1; split; [reflexivity |]);
        repeat split.
  - reflexivity.
Qed.

End UpdateRulesFacts.

(** ** Versions *)

Section VersionRulesFacts.

Import Version.

Lemma span_digits_app (s suffix : string) :
  match suffix with
  | String c _ => is_digit c = false
  | EmptyString => True
  end ->
  span_digits (s +:+ suffix)
  = (fst (span_digits s), snd (span_digits s) +:+ suffix).
Proof.
  intros Hs. induction s as [| c s IH].
  - change (EmptyString +:+ suffix) with suffix.
    destruct suffix as [| c r]; [reflexivity |].
    cbn [span_digits fst snd]. rewrite Hs. reflexivity.
  - change (String c s +:+ suffix) with (String c (s +:+ suffix)).
    cbn [span_digits].
    destruct (is_digit c); [| reflexivity].
    rewrite IH. destruct (span_digits s) as [d rest]. reflexivity.
Qed.

Lemma digits1_app (s suffix d rest : string) :
  match suffix with
  | String c _ => is_digit c = false
  | EmptyString => True
  end ->
  digits1 s = Some (d, rest) ->
  digits1 (s +:+ suffix) = Some (d, rest +:+ suffix).
Proof.
  intros Hs. unfold digits1. rewrite (span_digits_app s suffix Hs).
  destruct (span_digits s) as [[| c d'] rest']; [discriminate |].
  cbn [fst snd]. intros [= <- <-]. reflexivity.
Qed.

Lemma dot_app (s suffix rest : string) :
  dot s = Some rest -> dot (s +:+ suffix) = Some (rest +:+ suffix).
Proof.
  destruct s as [| c s]; [discriminate |].
  change (String c s +:+ suffix) with (String c (s +:+ suffix)). cbn [dot].
  destruct c as [[] [] [] [] [] [] [] []]; try discriminate.
  intros [= <-]. reflexivity.
Qed.

Lemma opt_v_app (s suffix : string) :
  s <> EmptyString -> opt_v (s +:+ suffix) = opt_v s +:+ suffix.
Proof.
  destruct s as [| c s]; [congruence |]. intros _.
  change (String c s +:+ suffix) with (String c (s +:+ suffix)). cbn [opt_v].
  destruct c as [[] [] [] [] [] [] [] []]; reflexivity.
Qed.

Lemma re_semver_app (v suffix : string) groups :
  match suffix with
  | String c _ => is_digit c = false
  | EmptyString => True
  end ->
  re_semver v = Some groups ->
  re_semver (v +:+ suffix) = Some groups.
Proof.
  intros Hs. unfold re_semver.
  assert (Hv : v <> EmptyString -> opt_v (v +:+ suffix) = opt_v v +:+ suffix)
    by apply opt_v_app.
  destruct v as [| c0 v0]; [discriminate |].
  rewrite Hv by discriminate.
  destruct (digits1 (opt_v (String c0 v0))) as [[a r1] |] eqn:E1; [| discriminate].
  rewrite (digits1_app _ suffix a r1 Hs E1).
  destruct (dot r1) as [r2 |] eqn:E2; [| discriminate].
  rewrite (dot_app _ suffix r2 E2).
  destruct (digits1 r2) as [[b r3] |] eqn:E3; [| discriminate].
  rewrite (digits1_app _ suffix b r3 Hs E3).
  destruct (dot r3) as [r4 |] eqn:E4; [| discriminate].
  rewrite (dot_app _ suffix r4 E4).
  destruct (digits1 r4) as [[c r5] |] eqn:E5; [| discriminate].
  rewrite (digits1_app _ suffix c r5 Hs E5).
  intros H. exact H.
Qed.

(** X24. The pattern of a semantic version is not anchored at its end: what
    follows the third number, when it does not start with a digit, is
    ignored.  A version with such a suffix (a pre-release or a build tag,
    a fourth number) is accepted and parsed as the version without it,
    and so the update from the one to the other is a patch update. *)
Theorem semver_ignores_what_follows :
  forall (v suffix : string),
    isSemanticVersion v = true ->
    match suffix with
    | String c _ => is_digit c = false
    | EmptyString => True
    end ->
    isSemanticVersion (v +:+ suffix) = true /\
    parseSemanticVersion (v +:+ suffix) = parseSemanticVersion v /\
    classify (Some v) (v +:+ suffix) = "patch".
Proof.
  intros v suffix Hv Hs. unfold isSemanticVersion in Hv.
  destruct (re_semver v) as [[[a b] c] |] eqn:E; [| discriminate].
  pose proof (re_semver_app v suffix _ Hs E) as E'.
  assert (Hp : parseSemanticVersion (v +:+ suffix) = parseSemanticVersion v).
  { unfold parseSemanticVersion. rewrite E, E'. reflexivity. }
  assert (Hi : isSemanticVersion (v +:+ suffix) = true).
  { unfold isSemanticVersion. rewrite E'. reflexivity. }
  split; [exact Hi |]. split; [exact Hp |].
  unfold classify. rewrite Hi, Hp.
  assert (Hv' : isSemanticVersion v = true)
    by (unfold isSemanticVersion; rewrite E; reflexivity).
  rewrite Hv'.
  assert (Ht : truthy_str v = true).
  { destruct v; [discriminate E | reflexivity]. }
  rewrite Ht. cbn [negb orb].
  unfold parseSemanticVersion. rewrite E.
  cbn [major minor patch].
  rewrite !lt_irrefl. reflexivity.
Qed.

Lemma semver_ignores_what_follows_witness :
  isSemanticVersion ("1.2.3" +:+ "-rc.1") = true /\
  parseSemanticVersion ("1.2.3" +:+ "-rc.1") = parseSemanticVersion "1.2.3" /\
  classify (Some "1.2.3") ("1.2.3" +:+ "-rc.1") = "patch".
Proof.
  apply (semver_ignores_what_follows "1.2.3" "-rc.1"); reflexivity.
Defined.

(** X25. The leading v is optional and changes nothing: a version that is
    accepted with it is accepted without it and parses to the same three
    numbers. *)
Theorem semver_prefix_v :
  forall v : string,
    isSemanticVersion ("v" +:+ v) = true ->
    isSemanticVersion v = true /\
    parseSemanticVersion ("v" +:+ v) = parseSemanticVersion v.
Proof.
  intros v. unfold isSemanticVersion, parseSemanticVersion, re_semver.
  change (opt_v ("v" +:+ v)) with v.
  destruct (digits1 v) as [[a r1] |] eqn:E1; [| discriminate].
  assert (Hv : opt_v v = v).
  { destruct v as [| c v']; [reflexivity |].
    unfold digits1 in E1. cbn [span_digits] in E1.
    destruct (is_digit c) eqn:Hc; [| discriminate E1].
    destruct c as [[] [] [] [] [] [] [] []]; try reflexivity; discriminate Hc. }
  rewrite Hv, E1.
  destruct (dot r1) as [r2 |]; [| discriminate].
  destruct (digits1 r2) as [[b r3] |]; [| discriminate].
  destruct (dot r3) as [r4 |]; [| discriminate].
  destruct (digits1 r4) as [[c r5] |]; [| discriminate].
  intros _. split; reflexivity.
Qed.

Lemma semver_prefix_v_witness :
  isSemanticVersion "1.2.3" = true /\
  parseSemanticVersion ("v" +:+ "1.2.3") = parseSemanticVersion "1.2.3".
Proof.
  apply (semver_prefix_v "1.2.3"). reflexivity.
Defined.

End VersionRulesFacts.

(** ** Compatibility of the services *)

Section CompatFacts.

Import Compat.

Lemma filled_lookup (submodule : string) (others : list string) :
  forall (row : gmap string bool) (b : string),
    filled submodule others row !! b
    = if decide (b ∈ others /\ b <> submodule /\ b <> "__proto__")
      then Some true else row !! b.
Proof.
  unfold filled.
  induction others as [| other rest IH]; intros row b; cbn [foldl].
  - rewrite decide_False; [reflexivity |].
    intros [Hb _]. apply elem_of_nil in Hb. destruct Hb.
  - rewrite IH. clear IH.
    destruct (decide (b ∈ rest /\ b <> submodule /\ b <> "__proto__"))
      as [(H1 & H2 & H3) | Hn].
    + rewrite decide_True; [reflexivity |].
      split; [right; exact H1 | tauto].
    + destruct (decide (b = other)) as [-> | Hne].
      * destruct (bool_decide (submodule = other)) eqn:Hsame.
        -- apply bool_decide_eq_true_1 in Hsame. subst other.
           rewrite decide_False by tauto. reflexivity.
        -- apply bool_decide_eq_false_1 in Hsame. unfold put.
           destruct (bool_decide (other = "__proto__")) eqn:Hp.
           ++ apply bool_decide_eq_true_1 in Hp.
              rewrite decide_False by tauto. reflexivity.
           ++ apply bool_decide_eq_false_1 in Hp.
              rewrite decide_True
                by (split; [left; reflexivity | split; congruence]).
              apply lookup_insert_eq.
      * rewrite decide_False.
        -- destruct (bool_decide (submodule = other)); [reflexivity |].
           unfold put. destruct (bool_decide (other = "__proto__"));
             [reflexivity |].
           apply lookup_insert_ne. congruence.
        -- intros (H1 & H2 & H3). apply elem_of_cons in H1.
           destruct H1 as [H1 | H1]; [congruence | tauto].
Qed.

Lemma compare_with_own (submodule : string) (others : list string) :
  submodule <> "__proto__" ->
  forall (m : Matrix) (row : gmap string bool),
    own m !! submodule = Some row ->
    compare_with submodule others m
    = Ok {| own := <[submodule := filled submodule others row]> (own m);
            proto := proto m; object_prototype := object_prototype m |}.
Proof.
  intros Hs. unfold filled.
  induction others as [| other rest IH]; intros m row Hrow;
    cbn [compare_with foldl].
  - rewrite (insert_id (own m) submodule row Hrow). destruct m; reflexivity.
  - destruct (bool_decide (submodule = other)); [exact (IH m row Hrow) |].
    unfold set_entry, get. rewrite bool_decide_eq_false_2 by exact Hs.
    rewrite Hrow. unfold checkServiceCompatibility. cbv zeta.
    rewrite (IH _ (put other true row)) by (cbn [own]; apply lookup_insert_eq).
    cbn [own proto object_prototype]. rewrite insert_insert_eq. reflexivity.
Qed.

Lemma compare_with_proto (others : list string) :
  forall (m : Matrix) (p : gmap string bool),
    proto m = Some p ->
    compare_with "__proto__" others m
    = Ok {| own := own m; proto := Some (filled "__proto__" others p);
            object_prototype := object_prototype m |}.
Proof.
  unfold filled.
  induction others as [| other rest IH]; intros m p Hp;
    cbn [compare_with foldl].
  - rewrite <- Hp. destruct m; reflexivity.
  - destruct (bool_decide ("__proto__" = other)); [exact (IH m p Hp) |].
    unfold set_entry, get. rewrite bool_decide_eq_true_2 by reflexivity.
    rewrite Hp. unfold checkServiceCompatibility. cbv zeta.
    rewrite (IH _ (put other true p)) by reflexivity.
    reflexivity.
Qed.

Lemma compare_all_rows (submodules todo : list string) :
  forall m : Matrix,
  exists m',
    compare_all submodules todo m = Ok m' /\
    object_prototype m' = object_prototype m /\
    (forall a,
        a <> "__proto__" ->
        own m' !! a
        = if decide (a ∈ todo)
          then Some (filled a submodules ∅)
          else own m !! a) /\
    own m' !! "__proto__" = own m !! "__proto__" /\
    proto m'
    = if decide ("__proto__" ∈ todo)
      then Some (filled "__proto__" submodules ∅)
      else proto m.
Proof.
  induction todo as [| submodule rest IH]; intros m.
  - exists m. split; [reflexivity |]. split; [reflexivity |].
    split; [| split; [reflexivity |]].
    + intros a _. rewrite decide_False; [reflexivity |].
      intros Ha. apply elem_of_nil in Ha. destruct Ha.
    + rewrite decide_False; [reflexivity |].
      intros Ha. apply elem_of_nil in Ha. destruct Ha.
  - cbn [compare_all]. unfold new_row.
    destruct (bool_decide (submodule = "__proto__")) eqn:Hs.
    + apply bool_decide_eq_true_1 in Hs. subst submodule.
      rewrite (compare_with_proto submodules _ ∅) by reflexivity.
      cbn [own proto object_prototype].
      destruct (IH {| own := own m;
                      proto := Some (filled "__proto__" submodules ∅);
                      object_prototype := object_prototype m |})
        as (m' & -> & Hg & Hown & Hpo & Hpr).
      cbn [own proto object_prototype] in Hg, Hown, Hpo, Hpr.
      exists m'. split; [reflexivity |]. split; [exact Hg |].
      split; [| split; [exact Hpo |]].
      * intros a Ha. rewrite (Hown a Ha).
        destruct (decide (a ∈ rest)) as [Hin | Hnin].
        -- rewrite decide_True by (right; exact Hin). reflexivity.
        -- rewrite decide_False; [reflexivity |].
           intros Hc. apply elem_of_cons in Hc. destruct Hc; [congruence | tauto].
      * rewrite Hpr. rewrite (decide_True (P := "__proto__" ∈ "__proto__" :: rest))
          by (left; reflexivity).
        destruct (decide ("__proto__" ∈ rest)); reflexivity.
    + apply bool_decide_eq_false_1 in Hs.
      rewrite (compare_with_own submodule submodules Hs _ ∅)
        by (cbn [own]; apply lookup_insert_eq).
      cbn [own proto object_prototype]. rewrite insert_insert_eq.
      destruct (IH {| own := <[submodule := filled submodule submodules ∅]> (own m);
                      proto := proto m;
                      object_prototype := object_prototype m |})
        as (m' & -> & Hg & Hown & Hpo & Hpr).
      cbn [own proto object_prototype] in Hg, Hown, Hpo, Hpr.
      exists m'. split; [reflexivity |]. split; [exact Hg |].
      split; [| split].
      * intros a Ha. rewrite (Hown a Ha).
        destruct (decide (a ∈ rest)) as [Hin | Hnin].
        -- rewrite decide_True by (right; exact Hin). reflexivity.
        -- destruct (decide (a = submodule)) as [-> | Hne].
           ++ rewrite decide_True by (left; reflexivity). apply lookup_insert_eq.
           ++ rewrite decide_False.
              ** apply lookup_insert_ne. congruence.
              ** intros Hc. apply elem_of_cons in Hc.
                 destruct Hc; [congruence | tauto].
      * rewrite Hpo. apply lookup_insert_ne. exact Hs.
      * rewrite Hpr.
        destruct (decide ("__proto__" ∈ rest)) as [Hin | Hnin].
        -- rewrite decide_True by (right; exact Hin). reflexivity.
        -- rewrite decide_False; [reflexivity |].
           intros Hc. apply elem_of_cons in Hc.
           destruct Hc; [congruence | tauto].
Qed.

(** X26. [validateSubmoduleCompatibility] does not throw.  The matrix has
    a row for each submodule of the list except one named [__proto__], and
    for nothing else; the row of a submodule holds an entry for every other
    submodule of the list except [__proto__], none for itself, and every
    entry is true: the check reports no pair as incompatible, and the rows
    are symmetric.  A submodule named [__proto__] gets no row: assigning
    it replaces the prototype of the matrix by an object that holds the
    entries of its row; [Object.prototype] is left as it was. *)
Theorem compatibility_matrix :
  forall submodules : list string,
  exists matrix,
    validateSubmoduleCompatibility submodules = Ok matrix /\
    (forall a, is_Some (own matrix !! a)
               <-> a ∈ submodules /\ a <> "__proto__") /\
    (forall a b row,
        own matrix !! a = Some row ->
        (row !! b = Some true
         <-> b ∈ submodules /\ b <> a /\ b <> "__proto__") /\
        row !! b <> Some false) /\
    (forall a b, own matrix !! a ≫= (.!! b) = own matrix !! b ≫= (.!! a)) /\
    (if decide ("__proto__" ∈ submodules)
     then exists p,
         proto matrix = Some p /\
         forall b, (p !! b = Some true
                    <-> b ∈ submodules /\ b <> "__proto__") /\
                   p !! b <> Some false
     else proto matrix = None) /\
    object_prototype matrix = ∅.
Proof.
  intros submodules. unfold validateSubmoduleCompatibility.
  destruct (compare_all_rows submodules submodules empty_object)
    as (matrix & -> & Hg & Hown & Hpo & Hpr).
  cbn [empty_object own proto object_prototype] in Hg, Hown, Hpo, Hpr.
  exists matrix. split; [reflexivity |].
  assert (Hrow : forall a,
    own matrix !! a
    = if decide (a ∈ submodules /\ a <> "__proto__")
      then Some (filled a submodules ∅) else None).
  { intros a. destruct (decide (a = "__proto__")) as [-> | Ha].
    - rewrite Hpo, lookup_empty, decide_False by tauto. reflexivity.
    - rewrite (Hown a Ha), lookup_empty.
      destruct (decide (a ∈ submodules)) as [Hin | Hnin].
      + rewrite decide_True by tauto. reflexivity.
      + rewrite decide_False by tauto. reflexivity. }
  assert (Hentry : forall a b,
    own matrix !! a ≫= (.!! b)
    = if decide ((a ∈ submodules /\ a <> "__proto__") /\
                 (b ∈ submodules /\ b <> "__proto__") /\ b <> a)
      then Some true else None).
  { intros a b. rewrite Hrow.
    destruct (decide (a ∈ submodules /\ a <> "__proto__")) as [Ha | Ha].
    - cbn. rewrite filled_lookup, lookup_empty.
      destruct (decide (b ∈ submodules /\ b <> a /\ b <> "__proto__")) as [Hb | Hb].
      + rewrite decide_True by tauto. reflexivity.
      + rewrite decide_False by tauto. reflexivity.
    - cbn. rewrite decide_False by tauto. reflexivity. }
  split; [| split; [| split; [| split]]].
  - intros a. rewrite Hrow.
    destruct (decide (a ∈ submodules /\ a <> "__proto__")) as [Ha | Ha].
    + split; [intros _; exact Ha | eauto].
    + split; [intros [x Hx]; discriminate | tauto].
  - intros a b row Hr. rewrite Hrow in Hr.
    destruct (decide (a ∈ submodules /\ a <> "__proto__")) as [Ha | Ha];
      [| discriminate].
    injection Hr as <-. rewrite filled_lookup, lookup_empty.
    destruct (decide (b ∈ submodules /\ b <> a /\ b <> "__proto__")) as [Hb | Hb].
    + split; [tauto | discriminate].
    + split; [split; [discriminate | tauto] | discriminate].
  - intros a b. rewrite !Hentry.
    destruct (decide ((a ∈ submodules /\ a <> "__proto__") /\
                      (b ∈ submodules /\ b <> "__proto__") /\ b <> a))
      as [Hy | Hn].
    + rewrite decide_True; [reflexivity |].
      destruct Hy as (H1 & H2 & H3). repeat split; try tauto; congruence.
    + rewrite decide_False; [reflexivity |].
      intros (H1 & H2 & H3). apply Hn. repeat split; try tauto; congruence.
  - destruct (decide ("__proto__" ∈ submodules)) as [Hin | Hnin].
    + eexists. split; [exact Hpr |]. intros b.
      rewrite filled_lookup, lookup_empty.
      destruct (decide (b ∈ submodules /\ b <> "__proto__" /\ b <> "__proto__"))
        as [Hb | Hb].
      * split; [tauto | discriminate].
      * split; [split; [discriminate | tauto] | discriminate].
    + exact Hpr.
  - exact Hg.
Qed.

(** A submodule named [__proto__] beside [web]: one row, without an entry,
    and a prototype holding the entry for [web]. *)
Lemma compatibility_matrix_proto_example :
  exists matrix,
    validateSubmoduleCompatibility ["web"; "__proto__"] = Ok matrix /\
    own matrix !! "web" = Some ∅ /\
    own matrix !! "__proto__" = None /\
    proto matrix = Some {[ "web" := true ]}.
Proof. eexists. split; [reflexivity |]. repeat split. Qed.

End CompatFacts.

(** ** The mirror branches *)

Section MirrorFacts.

Import Mirror.

Ltac mirror_run :=
  lazy beta iota zeta delta
    [bind ret throw await get gets modify try_catch
     update_one getDefaultBranch process_chdir execCommand rev_parse branch_f
     set_cwd set_refs cwd refs successCount errorCount negb].

(** X27. When the directory it started from can be entered again,
    [getDefaultBranch] returns without throwing and leaves the working
    directory as it found it.  It answers main when the submodule
    directory cannot be entered; else the symbolic reference of the remote
    head, trimmed and without its prefix; else main or master, as the
    remote has a main branch or not. *)
Theorem getDefaultBranch_restores :
  forall (env : Env) (submodulePath : string) (s : State),
    (forall d, chdir env d (cwd s) = Some (cwd s)) ->
    getDefaultBranch env submodulePath s
    = (Ok match chdir env (cwd s) submodulePath with
          | None => "main"
          | Some d =>
              match symbolic_ref env d with
              | Ok out => remove_first "refs/remotes/origin/" (trim out)
              | Throw _ =>
                  match show_ref_main env d with
                  | Ok _ => "main"
                  | Throw _ => "master"
                  end
              end
          end, s).
Proof.
  intros env path [dir branches ok errors]. cbn [cwd]. intros Hback.
  mirror_run.
  destruct (chdir env dir path) as [d |]; mirror_run; [| reflexivity].
  destruct (symbolic_ref env d) as [out | e]; mirror_run.
  - rewrite Hback. reflexivity.
  - destruct (show_ref_main env d) as [out | e']; mirror_run;
      rewrite Hback; reflexivity.
Qed.

Lemma getDefaultBranch_restores_witness :
  getDefaultBranch offline "web" at_root = (Ok "main", at_root).
Proof.
  apply (getDefaultBranch_restores offline "web" at_root).
  intros d. reflexivity.
Defined.

(** X28. The loop of [updateMirrorBranches] enters the submodule directory
    to fetch and goes back afterwards, outside any [finally]: when the
    fetch fails, the error is counted and the working directory stays in
    the submodule, where the rest of the loop then runs. *)
Theorem failed_fetch_leaves_cwd :
  forall (env : Env) (existingBranches : list string) (path : string)
         (s : State) (d out e : string),
    (forall c, chdir env c (cwd s) = Some (cwd s)) ->
    chdir env (cwd s) path = Some d ->
    symbolic_ref env d = Ok out ->
    includes (path +:+ "/" +:+ remove_first "refs/remotes/origin/" (trim out))
      existingBranches = true ->
    fetch_origin env d = Throw e ->
    update_one env existingBranches path s
    = (Ok tt, {| cwd := d; refs := refs s; successCount := successCount s;
                 errorCount := errorCount s + 1 |}).
Proof.
  intros env existing path [dir branches ok errors] d out e.
  cbn [cwd refs successCount errorCount]. intros Hback Hd Href Hin Hfetch.
  mirror_run. rewrite Hd. mirror_run. rewrite Href. mirror_run.
  rewrite Hback. mirror_run. rewrite Hin. mirror_run.
  rewrite Hd. mirror_run. rewrite Hfetch. reflexivity.
Qed.

Lemma failed_fetch_leaves_cwd_witness :
  update_one offline ["web/main"] "web" at_root
  = (Ok tt, {| cwd := "/repo/web"; refs := refs at_root;
               successCount := successCount at_root;
               errorCount := errorCount at_root + 1 |}).
Proof.
  apply (failed_fetch_leaves_cwd offline ["web/main"] "web" at_root "/repo/web"
           (Shell.line "refs/remotes/origin/main")
           "Command failed: git fetch origin");
    reflexivity.
Defined.

End MirrorFacts.

(** ** The contract validator *)

Section ContractFacts.

Import Contracts.

Lemma detected_changes (previous current : Matches) :
  (length (breaking (detectContractChanges previous current)) <= 4)%nat.
Proof.
  unfold detectContractChanges, push_if. cbn [breaking].
  repeat match goal with
         | |- context [if ?b then _ else _] => destruct b
         end;
    rewrite ?length_app; cbn [length]; lia.
Qed.

(** X29. The compatibility score of a contract is 90 for a new contract,
    70 when the contract cannot be read, and otherwise 100 less 20 for
    each kind of breaking change found, of which there are four at most:
    it is never under 20, so the floor at zero never applies, and it is
    under 70 exactly when two kinds of breaking change or more are
    listed. *)
Theorem compatibility_score_range :
  forall (previousContent : option Matches) (currentContent : Res Matches),
    let c := checkBackwardCompatibility previousContent currentContent in
    (20 <= score c <= 100)%Z /\
    (length (compat_breakingChanges c) <= 4)%nat /\
    (compat_breakingChanges c = [] <-> (90 <= score c)%Z) /\
    ((score c < 70)%Z <-> (2 <= length (compat_breakingChanges c))%nat).
Proof.
  intros [previous |] current; [| cbn; repeat split; try lia; discriminate].
  destruct current as [current | e].
  2: { cbn. repeat split; try lia; try discriminate. }
  cbn [checkBackwardCompatibility score compat_breakingChanges].
  pose proof (detected_changes previous current) as Hn.
  destruct (breaking (detectContractChanges previous current)) as [| x l];
    cbn [length] in *.
  - repeat split; lia.
  - repeat split; try lia; try discriminate.
Qed.


Lemma compatibility_cases (previous : option Matches) (current : Res Matches) :
  let c := checkBackwardCompatibility previous current in
  let n := length (compat_breakingChanges c) in
  (score c = 90%Z /\ n = 0%nat) \/ (score c = 70%Z /\ n = 1%nat) \/
  (score c = 100%Z /\ n = 0%nat) \/ (score c = 80%Z /\ n = 1%nat) \/
  (score c = 60%Z /\ n = 2%nat) \/ (score c = 40%Z /\ n = 3%nat) \/
  (score c = 20%Z /\ n = 4%nat).
Proof.
  destruct previous as [previous |]; [| left; split; reflexivity].
  destruct current as [current | e]; [| right; left; split; reflexivity].
  cbn [checkBackwardCompatibility score compat_breakingChanges].
  pose proof (detected_changes previous current) as Hn.
  destruct (breaking (detectContractChanges previous current))
    as [| x1 [| x2 [| x3 [| x4 [| x5 l]]]]]; cbn [length] in *.
  - right; right; left. split; reflexivity.
  - right; right; right; left. split; reflexivity.
  - right; right; right; right; left. split; reflexivity.
  - right; right; right; right; right; left. split; reflexivity.
  - right; right; right; right; right; right. split; reflexivity.
  - lia.
Qed.

(** X30. The contract gate on what [validateServiceContract] returns: a
    service without a contract file fails the gate; with one, the gate
    passes exactly when the syntax is valid and either no breaking change
    is listed, or the contract states a version and at most three are.
    A contract with breaking changes passes the gate. *)
Theorem contract_gate_of_validation :
  forall (servicePath now : string) (f : Files),
    Gates.passed
      (Gates.evaluateContractGate Gates.new_ProductionQualityGates
         (Ok (contractResult (validateServiceContract servicePath now f))))
    = match contractFile f with
      | None => false
      | Some _ =>
          let listed :=
            length (compat_breakingChanges
                      (checkBackwardCompatibility (previousContent f)
                         (currentContent f))) in
          syntax_isValid f
          && ((listed =? 0)%nat
              || (negb (String.eqb (contractVersion f) "unknown")
                  && (listed <=? 3)%nat))
      end.
Proof.
  intros servicePath now f.
  destruct (contract_gate_returns
              (contractResult (validateServiceContract servicePath now f)))
    as (Hs & Hp & _).
  rewrite Hp, Hs. clear Hs Hp.
  unfold GateRules.hasVersion.
  lazy beta iota zeta delta
    [contractResult validateServiceContract
     Gates.hasContract Gates.isValid Gates.compatibilityScore
     Gates.breakingChanges Gates.version
     hasContract isValid compatibilityScore breakingChanges version].
  destruct (contractFile f) as [file |]; [| reflexivity].
  lazy beta iota zeta.
  destruct (compatibility_cases (previousContent f) (currentContent f))
    as [[-> ->] | [[-> ->] | [[-> ->] | [[-> ->] | [[-> ->] | [[-> ->] | [-> ->]]]]]]];
    destruct (syntax_isValid f), (String.eqb (contractVersion f) "unknown");
    reflexivity.
Qed.

End ContractFacts.
